(** * The attached-filters model of Shotcut (src/models/attachedfiltersmodel.cpp)

    A shallow embedding of [AttachedFiltersModel]: the list model that shows
    the filters attached to a producer, sorted GPU / video / audio, while the
    MLT service keeps them (with its own loader filters) in attach order.

    Conventions of the embedding.
    - A C++ [int] is a [Z].  On the states the class reaches, rows and
      engine indices are bounded by the length of a list, far from the ends
      of the 32-bit range; signed overflow is undefined in C++ and has no
      wrap-around to write out.
    - A pointer that may be [NULL] is an [option].
    - An access the C++ leaves undefined (a [QList] subscript out of range,
      the dereference of a null pointer) is a failure: the functions that can
      reach one return an [option], and [None] is that failure.
    - Member data is threaded explicitly through a [State] record; the signals
      the model emits and the lines it logs are appended to a trace. *)

From stdpp Require Import base option numbers list strings sorting.

Local Open Scope Z_scope.

(** ** QList<T>, as the class uses it (Qt 5 semantics) *)

Module QList.
Section QList.
Context {A : Type}.
Implicit Types (l : list A) (i : Z).

(** [QList::count()] *)
Definition count l : Z := Z.of_nat (length l).

Definition in_range i l : bool := (0 <=? i) && (i <? count l).

(** [QList::operator[]]: asserts [i >= 0 && i < size()]; undefined outside. *)
Definition at_ l i : option A :=
  if in_range i l then l !! Z.to_nat i else None.

(** [l[i] = x]: the same assertion. *)
Definition set_at l i (x : A) : option (list A) :=
  if in_range i l then Some (<[Z.to_nat i := x]> l) else None.

(** [QList::removeAt(i)]: does nothing when [i] is out of range. *)
Definition removeAt i l : list A :=
  if in_range i l then delete (Z.to_nat i) l else l.

(** [QList::insert(i, x)]: prepends when [i <= 0], appends when
    [i >= size()]. *)
Definition insert i (x : A) l : list A :=
  if i <=? 0 then x :: l
  else if count l <=? i then l ++ [x]
  else take (Z.to_nat i) l ++ x :: drop (Z.to_nat i) l.

(** [QList::move(from, to)]: asserts both indices in range; the item at
    [from] ends at index [to]. *)
Definition move (from to : Z) l : option (list A) :=
  if in_range from l && in_range to l then
    x ← l !! Z.to_nat from;
    Some (insert to x (delete (Z.to_nat from) l))
  else None.
End QList.
End QList.

(** ** The MLT side: a service and its chain of attached filters

    The engine is a library the class calls, not part of its sources.  Its
    primitives are embedded as the MLT framework has them, which is how the
    design document lists them (section 6: count, get by position, attach
    (append), detach, move (source position, destination position), get and
    set of a property; section 4.4: a move takes the filter out of its
    position and inserts it at the destination, shifting the filters in
    between). *)

Module Mlt.

(** A filter object.  [handle] is its identity (the [mlt_filter] pointer):
    [Mlt::Filter] wrappers made by [Service::filter] share the object that
    sits in the chain.  The other fields are the properties the model reads
    or writes. *)
Record Filter := mkFilter {
  handle : nat;
  mlt_service : string;       (* "mlt_service" *)
  disable : Z;                (* get_int("disable") *)
  loader : Z;                 (* get_int("_loader") *)
  shotcut_filter : option string  (* "shotcut:filter" *)
}.

(** [Mlt::Producer]: a wrapper of a service that may be null
    ([is_valid()] is false then); a valid one has a chain of filters. *)
Record Producer := mkProducer { instance : option (list Filter) }.

Definition is_valid (p : Producer) : bool :=
  match instance p with Some _ => true | None => false end.

(** [Service::filter_count()] *)
Definition filter_count (p : Producer) : Z :=
  match instance p with
  | Some fs => Z.of_nat (length fs)
  | None => 0
  end.

(** [Service::filter(index)]: [NULL] when the index is out of range. *)
Definition filter (p : Producer) (index : Z) : option Filter :=
  match instance p with
  | Some fs => if (0 <=? index) && (index <? Z.of_nat (length fs))
               then fs !! Z.to_nat index else None
  | None => None
  end.

(** [Service::attach(filter)]: appends to the chain. *)
Definition attach (p : Producer) (f : Filter) : Producer :=
  match instance p with
  | Some fs => mkProducer (Some (fs ++ [f]))
  | None => p
  end.

(** Removes the first entry of the chain that is the object [h]. *)
Fixpoint remove_handle (h : nat) (fs : list Filter) : list Filter :=
  match fs with
  | [] => []
  | f :: fs' => if (handle f =? h)%nat then fs' else f :: remove_handle h fs'
  end.

(** [Service::detach(filter)]: looks the object up by identity and closes
    the gap. *)
Definition detach (p : Producer) (f : Filter) : Producer :=
  match instance p with
  | Some fs => mkProducer (Some (remove_handle (handle f) fs))
  | None => p
  end.

Definition clamp (n i : Z) : Z :=
  if i <? 0 then 0 else if n <=? i then n - 1 else i.

(** [Service::move_filter(from, to)]: both positions are clamped to the
    chain; the filter at [from] is taken out and put back at [to], the
    filters in between shift by one. *)
Definition move_filter (p : Producer) (from to : Z) : Producer :=
  match instance p with
  | Some fs =>
      let n := Z.of_nat (length fs) in
      let from := clamp n from in
      let to := clamp n to in
      if negb (from =? to) && (1 <? n) then
        match fs !! Z.to_nat from with
        | Some f =>
            let rest := delete (Z.to_nat from) fs in
            mkProducer (Some (take (Z.to_nat to) rest ++ f :: drop (Z.to_nat to) rest))
        | None => p
        end
      else p
  | None => p
  end.

(** The filter [g] after a write of [v] to the "disable" property of the
    object [h]. *)
Definition with_disable (h : nat) (v : Z) (g : Filter) : Filter :=
  if (handle g =? h)%nat
  then mkFilter (handle g) (mlt_service g) v (loader g) (shotcut_filter g)
  else g.

(** [filter->set("disable", v)] through a wrapper of the object [h]: the
    object in the chain changes. *)
Definition set_disable (p : Producer) (h : nat) (v : Z) : Producer :=
  match instance p with
  | Some fs => mkProducer (Some (with_disable h v <$> fs))
  | None => p
  end.

End Mlt.

(** ** Filter metadata *)

(** Modelled from the spec: [QmlMetadata] (qmltypes/qmlmetadata.h) is not
    among the sources.  The record holds what the accessors the class calls
    return: the display name, the service identifier, the object name that
    tags a filter, and the two flags that classify a descriptor,
    [needsGPU] and [isAudio]. *)
Record QmlMetadata := mkMeta {
  name : string;
  mlt_service : string;
  objectName : string;
  needsGPU : bool;
  isAudio : bool
}.

(** [sortIsLess(lhs, rhs)]: sort order is GPU, video, audio; a null metadata
    counts as video. *)
Definition sortIsLess (lhs rhs : option QmlMetadata) : bool :=
  match lhs, rhs with
  | None, None => false
  | None, Some r => if needsGPU r then true else false
  | Some l, None => if isAudio l then true else false
  | Some l, Some r =>
      if needsGPU r && negb (needsGPU l) then true
      else if negb (isAudio r) && isAudio l then true
      else false
  end.

(** ** The model's state and what it emits *)

(** Lines written with [qWarning()]. *)
Inductive LogLine :=
  | FailedToLoadFilter (service : string)
  | InvalidIndex (row : Z).

(** Signals of the item model, the transport call [MLT.pause()] and log
    lines, in the order the code issues them. *)
Inductive Event :=
  | BeginResetModel
  | EndResetModel
  | ReadyChanged
  | Changed
  | DataChanged (topLeft bottomRight : Z)
  | BeginInsertRows (first last : Z)
  | EndInsertRows
  | BeginRemoveRows (first last : Z)
  | EndRemoveRows
  | BeginMoveRows (sourceRow destinationRow : Z)
  | EndMoveRows
  | Pause
  | Warning (line : LogLine).

(** The data members of [AttachedFiltersModel], and the trace. *)
Record State := mkState {
  m_producer : option Mlt.Producer;         (* QScopedPointer<Mlt::Producer> *)
  m_metaList : list (option QmlMetadata);   (* QList<const QmlMetadata*> *)
  m_mltIndexMap : list Z;                   (* QList<int> *)
  m_dropRow : Z;
  trace : list Event
}.

Definition set_producer (p : option Mlt.Producer) (s : State) : State :=
  mkState p (m_metaList s) (m_mltIndexMap s) (m_dropRow s) (trace s).
Definition set_metaList (l : list (option QmlMetadata)) (s : State) : State :=
  mkState (m_producer s) l (m_mltIndexMap s) (m_dropRow s) (trace s).
Definition set_mltIndexMap (m : list Z) (s : State) : State :=
  mkState (m_producer s) (m_metaList s) m (m_dropRow s) (trace s).
Definition set_dropRow (r : Z) (s : State) : State :=
  mkState (m_producer s) (m_metaList s) (m_mltIndexMap s) r (trace s).
Definition emit (e : Event) (s : State) : State :=
  mkState (m_producer s) (m_metaList s) (m_mltIndexMap s) (m_dropRow s)
          (trace s ++ [e]).

(** The constructor: no producer yet, empty lists, no pending drop row. *)
Definition AttachedFiltersModel : State := mkState None [] [] (-1) [].

(** [m_producer && m_producer->is_valid()], with the producer at hand. *)
Definition valid_producer (s : State) : option Mlt.Producer :=
  match m_producer s with
  | Some p => if Mlt.is_valid p then Some p else None
  | None => None
  end.

(** ** QModelIndex and the item roles *)

Record QModelIndex := mkIndex { row : Z; column : Z; model : bool }.

(** [QModelIndex()] *)
Definition noIndex : QModelIndex := mkIndex (-1) (-1) false.
(** [createIndex(row, column)] *)
Definition createIndex (r c : Z) : QModelIndex := mkIndex r c true.
Definition isValid (i : QModelIndex) : bool :=
  (0 <=? row i) && (0 <=? column i) && model i.
Definition index_eqb (a b : QModelIndex) : bool :=
  (row a =? row b) && (column a =? column b) && eqb (model a) (model b).

Inductive ItemDataRole :=
  | DisplayRole
  | CheckStateRole
  | TypeDisplayRole
  | OtherRole (role : Z).

(** [beginMoveRows(parent, first, last, parent, child)] within one parent:
    Qt refuses the move of a range into itself, that is a destination between
    [first] and [last + 1]. *)
Definition beginMoveRows (sourceFirst sourceLast destinationChild : Z) : bool :=
  negb ((sourceFirst <=? destinationChild) && (destinationChild <=? sourceLast + 1)).

(** ** Queries *)

Definition isReady (s : State) : bool :=
  match m_producer s with Some _ => true | None => false end.

(** [getFilter(row)]: the inner [option] is the pointer returned. *)
Definition getFilter (s : State) (row : Z) : option (option Mlt.Filter) :=
  match valid_producer s with
  | Some p =>
      if row <? QList.count (m_mltIndexMap s) then
        index ← QList.at_ (m_mltIndexMap s) row;
        Some (Mlt.filter p index)
      else Some None
  | None => Some None
  end.

Definition getMetadata (s : State) (row : Z) : option (option QmlMetadata) :=
  if row <? QList.count (m_metaList s) then QList.at_ (m_metaList s) row
  else Some None.

Definition rowCount (s : State) : Z :=
  match valid_producer s with
  | Some _ => QList.count (m_metaList s)
  | None => 0
  end.

(** What [data] returns: [QVariant()], a string, or a check state. *)
Inductive CheckState := Unchecked | Checked.
Inductive QVariant :=
  | Invalid
  | VString (text : string)
  | VCheckState (c : CheckState).

(** [data(index, role)].  The guard compares the row with the engine's
    [filter_count()]; the descriptor list is subscripted after it.  A filter
    the chain returns is valid and has its "mlt_service" property, so the
    tests [filter->is_valid()] and [filter->get("mlt_service")] hold of a
    filter that is not null. *)
Definition data (index : QModelIndex) (role : ItemDataRole) (s : State)
    : option QVariant :=
  match valid_producer s with
  | None => Some Invalid
  | Some p =>
      if Mlt.filter_count p <=? row index then Some Invalid
      else
        match role with
        | DisplayRole =>
            meta ← QList.at_ (m_metaList s) (row index);
            match meta with
            | Some meta => Some (VString (name meta))
            | None =>
                (* Fallback is raw mlt_service name *)
                filter ← getFilter s (row index);
                match filter with
                | Some filter => Some (VString (Mlt.mlt_service filter))
                | None => Some Invalid
                end
            end
        | CheckStateRole =>
            filter ← getFilter s (row index);
            match filter with
            | Some filter =>
                Some (VCheckState (if Mlt.disable filter =? 0 then Checked
                                   else Unchecked))
            | None => Some (VCheckState Unchecked)
            end
        | TypeDisplayRole =>
            meta ← QList.at_ (m_metaList s) (row index);
            Some (VString
                    match meta with
                    | Some meta =>
                        if isAudio meta then "Audio"
                        else if needsGPU meta then "GPU" else "Video"
                    | None => "Video"
                    end)
        | OtherRole _ => Some Invalid
        end
  end.

(** ** Loops over the index map *)

(** [for (int i = 0; i < m.count(); i++) body]: [for_each_index body fuel i m]
    runs the loop from [i]; it fails when the fuel ends before the loop. *)
Fixpoint for_each_index (body : Z → list Z → option (list Z))
    (fuel : nat) (i : Z) (m : list Z) : option (list Z) :=
  if i <? QList.count m then
    match fuel with
    | O => None
    | S fuel' => m' ← body i m; for_each_index body fuel' (i + 1) m'
    end
  else Some m.

(** The body in [add]: [if (m[i] >= mltIndex) m[i] = m[i] + 1;] *)
Definition add_adjust (mltIndex : Z) (i : Z) (m : list Z) : option (list Z) :=
  v ← QList.at_ m i;
  if mltIndex <=? v then QList.set_at m i (v + 1) else Some m.

(** The body in [remove]: [if (m[i] > mltIndex) m[i] = m[i] - 1;] *)
Definition remove_adjust (mltIndex : Z) (i : Z) (m : list Z) : option (list Z) :=
  v ← QList.at_ m i;
  if mltIndex <? v then QList.set_at m i (v - 1) else Some m.

(** The body in [moveRows]: the two tests one after the other, the second
    on the value the first may have written. *)
Definition moveRows_adjust (mltSrcIndex mltDstIndex : Z) (i : Z) (m : list Z)
    : option (list Z) :=
  v ← QList.at_ m i;
  m1 ← (if mltSrcIndex <? v then QList.set_at m i (v - 1) else Some m);
  v1 ← QList.at_ m1 i;
  if mltDstIndex <=? v1 then QList.set_at m1 i (v1 + 1) else Some m1.

(** ** Drag and drop hooks, and moving a row *)

Definition insertRows (row count : Z) (parent : QModelIndex) (s : State)
    : bool * State :=
  match valid_producer s with
  | Some _ => (true, if m_dropRow s =? -1 then set_dropRow row s else s)
  | None => (false, s)
  end.

Definition moveRows (sourceParent : QModelIndex) (sourceRow count : Z)
    (destinationParent : QModelIndex) (destinationRow : Z) (s : State)
    : option (bool * State) :=
  match valid_producer s with
  | None => Some (false, s)
  | Some p =>
      if negb (index_eqb sourceParent destinationParent) || negb (count =? 1)
      then Some (false, s)
      else
        let fromIndex := createIndex sourceRow 0 in
        let toIndex := createIndex destinationRow 0 in
        if isValid fromIndex && isValid toIndex then
          if beginMoveRows sourceRow sourceRow destinationRow then
            let s := emit (BeginMoveRows sourceRow destinationRow) s in
            (* Moving down: convert to "post move" indexing *)
            let destinationRow :=
              if sourceRow <? destinationRow then destinationRow - 1
              else destinationRow in
            mltSrcIndex ← QList.at_ (m_mltIndexMap s) sourceRow;
            mltDstIndex ← QList.at_ (m_mltIndexMap s) destinationRow;
            let p := Mlt.move_filter p mltSrcIndex mltDstIndex in
            let map := QList.removeAt sourceRow (m_mltIndexMap s) in
            map ← for_each_index (moveRows_adjust mltSrcIndex mltDstIndex)
                     (length map) 0 map;
            let map := QList.insert destinationRow mltDstIndex map in
            metaList ← QList.move sourceRow destinationRow (m_metaList s);
            Some (true,
                  emit EndMoveRows
                    (set_metaList metaList
                       (set_mltIndexMap map (set_producer (Some p) s))))
          else Some (false, s)
        else Some (false, s)
  end.

Definition removeRows (row count : Z) (parent : QModelIndex) (s : State)
    : option (bool * State) :=
  match valid_producer s with
  | Some _ =>
      if (0 <=? m_dropRow s) && negb (row =? m_dropRow s) then
        '(result, s') ← moveRows parent row 1 parent (m_dropRow s) s;
        Some (result, set_dropRow (-1) s')
      else Some (false, s)
  | None => Some (false, s)
  end.

(** [move(fromRow, toRow)].  The increment [toRow++] is written
    [toRow + 1], which it is for every [toRow] below [INT_MAX]; the increment
    of an [int] that holds [INT_MAX] overflows, and C++ leaves that
    undefined. *)
Definition move (fromRow toRow : Z) (s : State) : option (bool * State) :=
  let parent := noIndex in
  if (fromRow <? 0) || (toRow <? 0) then Some (false, s)
  else
    (* Moving down: put it under the destination index *)
    let toRow := if fromRow <? toRow then toRow + 1 else toRow in
    moveRows parent fromRow 1 parent toRow s.

(** ** The check box *)

(** [setData(index, value, role)]; [value] is not read. *)
Definition setData (index : QModelIndex) (role : ItemDataRole) (s : State)
    : option (bool * State) :=
  match role with
  | CheckStateRole =>
      filter ← getFilter s (row index);
      match filter, m_producer s with
      | Some f, Some p =>
          (* filter->set("disable", !filter->get_int("disable")) *)
          let p := Mlt.set_disable p (Mlt.handle f)
                     (if Mlt.disable f =? 0 then 1 else 0) in
          Some (true,
                emit (DataChanged (row index) (row index))
                  (emit Changed (set_producer (Some p) s)))
      | _, _ => Some (true, s)
      end
  | _ => Some (false, s)
  end.

(** ** Adding and removing a filter *)

(** The scan in [add]:
    [for (int i = count - 1; i >= 0; i--)
       if (!sortIsLess(m_metaList[i], meta)) { insertIndex = i + 1; break; }]
    with [insertIndex = 0] before it. *)
Fixpoint add_scan (metaList : list (option QmlMetadata)) (meta : option QmlMetadata)
    (fuel : nat) (i : Z) : option Z :=
  if 0 <=? i then
    match fuel with
    | O => None
    | S fuel' =>
        prev ← QList.at_ metaList i;
        if negb (sortIsLess prev meta) then Some (i + 1)
        else add_scan metaList meta fuel' (i - 1)
    end
  else Some 0.

(** [if (!meta->objectName().isEmpty())
      filter->set("shotcut:filter", meta->objectName()...)] *)
Definition tag_filter (meta : QmlMetadata) (filter : Mlt.Filter) : Mlt.Filter :=
  if negb (String.eqb (objectName meta) EmptyString)
  then Mlt.mkFilter (Mlt.handle filter) (Mlt.mlt_service filter)
         (Mlt.disable filter) (Mlt.loader filter) (Some (objectName meta))
  else filter.

(** "Calculate the MLT index for the new filter." *)
Definition add_mltIndex (map : list Z) (insertIndex : Z) : option Z :=
  if QList.count map =? 0 then Some (QList.count map)
  else if insertIndex =? 0 then QList.at_ map 0
  else v ← QList.at_ map (insertIndex - 1); Some (v + 1).

(** [add(meta)].  [filter] is the object
    [new Mlt::Filter(MLT.profile(), meta->mlt_service())] makes, [None] when
    it is not valid. *)
Definition add (filter : option Mlt.Filter) (meta : QmlMetadata) (s : State)
    : option (Z * State) :=
  match filter with
  | Some filter =>
      let filter := tag_filter meta filter in
      (* Put the filter after the last filter that is greater than or equal
         in sort order. *)
      insertIndex ← add_scan (m_metaList s) (Some meta)
                      (length (m_metaList s)) (QList.count (m_metaList s) - 1);
      mltIndex ← add_mltIndex (m_mltIndexMap s) insertIndex;
      let s := emit Pause (emit (BeginInsertRows insertIndex insertIndex) s) in
      p ← m_producer s;
      let p := Mlt.attach p filter in
      let p := Mlt.move_filter p (Mlt.filter_count p - 1) mltIndex in
      (* Adjust MLT index map for indices that just changed. *)
      map ← for_each_index (add_adjust mltIndex)
               (length (m_mltIndexMap s)) 0 (m_mltIndexMap s);
      let map := QList.insert insertIndex mltIndex map in
      let metaList := QList.insert insertIndex (Some meta) (m_metaList s) in
      Some (insertIndex,
            emit Changed
              (emit EndInsertRows
                 (set_metaList metaList
                    (set_mltIndexMap map (set_producer (Some p) s)))))
  | None =>
      Some (-1, emit (Warning (FailedToLoadFilter (mlt_service meta))) s)
  end.

(** [remove(row)] *)
Definition remove (row : Z) (s : State) : option State :=
  if QList.count (m_metaList s) <=? row then
    Some (emit (Warning (InvalidIndex row)) s)
  else
    let s := emit (BeginRemoveRows row row) s in
    mltIndex ← QList.at_ (m_mltIndexMap s) row;
    p ← m_producer s;
    filter ← Mlt.filter p mltIndex;
    let p := Mlt.detach p filter in
    (* Adjust MLT index map for indices that just changed. *)
    let map := QList.removeAt row (m_mltIndexMap s) in
    map ← for_each_index (remove_adjust mltIndex) (length map) 0 map;
    let metaList := QList.removeAt row (m_metaList s) in
    Some (emit Changed
            (emit EndRemoveRows
               (set_metaList metaList
                  (set_mltIndexMap map (set_producer (Some p) s))))).

(** ** Reset *)

(** The scan in [reset]:
    [for (int j = newIndex - 1; j >= 0; j--)
       if (sortIsLess(m_metaList[j], newMeta)) newIndex = j; else break;] *)
Fixpoint reset_scan (metaList : list (option QmlMetadata))
    (newMeta : option QmlMetadata) (fuel : nat) (j newIndex : Z) : option Z :=
  if 0 <=? j then
    match fuel with
    | O => None
    | S fuel' =>
        prevMeta ← QList.at_ metaList j;
        if sortIsLess prevMeta newMeta
        then reset_scan metaList newMeta fuel' (j - 1) j
        else Some newIndex
    end
  else Some newIndex.

(** The loop of [reset] over the chain, from [i]. *)
Fixpoint reset_loop (metadataForService : Mlt.Filter → option QmlMetadata)
    (p : Mlt.Producer) (fuel : nat) (i count : Z) (s : State) : option State :=
  if i <? count then
    match fuel with
    | O => None
    | S fuel' =>
        s' ← match Mlt.filter p i with
             | Some filter =>
                 if Mlt.loader filter =? 0 then
                   let newMeta := metadataForService filter in
                   let newIndex := QList.count (m_metaList s) in
                   newIndex ← reset_scan (m_metaList s) newMeta
                                (length (m_metaList s)) (newIndex - 1) newIndex;
                   Some (set_mltIndexMap (QList.insert newIndex i (m_mltIndexMap s))
                           (set_metaList (QList.insert newIndex newMeta (m_metaList s)) s))
                 else Some s
             | None => Some s
             end;
        reset_loop metadataForService p fuel' (i + 1) count s'
    end
  else Some s.

(** [reset(producer)].  The three other arguments are what the code asks of
    its collaborators: [MLT.producer()], [MLT.isPlaylist()] and
    [MAIN.filterController()->metadataForService(filter)]. *)
Definition reset (producer MLT_producer : option Mlt.Producer)
    (MLT_isPlaylist : bool)
    (metadataForService : Mlt.Filter → option QmlMetadata) (s : State)
    : option State :=
  let s := emit BeginResetModel s in
  (* new Mlt::Producer(producer ? producer : MLT.producer()) *)
  let p := match (match producer with Some _ => producer | None => MLT_producer end) with
           | Some p => p
           | None => Mlt.mkProducer None
           end in
  let s := set_mltIndexMap [] (set_metaList [] (set_producer (Some p) s)) in
  if MLT_isPlaylist then Some s
  else
    s ← (if Mlt.is_valid p then
           let count := Mlt.filter_count p in
           reset_loop metadataForService p (Z.to_nat count) 0 count s
         else Some s);
    Some (emit ReadyChanged (emit EndResetModel s)).

(** * Vocabulary of the properties *)

(** The five rules of the design document, in its words: a second
    definition, compared with [sortIsLess] below. *)
Definition sortIsLess_rules (a b : option QmlMetadata) : Prop :=
  match a, b with
  | None, None => False                                   (* rule 1 *)
  | None, Some b => needsGPU b = true                     (* rule 2 *)
  | Some a, None => isAudio a = true                      (* rule 3 *)
  | Some a, Some b =>                                     (* rules 4, 5 *)
      (needsGPU b = true ∧ needsGPU a = false) ∨
      (¬ (needsGPU b = true ∧ needsGPU a = false) ∧
       isAudio a = true ∧ isAudio b = false)
  end.

(** What each loop does to one entry. *)
Definition add_shift (mltIndex v : Z) : Z :=
  if mltIndex <=? v then v + 1 else v.
Definition remove_shift (mltIndex v : Z) : Z :=
  if mltIndex <? v then v - 1 else v.
Definition moveRows_shift (mltSrcIndex mltDstIndex v : Z) : Z :=
  let v1 := if mltSrcIndex <? v then v - 1 else v in
  if mltDstIndex <=? v1 then v1 + 1 else v1.

(** The place the design document gives a new filter: one past the last
    entry that is not less than it, row 0 when every entry is less. *)
Definition insert_position (metaList : list (option QmlMetadata))
    (meta : option QmlMetadata) (pos : Z) : Prop :=
  (pos = 0 ∧ ∀ (i : nat) m, metaList !! i = Some m → sortIsLess m meta = true) ∨
  (∃ (i : nat) m,
      pos = Z.of_nat i + 1 ∧ metaList !! i = Some m ∧
      sortIsLess m meta = false ∧
      ∀ (j : nat) m', (i < j)%nat → metaList !! j = Some m' →
                      sortIsLess m' meta = true).

(** The row a move lands on, once the source is counted out. *)
Definition post_move_row (sourceRow destinationRow : Z) : Z :=
  if sourceRow <? destinationRow then destinationRow - 1 else destinationRow.

(** The operations that change the structure of the model. *)
Inductive Operation :=
  | Add (filter : option Mlt.Filter) (meta : QmlMetadata)
  | Remove (row : Z)
  | Move (fromRow toRow : Z)
  | MoveRows (sourceParent : QModelIndex) (sourceRow count : Z)
      (destinationParent : QModelIndex) (destinationRow : Z)
  | RemoveRows (row count : Z) (parent : QModelIndex).

Definition run (op : Operation) (s : State) : option State :=
  match op with
  | Add filter meta => snd <$> add filter meta s
  | Remove row => remove row s
  | Move fromRow toRow => snd <$> move fromRow toRow s
  | MoveRows sourceParent sourceRow count destinationParent destinationRow =>
      snd <$> moveRows sourceParent sourceRow count destinationParent
                destinationRow s
  | RemoveRows row count parent => snd <$> removeRows row count parent s
  end.

Definition lengths_agree (s : State) : Prop :=
  length (m_metaList s) = length (m_mltIndexMap s).

(** The engine index the design document gives the new filter. *)
Definition target_engine_index (map : list Z) (insertIndex mltIndex : Z) : Prop :=
  (map = [] ∧ mltIndex = 0) ∨
  (map ≠ [] ∧ insertIndex = 0 ∧ map !! 0%nat = Some mltIndex) ∨
  (map ≠ [] ∧ insertIndex ≠ 0 ∧
   ∃ v, map !! Z.to_nat (insertIndex - 1) = Some v ∧ mltIndex = v + 1).

(** The index map after a move, in the words of the design document: the
    entry of the source row is removed; every remaining entry greater than
    the source engine index is decremented; every entry that is then greater
    than or equal to the destination engine index is incremented; the
    destination engine index is inserted at the destination row. *)
Definition recomputed_map (map : list Z) (sourceRow destinationRow : nat)
    (mltSrcIndex mltDstIndex : Z) : list Z :=
  let remaining := delete sourceRow map in
  let decremented := (λ e, if mltSrcIndex <? e then e - 1 else e) <$> remaining in
  let incremented := (λ e, if mltDstIndex <=? e then e + 1 else e) <$> decremented in
  take destinationRow incremented ++ mltDstIndex :: drop destinationRow incremented.

(** A descriptor list with the entry of [sourceRow] moved to
    [destinationRow]. *)
Definition moved_row {A} (l : list A) (sourceRow destinationRow : nat) (x : A)
    : list A :=
  take destinationRow (delete sourceRow l) ++ x :: drop destinationRow (delete sourceRow l).

(** The chain of the engine, empty when there is no valid producer. *)
Definition chain (s : State) : list Mlt.Filter :=
  match m_producer s with
  | Some p => default [] (Mlt.instance p)
  | None => []
  end.

(** The object [f] is not attached yet, as one that [new] just made. *)
Definition fresh (f : Mlt.Filter) (s : State) : Prop :=
  Forall (λ g, Mlt.handle g ≠ Mlt.handle f) (chain s).

(** An index map whose entries are positions of the engine chain. *)
Definition map_in_chain (s : State) : Prop :=
  Forall (λ e, 0 ≤ e < Z.of_nat (length (chain s))) (m_mltIndexMap s).

(** The engine filter at an index of the map, if the index is a position
    of the chain. *)
Definition filter_at (fs : list Mlt.Filter) (e : Z) : option Mlt.Filter :=
  if 0 <=? e then fs !! Z.to_nat e else None.

(** Row by row, the engine filter the index map points at. *)
Definition designated (s : State) : list (option Mlt.Filter) :=
  filter_at (chain s) <$> m_mltIndexMap s.

(** An index map that tracks a chain: its entries are positions of the
    chain, no position twice; the objects of the chain are distinct. *)
Definition tracks (fs : list Mlt.Filter) (map : list Z) : Prop :=
  Forall (λ e, 0 ≤ e < Z.of_nat (length fs)) map ∧ NoDup map ∧
  NoDup (Mlt.handle <$> fs).

(** The state of a model that stands for a chain: a valid producer, one
    length for the two lists, and an index map that tracks the chain. *)
Definition consistent (s : State) : Prop :=
  is_Some (valid_producer s) ∧ lengths_agree s ∧
  tracks (chain s) (m_mltIndexMap s).

(** An engine index that [reset] shows: the position of a filter that is
    not a loader. *)
Definition shown (fs : list Mlt.Filter) (e : Z) : Prop :=
  ∃ f, filter_at fs e = Some f ∧ Mlt.loader f = 0.

(** The descriptor [reset] gives the row of engine index [e]. *)
Definition descriptor_at (metadataForService : Mlt.Filter → option QmlMetadata)
    (fs : list Mlt.Filter) (e : Z) : option QmlMetadata :=
  filter_at fs e ≫= metadataForService.

(** The place of a descriptor in the order GPU, video, audio, read as
    [data] labels it: audio when [isAudio], else GPU when [needsGPU], else
    video; a null descriptor is video. *)
Definition category (a : option QmlMetadata) : nat :=
  match a with
  | Some m => if isAudio m then 2 else if needsGPU m then 0 else 1
  | None => 1
  end.

(** A descriptor that does not set both flags. *)
Definition one_flag (a : option QmlMetadata) : Prop :=
  match a with
  | Some m => needsGPU m && isAudio m = false
  | None => True
  end.

(** A descriptor list in the order GPU, video, audio. *)
Definition sorted_by_category (l : list (option QmlMetadata)) : Prop :=
  ∀ (i j : nat) a b,
    (i < j)%nat → l !! i = Some a → l !! j = Some b →
    (category a ≤ category b)%nat.

(** Within a category, rows in the order of their engine indices. *)
Definition engine_order_within_category
    (l : list (option QmlMetadata)) (map : list Z) : Prop :=
  ∀ (i j : nat) a b ea eb,
    (i < j)%nat → l !! i = Some a → l !! j = Some b →
    map !! i = Some ea → map !! j = Some eb →
    category a = category b → ea < eb.

(** The state [reset] leaves and [add] and [remove] keep, until the user
    moves a row: descriptors with one flag at most, sorted by category, each
    category in engine order. *)
Definition in_sort_order (s : State) : Prop :=
  Forall one_flag (m_metaList s) ∧ sorted_by_category (m_metaList s) ∧
  engine_order_within_category (m_metaList s) (m_mltIndexMap s).

(** The filters of a chain that are loaders, in chain order. *)
Definition loaders (fs : list Mlt.Filter) : list Mlt.Filter :=
  filter (λ f, Mlt.loader f ≠ 0) fs.

(** What the check box of a row shows for the engine filter the row points
    at: checked when the filter is there and not disabled. *)
Definition check_state (f : option Mlt.Filter) : CheckState :=
  match f with
  | Some f => if Mlt.disable f =? 0 then Checked else Unchecked
  | None => Unchecked
  end.

Definition toggled (c : CheckState) : CheckState :=
  match c with Checked => Unchecked | Unchecked => Checked end.

(** The label of a category. *)
Definition type_label (a : option QmlMetadata) : string :=
  match category a with
  | 0%nat => "GPU"
  | 1%nat => "Video"
  | _ => "Audio"
  end.

(** The text of a row: the name of its descriptor, the service name of its
    filter when it has no descriptor. *)
Definition display_text (a : option QmlMetadata) (f : Mlt.Filter) : string :=
  match a with
  | Some m => name m
  | None => Mlt.mlt_service f
  end.

(** No row points at a loader: every row has its filter in the chain, and
    the filter is not a loader. *)
Definition rows_hide_loaders (s : State) : Prop :=
  Forall (λ d, ∃ f, d = Some f ∧ Mlt.loader f = 0) (designated s).

(** The row of the list before a move that row [j] of the list after it
    comes from. *)
Definition move_source (sourceRow destinationRow j : nat) : nat :=
  if (j =? destinationRow)%nat then sourceRow
  else
    let j' := if (j <? destinationRow)%nat then j else pred j in
    if (j' <? sourceRow)%nat then j' else S j'.

(** A state that shows its chain as [reset] would build it: consistent, in
    sort order, with a row for every filter that is not a loader and for no
    other, and each row with the descriptor the controller gives its
    filter. *)
Definition faithful (metadataForService : Mlt.Filter → option QmlMetadata)
    (s : State) : Prop :=
  consistent s ∧ in_sort_order s ∧
  (∀ e, e ∈ m_mltIndexMap s ↔ shown (chain s) e) ∧
  m_metaList s = descriptor_at metadataForService (chain s) <$> m_mltIndexMap s.

(** The order of the rows of two engine indices in a list in sort order: by
    the category of their descriptors, then by engine index. *)
Definition row_before (metadataForService : Mlt.Filter → option QmlMetadata)
    (fs : list Mlt.Filter) (e1 e2 : Z) : Prop :=
  (category (descriptor_at metadataForService fs e1)
   < category (descriptor_at metadataForService fs e2))%nat ∨
  (category (descriptor_at metadataForService fs e1)
   = category (descriptor_at metadataForService fs e2) ∧ e1 < e2).

(** A view that follows the notifications of the model.  It holds its own
    copy of the rows and, between a begin signal and its end signal, the
    change in progress.  A begin signal is taken only when no change is in
    progress and its rows are rows of the view (Qt asserts as much); an end
    signal only closes the begin signal of its kind, and the rows change
    then as the begin signal said: one row inserted in front of [first], row
    [first] removed, or row [sourceRow] moved in front of what was row
    [destinationRow].  The other signals and the log lines leave the rows
    alone. *)
Definition view_step {A} (e : Event) (v v' : list A * option Event) : Prop :=
  match e, v.2 with
  | BeginInsertRows first last, None =>
      first = last ∧ 0 ≤ first ≤ QList.count v.1 ∧ v' = (v.1, Some e)
  | EndInsertRows, Some (BeginInsertRows first _) =>
      ∃ x, v' = (take (Z.to_nat first) v.1 ++ x :: drop (Z.to_nat first) v.1,
                 None)
  | BeginRemoveRows first last, None =>
      first = last ∧ 0 ≤ first < QList.count v.1 ∧ v' = (v.1, Some e)
  | EndRemoveRows, Some (BeginRemoveRows first _) =>
      v' = (delete (Z.to_nat first) v.1, None)
  | BeginMoveRows sourceRow destinationRow, None =>
      0 ≤ sourceRow < QList.count v.1 ∧
      0 ≤ destinationRow ≤ QList.count v.1 ∧
      ¬ (sourceRow ≤ destinationRow ≤ sourceRow + 1) ∧ v' = (v.1, Some e)
  | EndMoveRows, Some (BeginMoveRows sourceRow destinationRow) =>
      ∃ x, v.1 !! Z.to_nat sourceRow = Some x ∧
           v' = (moved_row v.1 (Z.to_nat sourceRow)
                   (Z.to_nat (post_move_row sourceRow destinationRow)) x,
                 None)
  | BeginResetModel, None => v' = (v.1, Some e)
  | EndResetModel, Some BeginResetModel => ∃ l, v' = (l, None)
  | Pause, _ | Changed, _ | ReadyChanged, _ | DataChanged _ _, _
  | Warning _, _ => v' = v
  | _, _ => False
  end.

Fixpoint view_run {A} (es : list Event) (v v' : list A * option Event) : Prop :=
  match es with
  | [] => v' = v
  | e :: es => ∃ v1, view_step e v v1 ∧ view_run es v1 v'
  end.


(** ** Sample states *)

Module Sample.

Definition filter_of (h : nat) (service : string) : Mlt.Filter :=
  Mlt.mkFilter h service 0 0 None.
Definition meta_of (service : string) (gpu audio : bool) : QmlMetadata :=
  mkMeta service service EmptyString gpu audio.

Definition fA := filter_of 1 "A".
Definition fB := filter_of 2 "B".
Definition fC := filter_of 3 "C".
Definition fNew := filter_of 4 "gpu".
Definition fLoader := Mlt.mkFilter 5 "loader" 0 1 None.
Definition mA := meta_of "A" false false.
Definition mB := meta_of "B" false false.
Definition mC := meta_of "C" false false.
Definition mGpu := meta_of "gpu" true false.

(** The list [A (engine 0), B (engine 1), C (engine 2)]. *)
Definition ABC : State :=
  mkState (Some (Mlt.mkProducer (Some [fA; fB; fC])))
    [Some mA; Some mB; Some mC] [0; 1; 2] (-1) [].

(** The same after row 0 went to row 2. *)
Definition BCA : State :=
  mkState (Some (Mlt.mkProducer (Some [fB; fC; fA])))
    [Some mB; Some mC; Some mA] [0; 1; 2] (-1)
    [BeginMoveRows 0 3; EndMoveRows].


(** A model on a producer with an empty chain. *)
Definition empty : State :=
  mkState (Some (Mlt.mkProducer (Some []))) [] [] (-1) [].

Definition mVideo := meta_of "video" false false.
Definition mAudio := meta_of "audio" false true.
Definition mGpu2 := meta_of "gpu2" true false.

(** Four adds in a row on [empty]: the rows returned, and the lists at the
    end. *)
Definition four_adds : option (list Z * list Z * list (option QmlMetadata)) :=
  '(r1, s1) ← add (Some (filter_of 1 "gpu")) mGpu empty;
  '(r2, s2) ← add (Some (filter_of 2 "video")) mVideo s1;
  '(r3, s3) ← add (Some (filter_of 3 "audio")) mAudio s2;
  '(r4, s4) ← add (Some (filter_of 4 "gpu2")) mGpu2 s3;
  Some ([r1; r2; r3; r4], m_mltIndexMap s4, m_metaList s4).

(** Three rows on a chain whose position 1 holds a loader. *)
Definition with_loader : State :=
  mkState (Some (Mlt.mkProducer (Some [fA; fLoader; fB; fC])))
    [Some mA; Some mB; Some mC] [0; 2; 3] (-1) [].

(** A controller that knows a descriptor for every service: GPU for the
    service "gpu", video for the others. *)
Definition metadataForService (f : Mlt.Filter) : option QmlMetadata :=
  Some (meta_of (Mlt.mlt_service f) (String.eqb (Mlt.mlt_service f) "gpu") false).

End Sample.

(** * Properties *)

(** Case analysis on the integer comparisons of the goal, closing the cases
    the context rules out. *)
Ltac zcmp :=
  repeat match goal with
  | |- context [?a <? ?b] => destruct (Z.ltb_spec a b); try lia
  | |- context [?a <=? ?b] => destruct (Z.leb_spec a b); try lia
  | |- context [?a =? ?b] => destruct (Z.eqb_spec a b); try lia
  end.

(** ** QList *)

Section QList_facts.
Context {A : Type}.
Implicit Types (l : list A) (i : Z).

Lemma in_range_spec i l :
  QList.in_range i l = true ↔ 0 ≤ i ∧ (Z.to_nat i < length l)%nat.
Proof.
  unfold QList.in_range, QList.count.
  rewrite andb_true_iff, Z.leb_le, Z.ltb_lt. lia.
Qed.

Lemma at_lookup l (n : nat) x :
  l !! n = Some x → QList.at_ l (Z.of_nat n) = Some x.
Proof.
  intros H. unfold QList.at_.
  assert (QList.in_range (Z.of_nat n) l = true) as ->.
  { apply in_range_spec. apply lookup_lt_Some in H. lia. }
  by rewrite Nat2Z.id.
Qed.

Lemma at_Some l i x :
  QList.at_ l i = Some x ↔ 0 ≤ i ∧ l !! Z.to_nat i = Some x.
Proof.
  unfold QList.at_. destruct (QList.in_range i l) eqn:E.
  - apply in_range_spec in E. intuition.
  - split; [done|]. intros [H0 H]. apply lookup_lt_Some in H.
    assert (QList.in_range i l = true) by (apply in_range_spec; lia).
    congruence.
Qed.

Lemma at_in_range l i :
  0 ≤ i < QList.count l → ∃ x, QList.at_ l i = Some x.
Proof.
  unfold QList.count. intros H.
  destruct (lookup_lt_is_Some_2 l (Z.to_nat i)) as [x Hx]; [lia|].
  exists x. apply at_Some. split; [lia|done].
Qed.

Lemma at_negative l i : i < 0 → QList.at_ l i = None.
Proof.
  intros H. unfold QList.at_, QList.in_range. by zcmp.
Qed.

Lemma set_at_lookup l (n : nat) x y :
  l !! n = Some x → QList.set_at l (Z.of_nat n) y = Some (<[n := y]> l).
Proof.
  intros H. unfold QList.set_at.
  assert (QList.in_range (Z.of_nat n) l = true) as ->.
  { apply in_range_spec. apply lookup_lt_Some in H. lia. }
  by rewrite Nat2Z.id.
Qed.

Lemma length_removeAt i l :
  length (QList.removeAt i l) =
  if QList.in_range i l then pred (length l) else length l.
Proof.
  unfold QList.removeAt. destruct (QList.in_range i l) eqn:E; [|done].
  apply in_range_spec in E. rewrite length_delete; [lia|].
  apply lookup_lt_is_Some_2. lia.
Qed.

Lemma length_qinsert i x l : length (QList.insert i x l) = S (length l).
Proof.
  unfold QList.insert, QList.count.
  destruct (i <=? 0) eqn:E0; [done|].
  destruct (Z.of_nat (length l) <=? i) eqn:E1.
  - rewrite length_app. simpl. lia.
  - rewrite length_app. simpl. rewrite length_take, length_drop. lia.
Qed.

Lemma length_move (from to : Z) l l' :
  QList.move from to l = Some l' → length l' = length l.
Proof.
  unfold QList.move.
  destruct (QList.in_range from l) eqn:Ef; [|done].
  destruct (QList.in_range to l) eqn:Et; [|done]. simpl.
  apply in_range_spec in Ef.
  destruct (l !! Z.to_nat from) as [x|] eqn:Hx; [|done]. simpl.
  intros [= <-]. rewrite length_qinsert, length_delete by eauto. lia.
Qed.

Lemma move_in_range (from to : Z) l :
  0 ≤ from < QList.count l → 0 ≤ to < QList.count l →
  ∃ x, l !! Z.to_nat from = Some x ∧
       QList.move from to l = Some (QList.insert to x (delete (Z.to_nat from) l)).
Proof.
  unfold QList.count. intros Hf Ht. unfold QList.move.
  assert (QList.in_range from l = true) as -> by (apply in_range_spec; lia).
  assert (QList.in_range to l = true) as -> by (apply in_range_spec; lia).
  destruct (lookup_lt_is_Some_2 l (Z.to_nat from)) as [x Hx]; [lia|].
  exists x. by rewrite Hx.
Qed.

End QList_facts.

(** ** The loops over the index map compute a pointwise map *)

Lemma for_each_index_from body (g : Z → Z) :
  (∀ (n : nat) m v, m !! n = Some v →
     body (Z.of_nat n) m = Some (<[n := g v]> m)) →
  ∀ rest done,
    for_each_index body (length rest) (Z.of_nat (length done)) (done ++ rest)
    = Some (done ++ (g <$> rest)).
Proof.
  intros Hbody rest. induction rest as [|x rest IH]; intros done; simpl.
  - unfold QList.count. rewrite app_nil_r. by zcmp.
  - unfold QList.count. rewrite length_app. simpl. zcmp.
    rewrite (Hbody (length done) _ x) by (by rewrite list_lookup_middle).
    simpl. rewrite insert_app_r_alt, Nat.sub_diag by lia. simpl.
    specialize (IH (done ++ [g x])).
    rewrite length_app, <- !app_assoc in IH. simpl in IH.
    replace (Z.of_nat (length done) + 1) with (Z.of_nat (length done + 1)) by lia.
    exact IH.
Qed.

Lemma for_each_index_fmap body (g : Z → Z) (m : list Z) :
  (∀ (n : nat) m v, m !! n = Some v →
     body (Z.of_nat n) m = Some (<[n := g v]> m)) →
  for_each_index body (length m) 0 m = Some (g <$> m).
Proof.
  intros H. exact (for_each_index_from body g H m []).
Qed.

Lemma add_adjust_loop k (m : list Z) :
  for_each_index (add_adjust k) (length m) 0 m = Some (add_shift k <$> m).
Proof.
  apply for_each_index_fmap. intros n m' v H.
  unfold add_adjust, add_shift. rewrite (at_lookup _ _ _ H). simpl.
  destruct (k <=? v).
  - by eapply set_at_lookup.
  - by rewrite list_insert_id.
Qed.

Lemma remove_adjust_loop k (m : list Z) :
  for_each_index (remove_adjust k) (length m) 0 m = Some (remove_shift k <$> m).
Proof.
  apply for_each_index_fmap. intros n m' v H.
  unfold remove_adjust, remove_shift. rewrite (at_lookup _ _ _ H). simpl.
  destruct (k <? v).
  - by eapply set_at_lookup.
  - by rewrite list_insert_id.
Qed.

Lemma moveRows_adjust_loop src dst (m : list Z) :
  for_each_index (moveRows_adjust src dst) (length m) 0 m
  = Some (moveRows_shift src dst <$> m).
Proof.
  apply for_each_index_fmap. intros n m' v H.
  unfold moveRows_adjust, moveRows_shift. rewrite (at_lookup _ _ _ H). simpl.
  assert (n < length m')%nat as Hn by (by eapply lookup_lt_Some).
  destruct (src <? v).
  - rewrite (set_at_lookup _ _ _ _ H). simpl.
    rewrite (at_lookup _ n (v - 1)) by (by apply list_lookup_insert_eq). simpl.
    destruct (dst <=? v - 1); [|done].
    rewrite (set_at_lookup _ n (v - 1)) by (by apply list_lookup_insert_eq).
    by rewrite list_insert_insert_eq.
  - simpl. rewrite (at_lookup _ _ _ H). simpl.
    destruct (dst <=? v).
    + by eapply set_at_lookup.
    + by rewrite list_insert_id.
Qed.

(** ** The sort policy *)

(** C2.  [sortIsLess(a, b)] holds exactly when the five rules say so: two
    absent descriptors are not less; an absent [a] is less than [b] iff [b]
    needs the GPU; [a] is less than an absent [b] iff [a] is audio; for two
    present descriptors [a] is less iff [b] needs the GPU and [a] does not,
    or else [a] is audio and [b] is not. *)
Theorem sortIsLess_matches_rules (a b : option QmlMetadata) :
  sortIsLess a b = true ↔ sortIsLess_rules a b.
Proof.
  destruct a as [[na sa oa ga aa]|], b as [[nb sb ob gb ab]|]; simpl.
  - destruct ga, gb, aa, ab; simpl; split; intros H; try done;
      try (left; done); try (right; split; [intros [? ?]|]; done);
      destruct H as [[? ?]|[? [? ?]]]; done.
  - by destruct aa.
  - by destruct gb.
  - split; [done|tauto].
Qed.


(** ** The scan of [add] *)

Lemma add_scan_prefix metaList meta (n fuel : nat) :
  (n ≤ length metaList)%nat → (n ≤ fuel)%nat →
  ∃ pos, add_scan metaList meta fuel (Z.of_nat n - 1) = Some pos ∧
         insert_position (take n metaList) meta pos.
Proof.
  revert fuel. induction n as [|n IH]; intros fuel Hn Hf.
  - exists 0. split.
    + by destruct fuel.
    + left. split; [done|]. intros i m. by rewrite take_0.
  - destruct fuel as [|fuel]; [lia|]. simpl.
    replace (Z.of_nat (S n) - 1) with (Z.of_nat n) by lia.
    assert ((0 <=? Z.of_nat n) = true) as -> by (apply Z.leb_le; lia).
    destruct (lookup_lt_is_Some_2 metaList n) as [prev Hprev]; [lia|].
    rewrite (at_lookup _ _ _ Hprev). simpl.
    rewrite (take_S_r _ _ _ Hprev).
    assert (length (take n metaList) = n) as Hlen by (rewrite length_take; lia).
    destruct (sortIsLess prev meta) eqn:Hless; simpl.
    + destruct (IH fuel) as (pos & Hpos & Hspec); [lia..|].
      exists pos. split; [done|].
      destruct Hspec as [[-> Hall]|(i & m & -> & Hi & Hm & Hafter)].
      * left. split; [done|]. intros i m Him.
        apply lookup_app_Some in Him as [Him|[_ Him]]; [by eapply Hall|].
        apply list_lookup_singleton_Some in Him as [_ <-]. done.
      * right. exists i, m. split_and!; [done| |done|].
        { by apply lookup_app_l_Some. }
        intros j m' Hij Hj.
        apply lookup_app_Some in Hj as [Hj|[_ Hj]]; [by eapply Hafter|].
        apply list_lookup_singleton_Some in Hj as [_ <-]. done.
    + exists (Z.of_nat n + 1). split; [done|].
      right. exists n, prev. split_and!; [done| |done|].
      { rewrite lookup_app_r by lia. by rewrite Hlen, Nat.sub_diag. }
      intros j m' Hj Hm'. apply lookup_lt_Some in Hm'.
      rewrite length_app, Hlen in Hm'. simpl in Hm'. lia.
Qed.

Lemma add_scan_spec metaList meta :
  ∃ pos, add_scan metaList meta (length metaList) (QList.count metaList - 1)
         = Some pos ∧
         insert_position metaList meta pos ∧ 0 ≤ pos ≤ QList.count metaList.
Proof.
  destruct (add_scan_prefix metaList meta (length metaList) (length metaList))
    as (pos & Hpos & Hspec); [lia..|].
  rewrite firstn_all in Hspec. exists pos. split_and!; [done|done|..].
  - destruct Hspec as [[-> _]|(i & m & -> & _)]; lia.
  - unfold QList.count.
    destruct Hspec as [[-> _]|(i & m & -> & Hi & _)]; [lia|].
    apply lookup_lt_Some in Hi. lia.
Qed.


(** ** What a completed call has done *)

Lemma add_Some filter meta s r s' :
  add (Some filter) meta s = Some (r, s') →
  ∃ mltIndex p,
    add_scan (m_metaList s) (Some meta) (length (m_metaList s))
      (QList.count (m_metaList s) - 1) = Some r ∧
    add_mltIndex (m_mltIndexMap s) r = Some mltIndex ∧
    m_producer s = Some p ∧
    m_producer s' =
      Some (Mlt.move_filter (Mlt.attach p (tag_filter meta filter))
              (Mlt.filter_count (Mlt.attach p (tag_filter meta filter)) - 1)
              mltIndex) ∧
    m_mltIndexMap s' =
      QList.insert r mltIndex (add_shift mltIndex <$> m_mltIndexMap s) ∧
    m_metaList s' = QList.insert r (Some meta) (m_metaList s) ∧
    m_dropRow s' = m_dropRow s ∧
    trace s' = trace s ++ [BeginInsertRows r r; Pause; EndInsertRows; Changed].
Proof.
  unfold add.
  destruct (add_scan _ _ _ _) as [insertIndex|] eqn:Hscan; [simpl|done].
  destruct (add_mltIndex _ _) as [mltIndex|] eqn:Hmlt; [simpl|done].
  destruct (m_producer s) as [p|] eqn:Hp; [simpl|done].
  rewrite add_adjust_loop. simpl. intros [= <- <-]. simpl.
  exists mltIndex, p. split_and!; try done.
  by rewrite <- !app_assoc.
Qed.

Lemma remove_Some row s s' :
  remove row s = Some s' →
  (QList.count (m_metaList s) ≤ row ∧
   s' = emit (Warning (InvalidIndex row)) s) ∨
  (row < QList.count (m_metaList s) ∧
   ∃ mltIndex p filter,
     QList.at_ (m_mltIndexMap s) row = Some mltIndex ∧
     m_producer s = Some p ∧
     Mlt.filter p mltIndex = Some filter ∧
     m_producer s' = Some (Mlt.detach p filter) ∧
     m_mltIndexMap s' =
       remove_shift mltIndex <$> QList.removeAt row (m_mltIndexMap s) ∧
     m_metaList s' = QList.removeAt row (m_metaList s) ∧
     m_dropRow s' = m_dropRow s ∧
     trace s' = trace s ++ [BeginRemoveRows row row; EndRemoveRows; Changed]).
Proof.
  unfold remove. destruct (Z.leb_spec (QList.count (m_metaList s)) row).
  { intros [= <-]. by left. }
  simpl. destruct (QList.at_ _ _) as [mltIndex|] eqn:Hat; [simpl|done].
  destruct (m_producer s) as [p|] eqn:Hp; [simpl|done].
  destruct (Mlt.filter p mltIndex) as [filter|] eqn:Hf; [simpl|done].
  rewrite remove_adjust_loop. simpl. intros [= <-]. right.
  split; [done|]. exists mltIndex, p, filter. simpl.
  split_and!; try done. by rewrite <- !app_assoc.
Qed.

Lemma moveRows_Some sourceParent sourceRow count destinationParent
    destinationRow s result s' :
  moveRows sourceParent sourceRow count destinationParent destinationRow s
  = Some (result, s') →
  (result = false ∧ s' = s) ∨
  (result = true ∧
   ∃ p mltSrcIndex mltDstIndex metaList,
     valid_producer s = Some p ∧ count = 1 ∧
     0 ≤ sourceRow ∧ 0 ≤ destinationRow ∧
     beginMoveRows sourceRow sourceRow destinationRow = true ∧
     QList.at_ (m_mltIndexMap s) sourceRow = Some mltSrcIndex ∧
     QList.at_ (m_mltIndexMap s) (post_move_row sourceRow destinationRow)
       = Some mltDstIndex ∧
     QList.move sourceRow (post_move_row sourceRow destinationRow) (m_metaList s)
       = Some metaList ∧
     m_producer s' = Some (Mlt.move_filter p mltSrcIndex mltDstIndex) ∧
     m_mltIndexMap s' =
       QList.insert (post_move_row sourceRow destinationRow) mltDstIndex
         (moveRows_shift mltSrcIndex mltDstIndex <$>
            QList.removeAt sourceRow (m_mltIndexMap s)) ∧
     m_metaList s' = metaList ∧
     m_dropRow s' = m_dropRow s ∧
     trace s' = trace s ++ [BeginMoveRows sourceRow destinationRow; EndMoveRows]).
Proof.
  unfold moveRows. fold (post_move_row sourceRow destinationRow).
  destruct (valid_producer s) as [p|] eqn:Hp; [|intros [= <- <-]; by left].
  destruct (negb _ || negb (count =? 1)) eqn:Hguard; [intros [= <- <-]; by left|].
  apply orb_false_iff in Hguard as [_ Hcount].
  apply negb_false_iff, Z.eqb_eq in Hcount.
  destruct (isValid _ && isValid _) eqn:Hvalid; [|intros [= <- <-]; by left].
  apply andb_true_iff in Hvalid as [Hfrom Hto].
  unfold isValid, createIndex in Hfrom, Hto. simpl in Hfrom, Hto.
  rewrite !andb_true_r in Hfrom, Hto.
  apply Z.leb_le in Hfrom. apply Z.leb_le in Hto.
  destruct (beginMoveRows _ _ _) eqn:Hbegin; [|intros [= <- <-]; by left].
  simpl.
  destruct (QList.at_ _ sourceRow) as [mltSrcIndex|] eqn:Hsrc; [simpl|done].
  destruct (QList.at_ _ (post_move_row _ _)) as [mltDstIndex|] eqn:Hdst; [simpl|done].
  rewrite moveRows_adjust_loop. simpl.
  destruct (QList.move _ _ _) as [metaList|] eqn:Hmove; [simpl|done].
  intros [= <- <-]. right. split; [done|].
  exists p, mltSrcIndex, mltDstIndex, metaList. simpl.
  split_and!; try done. by rewrite <- !app_assoc.
Qed.

(** ** The two lists keep one length *)

Lemma moveRows_lengths_agree sourceParent sourceRow count destinationParent
    destinationRow s result s' :
  lengths_agree s →
  moveRows sourceParent sourceRow count destinationParent destinationRow s
  = Some (result, s') →
  lengths_agree s'.
Proof.
  unfold lengths_agree. intros Hs H.
  apply moveRows_Some in H
    as [[_ ->]|[_ (p & src & dst & metaList & _ & _ & _ & _ & _ & Hsrc & _
                    & Hmove & _ & -> & -> & _)]]; [done|].
  apply length_move in Hmove. rewrite Hmove, length_qinsert, length_fmap.
  rewrite length_removeAt.
  apply at_Some in Hsrc as [H0 Hsrc]. apply lookup_lt_Some in Hsrc.
  assert (QList.in_range sourceRow (m_mltIndexMap s) = true) as ->
    by (apply in_range_spec; lia).
  lia.
Qed.

Lemma in_range_same_length {A B} (l : list A) (k : list B) i :
  length l = length k → QList.in_range i l = QList.in_range i k.
Proof. unfold QList.in_range, QList.count. by intros ->. Qed.

Lemma add_lengths_agree filter meta s r s' :
  lengths_agree s → add filter meta s = Some (r, s') → lengths_agree s'.
Proof.
  intros Hs. destruct filter as [filter|]; [|by intros [= _ <-]].
  intros (mltIndex & p & _ & _ & _ & _ & Hmap & Hmeta & _)%add_Some.
  unfold lengths_agree in *.
  by rewrite Hmap, Hmeta, !length_qinsert, length_fmap, Hs.
Qed.

Lemma remove_lengths_agree row s s' :
  lengths_agree s → remove row s = Some s' → lengths_agree s'.
Proof.
  intros Hs H. apply remove_Some in H
    as [[_ ->]|[_ (i & p & f & _ & _ & _ & _ & Hmap & Hmeta & _)]]; [done|].
  unfold lengths_agree in *.
  rewrite Hmap, Hmeta, length_fmap, !length_removeAt.
  by rewrite (in_range_same_length _ _ _ Hs), Hs.
Qed.

Lemma move_lengths_agree fromRow toRow s result s' :
  lengths_agree s → move fromRow toRow s = Some (result, s') → lengths_agree s'.
Proof.
  intros Hs. unfold move. destruct ((fromRow <? 0) || (toRow <? 0)).
  - by intros [= _ <-].
  - by apply moveRows_lengths_agree.
Qed.

Lemma removeRows_lengths_agree row count parent s result s' :
  lengths_agree s → removeRows row count parent s = Some (result, s') →
  lengths_agree s'.
Proof.
  intros Hs. unfold removeRows.
  destruct (valid_producer s); [|by intros [= _ <-]].
  destruct ((0 <=? m_dropRow s) && negb (row =? m_dropRow s)); [|by intros [= _ <-]].
  destruct (moveRows _ _ _ _ _ _) as [[r s1]|] eqn:H; [simpl|done].
  intros [= _ <-]. by eapply (moveRows_lengths_agree _ _ _ _ _ s r s1).
Qed.

(** C1.  From a state in which the descriptor list and the index map have
    one length, every add, remove or move that returns leaves them with one
    length. *)
Theorem lengths_agree_preserved (op : Operation) (s s' : State) :
  lengths_agree s → run op s = Some s' → lengths_agree s'.
Proof.
  intros Hs.
  destruct op as [filter meta|row|fromRow toRow|sp sr c dp dr|row c parent];
    unfold run.
  - destruct (add filter meta s) as [[r s1]|] eqn:H; [simpl|done].
    intros [= <-]. by eapply add_lengths_agree.
  - by apply remove_lengths_agree.
  - destruct (move fromRow toRow s) as [[r s1]|] eqn:H; [simpl|done].
    intros [= <-]. by eapply move_lengths_agree.
  - destruct (moveRows sp sr c dp dr s) as [[r s1]|] eqn:H; [simpl|done].
    intros [= <-]. by eapply moveRows_lengths_agree.
  - destruct (removeRows row c parent s) as [[r s1]|] eqn:H; [simpl|done].
    intros [= <-]. by eapply removeRows_lengths_agree.
Qed.

Lemma lengths_agree_preserved_witness :
  lengths_agree Sample.ABC ∧
  ∃ s', run (Add (Some Sample.fNew) Sample.mGpu) Sample.ABC = Some s' ∧
        lengths_agree s'.
Proof.
  split; [reflexivity|].
  eexists. split; [reflexivity|].
  apply (lengths_agree_preserved (Add (Some Sample.fNew) Sample.mGpu) Sample.ABC);
    reflexivity.
Defined.

(** ** Where [add] puts a filter *)

Lemma qinsert_in_range {A} (l : list A) i x :
  0 ≤ i ≤ QList.count l →
  QList.insert i x l = take (Z.to_nat i) l ++ x :: drop (Z.to_nat i) l.
Proof.
  unfold QList.insert, QList.count. intros H. zcmp.
  - by replace i with 0 by lia.
  - replace (Z.to_nat i) with (length l) by lia.
    by rewrite firstn_all, drop_all.
  - done.
Qed.

Lemma lookup_qinsert {A} (l : list A) i x :
  0 ≤ i ≤ QList.count l → QList.insert i x l !! Z.to_nat i = Some x.
Proof.
  intros H. rewrite qinsert_in_range by done. unfold QList.count in H.
  rewrite lookup_app_r; rewrite length_take; [|lia].
  by replace (Z.to_nat i - Z.to_nat i `min` length l)%nat with 0%nat by lia.
Qed.

Lemma add_mltIndex_spec (map : list Z) insertIndex :
  0 ≤ insertIndex ≤ QList.count map →
  ∃ mltIndex, add_mltIndex map insertIndex = Some mltIndex ∧
              target_engine_index map insertIndex mltIndex.
Proof.
  intros H. unfold add_mltIndex, target_engine_index.
  destruct (Z.eqb_spec (QList.count map) 0) as [H0|H0].
  { exists 0. unfold QList.count in *. destruct map; [|simpl in H0; lia].
    split; [done|by left]. }
  assert (map ≠ []) by (intros ->; by apply H0).
  destruct (Z.eqb_spec insertIndex 0) as [->|Hi].
  - destruct (at_in_range map 0) as [v Hv]; [lia|].
    exists v. split; [done|]. right; left.
    apply at_Some in Hv as [_ Hv]. done.
  - destruct (at_in_range map (insertIndex - 1)) as [v Hv]; [lia|].
    rewrite Hv. simpl. exists (v + 1). split; [done|]. right; right.
    apply at_Some in Hv as [_ Hv]. eauto.
Qed.

(** [add] returns whenever the model has a producer and its two lists have
    one length. *)
Lemma add_completes filter meta s p :
  m_producer s = Some p → lengths_agree s →
  ∃ insertIndex mltIndex s',
    add (Some filter) meta s = Some (insertIndex, s') ∧
    insert_position (m_metaList s) (Some meta) insertIndex ∧
    0 ≤ insertIndex ≤ QList.count (m_metaList s) ∧
    add_mltIndex (m_mltIndexMap s) insertIndex = Some mltIndex ∧
    target_engine_index (m_mltIndexMap s) insertIndex mltIndex.
Proof.
  intros Hp Hlen.
  destruct (add_scan_spec (m_metaList s) (Some meta)) as (pos & Hscan & Hpos & Hr).
  destruct (add_mltIndex_spec (m_mltIndexMap s) pos) as (mltIndex & Hmlt & Htarget).
  { unfold QList.count, lengths_agree in *. lia. }
  unfold add. rewrite Hscan. simpl. rewrite Hmlt. simpl. rewrite Hp. simpl.
  rewrite add_adjust_loop. simpl. eauto 10.
Qed.

(** C3.  With a filter that constructs, [add] inserts the descriptor one
    past the last entry that is not [sortIsLess] than it (row 0 when there is
    none), gives it engine index 0 when the map is empty, the engine index of
    row 0 when it inserts at row 0, and otherwise the engine index of the row
    before plus 1, and returns the row; with a filter that does not
    construct it returns -1 and changes neither list. *)
Theorem add_inserts_at_sorted_position
    (filter : Mlt.Filter) (meta : QmlMetadata) (s : State) (p : Mlt.Producer) :
  m_producer s = Some p → lengths_agree s →
  (∃ insertIndex mltIndex s',
     add (Some filter) meta s = Some (insertIndex, s') ∧
     insert_position (m_metaList s) (Some meta) insertIndex ∧
     target_engine_index (m_mltIndexMap s) insertIndex mltIndex ∧
     m_metaList s' = QList.insert insertIndex (Some meta) (m_metaList s) ∧
     m_metaList s' !! Z.to_nat insertIndex = Some (Some meta) ∧
     m_mltIndexMap s' =
       QList.insert insertIndex mltIndex (add_shift mltIndex <$> m_mltIndexMap s) ∧
     m_mltIndexMap s' !! Z.to_nat insertIndex = Some mltIndex) ∧
  (∃ s', add None meta s = Some (-1, s') ∧
         m_metaList s' = m_metaList s ∧ m_mltIndexMap s' = m_mltIndexMap s ∧
         m_producer s' = m_producer s).
Proof.
  intros Hp Hlen. split.
  - destruct (add_completes filter meta s p Hp Hlen)
      as (insertIndex & mltIndex & s' & Hadd & Hpos & Hr & Hmlt & Htarget).
    exists insertIndex, mltIndex, s'.
    destruct (add_Some _ _ _ _ _ Hadd)
      as (mltIndex' & p' & _ & Hmlt' & _ & _ & Hmap & Hmeta & _).
    assert (mltIndex' = mltIndex) as -> by congruence.
    split_and!; try done.
    + rewrite Hmeta. by apply lookup_qinsert.
    + rewrite Hmap. apply lookup_qinsert.
      unfold QList.count, lengths_agree in *. rewrite length_fmap. lia.
  - by eexists.
Qed.

Lemma add_inserts_at_sorted_position_witness :
  ∃ s' mltIndex,
    add (Some Sample.fNew) Sample.mGpu Sample.ABC = Some (0, s') ∧
    insert_position (m_metaList Sample.ABC) (Some Sample.mGpu) 0 ∧
    target_engine_index (m_mltIndexMap Sample.ABC) 0 mltIndex ∧
    m_metaList s' !! 0%nat = Some (Some Sample.mGpu) ∧
    m_mltIndexMap s' !! 0%nat = Some mltIndex ∧
    ∃ s'', add None Sample.mGpu Sample.ABC = Some (-1, s'').
Proof.
  destruct (add_inserts_at_sorted_position Sample.fNew Sample.mGpu Sample.ABC
              (Mlt.mkProducer (Some [Sample.fA; Sample.fB; Sample.fC]))
              eq_refl eq_refl)
    as [(insertIndex & mltIndex & s' & Hadd & Hpos & Htarget & _ & Hmeta & _ & Hmap)
        (s'' & Hfail & _)].
  assert (insertIndex = 0) as ->
    by (pose proof Hadd as H; vm_compute in H; by injection H as <- _).
  exists s', mltIndex.
  split_and!; [exact Hadd|exact Hpos|exact Htarget|exact Hmeta|exact Hmap|].
  exists s''. exact Hfail.
Defined.

(** ** Moving a row *)

Lemma index_eqb_refl i : index_eqb i i = true.
Proof.
  unfold index_eqb. rewrite !Z.eqb_refl. by destruct (model i).
Qed.

Lemma removeAt_in_range {A} (l : list A) i :
  0 ≤ i < QList.count l → QList.removeAt i l = delete (Z.to_nat i) l.
Proof.
  intros H. unfold QList.removeAt. unfold QList.count in H.
  by assert (QList.in_range i l = true) as -> by (apply in_range_spec; lia).
Qed.

Lemma moveRows_completes parent sourceRow destinationRow s p :
  valid_producer s = Some p → lengths_agree s →
  beginMoveRows sourceRow sourceRow destinationRow = true →
  0 ≤ sourceRow < QList.count (m_metaList s) →
  0 ≤ destinationRow →
  post_move_row sourceRow destinationRow < QList.count (m_metaList s) →
  ∃ mltSrcIndex mltDstIndex meta s',
    m_mltIndexMap s !! Z.to_nat sourceRow = Some mltSrcIndex ∧
    m_mltIndexMap s !! Z.to_nat (post_move_row sourceRow destinationRow)
      = Some mltDstIndex ∧
    m_metaList s !! Z.to_nat sourceRow = Some meta ∧
    moveRows parent sourceRow 1 parent destinationRow s = Some (true, s') ∧
    m_producer s' = Some (Mlt.move_filter p mltSrcIndex mltDstIndex) ∧
    m_mltIndexMap s' =
      recomputed_map (m_mltIndexMap s) (Z.to_nat sourceRow)
        (Z.to_nat (post_move_row sourceRow destinationRow))
        mltSrcIndex mltDstIndex ∧
    m_metaList s' =
      moved_row (m_metaList s) (Z.to_nat sourceRow)
        (Z.to_nat (post_move_row sourceRow destinationRow)) meta ∧
    m_dropRow s' = m_dropRow s.
Proof.
  intros Hp Hlen Hbegin Hsrc Hdst Hpost.
  assert (0 ≤ post_move_row sourceRow destinationRow)
    by (unfold post_move_row; zcmp).
  unfold lengths_agree, QList.count in *.
  destruct (at_in_range (m_mltIndexMap s) sourceRow) as [mltSrc HmltSrc];
    [unfold QList.count; lia|].
  destruct (at_in_range (m_mltIndexMap s) (post_move_row sourceRow destinationRow))
    as [mltDst HmltDst]; [unfold QList.count; lia|].
  destruct (move_in_range sourceRow (post_move_row sourceRow destinationRow)
              (m_metaList s)) as (meta & Hmeta & Hmove);
    [unfold QList.count; lia..|].
  exists mltSrc, mltDst, meta. eexists.
  split_and!; [by apply at_Some in HmltSrc as [_ ?]
              |by apply at_Some in HmltDst as [_ ?]|done|..].
  - unfold moveRows. fold (post_move_row sourceRow destinationRow).
    rewrite Hp, index_eqb_refl. simpl.
    unfold isValid, createIndex. simpl.
    assert ((0 <=? sourceRow) = true) as -> by (apply Z.leb_le; lia).
    assert ((0 <=? destinationRow) = true) as -> by (apply Z.leb_le; lia).
    simpl. rewrite Hbegin. simpl. rewrite HmltSrc. simpl. rewrite HmltDst. simpl.
    rewrite moveRows_adjust_loop. simpl. rewrite Hmove. simpl. reflexivity.
  - done.
  - simpl. unfold recomputed_map.
    rewrite removeAt_in_range by (unfold QList.count; lia).
    rewrite qinsert_in_range.
    + by rewrite <- list_fmap_compose.
    + unfold QList.count. rewrite length_fmap, length_delete; [lia|].
      apply lookup_lt_is_Some_2. lia.
  - simpl. unfold moved_row. apply qinsert_in_range.
    unfold QList.count. rewrite length_delete; [lia|].
    apply lookup_lt_is_Some_2. lia.
  - done.
Qed.

Lemma lookup_moved_row {A} (l : list A) (sourceRow destinationRow : nat) x :
  (sourceRow < length l)%nat → (destinationRow < length l)%nat →
  moved_row l sourceRow destinationRow x !! destinationRow = Some x.
Proof.
  intros Hs Hd. unfold moved_row.
  assert (length (delete sourceRow l) = pred (length l)) as Hlen.
  { rewrite length_delete; [lia|]. by apply lookup_lt_is_Some_2. }
  rewrite lookup_app_r; rewrite length_take, Hlen; [|lia].
  by replace (destinationRow - destinationRow `min` pred (length l))%nat
    with 0%nat by lia.
Qed.

(** C4.  A single-row move that the framework accepts, between rows of the
    list, moves the engine filter and leaves the index map recomputed as the
    design document says ([recomputed_map]), with the destination engine
    index at the destination row, and the descriptor moved from the source
    row to the destination row.  On [A (engine 0), B (engine 1),
    C (engine 2)], moving row 0 to row 2 gives the order [B, C, A], in the
    list and in the engine, with engine indices 0, 1, 2. *)
Theorem moveRows_recomputes_map :
  (∀ parent sourceRow destinationRow s p,
     valid_producer s = Some p → lengths_agree s →
     beginMoveRows sourceRow sourceRow destinationRow = true →
     0 ≤ sourceRow < QList.count (m_metaList s) →
     0 ≤ destinationRow →
     post_move_row sourceRow destinationRow < QList.count (m_metaList s) →
     ∃ mltSrcIndex mltDstIndex meta s',
       m_mltIndexMap s !! Z.to_nat sourceRow = Some mltSrcIndex ∧
       m_mltIndexMap s !! Z.to_nat (post_move_row sourceRow destinationRow)
         = Some mltDstIndex ∧
       m_metaList s !! Z.to_nat sourceRow = Some meta ∧
       moveRows parent sourceRow 1 parent destinationRow s = Some (true, s') ∧
       m_producer s' = Some (Mlt.move_filter p mltSrcIndex mltDstIndex) ∧
       m_mltIndexMap s' =
         recomputed_map (m_mltIndexMap s) (Z.to_nat sourceRow)
           (Z.to_nat (post_move_row sourceRow destinationRow))
           mltSrcIndex mltDstIndex ∧
       m_mltIndexMap s' !! Z.to_nat (post_move_row sourceRow destinationRow)
         = Some mltDstIndex ∧
       m_metaList s' =
         moved_row (m_metaList s) (Z.to_nat sourceRow)
           (Z.to_nat (post_move_row sourceRow destinationRow)) meta ∧
       m_metaList s' !! Z.to_nat (post_move_row sourceRow destinationRow)
         = Some meta) ∧
  move 0 2 Sample.ABC = Some (true, Sample.BCA).
Proof.
  split; [|reflexivity].
  intros parent sourceRow destinationRow s p Hp Hlen Hbegin Hsrc Hdst Hpost.
  destruct (moveRows_completes parent sourceRow destinationRow s p)
    as (mltSrc & mltDst & meta & s' & HmltSrc & HmltDst & Hmeta & Hmove & Hprod
        & Hmap & Hlist & _); try done.
  exists mltSrc, mltDst, meta, s'.
  assert (0 ≤ post_move_row sourceRow destinationRow)
    by (unfold post_move_row; zcmp).
  unfold lengths_agree, QList.count in *.
  split_and!; try done.
  - rewrite Hmap. unfold recomputed_map.
    assert (length (delete (Z.to_nat sourceRow) (m_mltIndexMap s))
            = pred (length (m_mltIndexMap s))) as Hdel.
    { rewrite length_delete; [lia|]. apply lookup_lt_is_Some_2. lia. }
    rewrite lookup_app_r; rewrite length_take, !length_fmap, Hdel; [|lia].
    match goal with |- (_ :: _) !! ?n = _ => replace n with 0%nat by lia end.
    done.
  - rewrite Hlist. apply lookup_moved_row; lia.
Qed.

(** The accepted move of the sample list, as an instance of the theorem. *)
Lemma moveRows_recomputes_map_witness :
  ∃ s', moveRows noIndex 0 1 noIndex 3 Sample.ABC = Some (true, s') ∧
        m_mltIndexMap s' = recomputed_map [0; 1; 2] 0 2 0 2 ∧
        m_metaList s' =
          moved_row [Some Sample.mA; Some Sample.mB; Some Sample.mC] 0 2
            (Some Sample.mA).
Proof.
  destruct (proj1 moveRows_recomputes_map noIndex 0 3 Sample.ABC
              (Mlt.mkProducer (Some [Sample.fA; Sample.fB; Sample.fC])))
    as (mltSrc & mltDst & meta & s' & HmltSrc & HmltDst & Hmeta & Hmove & _
        & Hmap & _ & Hlist & _);
    [reflexivity|reflexivity|reflexivity|vm_compute; split; [discriminate|reflexivity]
    |lia|reflexivity|].
  exists s'. vm_compute in HmltSrc, HmltDst, Hmeta.
  injection HmltSrc as <-. injection HmltDst as <-. injection Hmeta as <-.
  split_and!; [exact Hmove|exact Hmap|exact Hlist].
Defined.

(** ** Adding, then removing the row that was added *)

Lemma handle_tag_filter meta f : Mlt.handle (tag_filter meta f) = Mlt.handle f.
Proof. unfold tag_filter. by destruct (negb _). Qed.

Lemma remove_handle_middle h (l1 l2 : list Mlt.Filter) f :
  Forall (λ g, Mlt.handle g ≠ h) l1 → Mlt.handle f = h →
  Mlt.remove_handle h (l1 ++ f :: l2) = l1 ++ l2.
Proof.
  intros Hl1 Hf. induction Hl1 as [|g l1 Hg _ IH]; simpl.
  - by rewrite (proj2 (Nat.eqb_eq _ _) Hf).
  - rewrite (proj2 (Nat.eqb_neq _ _) Hg). by rewrite IH.
Qed.

(** Attaching a fresh filter and moving it from the end to position [k]
    puts it at [k]; detaching it gives the chain back. *)
Lemma attach_move_detach fs f (k : Z) :
  Forall (λ g, Mlt.handle g ≠ Mlt.handle f) fs →
  0 ≤ k ≤ Z.of_nat (length fs) →
  let p := Mlt.mkProducer (Some fs) in
  let p1 := Mlt.move_filter (Mlt.attach p f)
              (Mlt.filter_count (Mlt.attach p f) - 1) k in
  Mlt.filter p1 k = Some f ∧ Mlt.detach p1 f = p ∧
  Mlt.instance p1 = Some (take (Z.to_nat k) fs ++ f :: drop (Z.to_nat k) fs).
Proof.
  intros Hfresh Hk. simpl.
  unfold Mlt.move_filter, Mlt.attach, Mlt.filter_count, Mlt.clamp. simpl.
  rewrite length_app. simpl.
  assert (Forall (λ g, Mlt.handle g ≠ Mlt.handle f) (take (Z.to_nat k) fs))
    as Htake by (by apply Forall_take).
  assert (take (Z.to_nat k) fs ++ drop (Z.to_nat k) fs = fs) as Hfs
    by apply take_drop.
  assert (length (take (Z.to_nat k) fs) = Z.to_nat k) as Hlen
    by (rewrite length_take; lia).
  assert (∀ q, Mlt.instance q = Some (take (Z.to_nat k) fs ++ f :: drop (Z.to_nat k) fs) →
    Mlt.filter q k = Some f ∧ Mlt.detach q f = Mlt.mkProducer (Some fs) ∧
    Mlt.instance q = Some (take (Z.to_nat k) fs ++ f :: drop (Z.to_nat k) fs)) as Hq.
  { intros q Hinst. unfold Mlt.filter, Mlt.detach. rewrite Hinst.
    rewrite length_app. simpl. rewrite length_drop, Hlen.
    split_and!; [|by rewrite remove_handle_middle, Hfs|done].
    assert ((0 <=? k) && (k <? Z.of_nat (Z.to_nat k + S (length fs - Z.to_nat k)))
            = true) as -> by (apply andb_true_iff; split; zcmp).
    rewrite lookup_app_r by lia. by rewrite Hlen, Nat.sub_diag. }
  assert (Z.of_nat (length fs + 1) - 1 = Z.of_nat (length fs)) as -> by lia.
  destruct (Z.eq_dec k (Z.of_nat (length fs))) as [->|Hne].
  - (* the filter is at its place already *)
    assert (∀ q, q = Mlt.mkProducer (Some (fs ++ [f])) →
      Mlt.filter q (Z.of_nat (length fs)) = Some f ∧
      Mlt.detach q f = Mlt.mkProducer (Some fs) ∧
      Mlt.instance q = Some (take (Z.to_nat (Z.of_nat (length fs))) fs ++
                             f :: drop (Z.to_nat (Z.of_nat (length fs))) fs)).
    { intros q ->. apply Hq. simpl. by rewrite Nat2Z.id, firstn_all, drop_all. }
    zcmp; simpl; auto.
  - zcmp. simpl. rewrite Nat2Z.id, list_lookup_middle by done.
    apply Hq. simpl. rewrite delete_middle. by rewrite app_nil_r.
Qed.

Lemma move_filter_instance p (from to : Z) fs' :
  Mlt.instance (Mlt.move_filter p from to) = Some fs' →
  ∃ fs, Mlt.instance p = Some fs ∧ length fs' = length fs.
Proof.
  unfold Mlt.move_filter. destruct (Mlt.instance p) as [fs|] eqn:Hp.
  - destruct (negb _ && _); [|rewrite Hp; intros [= <-]; eauto].
    destruct (fs !! _) as [f|] eqn:Hf; [|rewrite Hp; intros [= <-]; eauto].
    simpl. intros [= <-]. exists fs. split; [done|].
    rewrite length_app. simpl. rewrite length_take, length_drop.
    rewrite length_delete by eauto. apply lookup_lt_Some in Hf. lia.
  - by rewrite Hp.
Qed.

Lemma at_qinsert_same {A} (l : list A) i x y :
  QList.at_ (QList.insert i x l) i = Some y →
  y = x ∧ 0 ≤ i ≤ QList.count l.
Proof.
  intros H. apply at_Some in H as [H0 H].
  assert (i ≤ QList.count l) as Hi.
  { apply lookup_lt_Some in H. rewrite length_qinsert in H.
    unfold QList.count. lia. }
  rewrite lookup_qinsert in H by lia. split; [congruence|lia].
Qed.

Lemma removeAt_qinsert {A} (l : list A) i x :
  0 ≤ i ≤ QList.count l → QList.removeAt i (QList.insert i x l) = l.
Proof.
  intros H. rewrite removeAt_in_range.
  - rewrite qinsert_in_range by done. unfold QList.count in H.
    assert (length (take (Z.to_nat i) l) = Z.to_nat i) as Hlen
      by (rewrite length_take; lia).
    rewrite <- Hlen at 1. rewrite delete_middle. apply take_drop.
  - unfold QList.count in *. rewrite length_qinsert. lia.
Qed.

Lemma remove_shift_add_shift k (m : list Z) :
  remove_shift k <$> (add_shift k <$> m) = m.
Proof.
  rewrite <- list_fmap_compose. rewrite <- (list_fmap_id m) at 2.
  apply list_fmap_ext. intros _ v _. simpl.
  unfold remove_shift, add_shift. zcmp.
Qed.

Lemma target_engine_index_in_chain (map : list Z) (n : Z) insertIndex mltIndex :
  Forall (λ e, 0 ≤ e < n) map → 0 ≤ n →
  target_engine_index map insertIndex mltIndex → 0 ≤ mltIndex ≤ n.
Proof.
  intros Hall Hn [[_ ->]|[(_ & _ & H)|(_ & _ & v & H & ->)]]; [lia|..];
    eapply Forall_lookup_1 in H; eauto; simpl in H; lia.
Qed.

(** X25.  For a filter that is not attached yet: whenever [add] and then
    [remove] of the row it returned both return, the engine chain is as it
    was before the add, the same number of filters in the same order, and
    the model's two lists with it.  The two calls do return when the model
    has a valid producer, its lists have one length and the entries of the
    index map are positions of the chain. *)
Theorem add_then_remove_restores
    (filter : Mlt.Filter) (meta : QmlMetadata) (s : State) :
  fresh filter s →
  (∀ r s1 s2,
     add (Some filter) meta s = Some (r, s1) → remove r s1 = Some s2 →
     chain s2 = chain s ∧
     Z.of_nat (length (chain s2)) = Z.of_nat (length (chain s)) ∧
     m_producer s2 = m_producer s ∧
     m_metaList s2 = m_metaList s ∧ m_mltIndexMap s2 = m_mltIndexMap s) ∧
  (is_Some (valid_producer s) → lengths_agree s → map_in_chain s →
   ∃ r s1 s2,
     add (Some filter) meta s = Some (r, s1) ∧ remove r s1 = Some s2 ∧
     length (chain s1) = S (length (chain s))).
Proof.
  intros Hfresh. split.
  - intros r s1 s2 Hadd Hrem.
    destruct (add_Some _ _ _ _ _ Hadd)
      as (mltIndex & p & Hscan & Hmlt & Hp & Hp1 & Hmap1 & Hmeta1 & _).
    destruct (add_scan_spec (m_metaList s) (Some meta)) as (r' & Hscan' & _ & Hr).
    assert (r' = r) as -> by congruence.
    apply remove_Some in Hrem
      as [[Hge _]|[_ (k & p1 & f & Hk & Hp1' & Hf & Hp2 & Hmap2 & Hmeta2 & _)]].
    { rewrite Hmeta1 in Hge. unfold QList.count in *.
      rewrite length_qinsert in Hge. lia. }
    rewrite Hmap1 in Hk. apply at_qinsert_same in Hk as [-> Hrmap].
    rewrite Hp1 in Hp1'. injection Hp1' as <-.
    assert (m_producer s2 = m_producer s) as Hprod.
    { rewrite Hp2, Hp. f_equal.
      unfold fresh, chain in Hfresh. rewrite Hp in Hfresh.
      destruct p as [[fs|]]; simpl in Hfresh.
      - assert (0 ≤ mltIndex ≤ Z.of_nat (length fs)) as Hrange.
        { unfold Mlt.filter in Hf.
          destruct (Mlt.instance _) as [fs1|] eqn:Hfs1; [|done].
          apply move_filter_instance in Hfs1 as (fs0 & Hfs0 & Hlen).
          simpl in Hfs0. injection Hfs0 as <-.
          rewrite Hlen, length_app in Hf. simpl in Hf.
          destruct (Z.leb_spec 0 mltIndex); [|done].
          destruct (Z.ltb_spec mltIndex (Z.of_nat (length fs + 1))); [|done].
          lia. }
        destruct (attach_move_detach fs (tag_filter meta filter) mltIndex)
          as (Hat & Hdetach & _); [by rewrite handle_tag_filter|done|].
        simpl in Hat, Hdetach. rewrite Hat in Hf. injection Hf as <-.
        exact Hdetach.
      - done. }
    assert (m_metaList s2 = m_metaList s) as Hmeta.
    { rewrite Hmeta2, Hmeta1. by apply removeAt_qinsert. }
    assert (m_mltIndexMap s2 = m_mltIndexMap s) as Hmap.
    { rewrite Hmap2, Hmap1, removeAt_qinsert by done.
      apply remove_shift_add_shift. }
    unfold chain. rewrite Hprod. done.
  - intros [p Hvalid] Hlen Hmap.
    unfold valid_producer in Hvalid.
    destruct (m_producer s) as [p'|] eqn:Hp; [|done].
    destruct p' as [[fs|]]; [|done]. simpl in Hvalid. injection Hvalid as <-.
    destruct (add_completes filter meta s _ Hp Hlen)
      as (r & mltIndex & s1 & Hadd & _ & Hr & Hmlt & Htarget).
    destruct (add_Some _ _ _ _ _ Hadd)
      as (mltIndex' & p' & _ & Hmlt' & Hp' & Hp1 & Hmap1 & Hmeta1 & _).
    assert (mltIndex' = mltIndex) as -> by congruence.
    rewrite Hp in Hp'. injection Hp' as <-.
    unfold fresh, map_in_chain, chain in *. rewrite Hp in Hfresh, Hmap.
    simpl in Hfresh, Hmap.
    assert (0 ≤ mltIndex ≤ Z.of_nat (length fs)) as Hrange
      by (eapply target_engine_index_in_chain; eauto; lia).
    destruct (attach_move_detach fs (tag_filter meta filter) mltIndex)
      as (Hat & _ & Hinst); [by rewrite handle_tag_filter|done|].
    simpl in Hat, Hinst.
    exists r, s1. unfold remove.
    assert ((QList.count (m_metaList s1) <=? r) = false) as ->.
    { apply Z.leb_gt. rewrite Hmeta1. unfold QList.count in *.
      rewrite length_qinsert. lia. }
    simpl.
    assert (QList.at_ (m_mltIndexMap s1) r = Some mltIndex) as ->.
    { apply at_Some. split; [lia|]. rewrite Hmap1. apply lookup_qinsert.
      unfold QList.count, lengths_agree in *. rewrite length_fmap. lia. }
    simpl. rewrite Hp1. simpl. rewrite Hat. simpl.
    rewrite remove_adjust_loop. simpl. eexists. split_and!; [done|done|].
    rewrite Hp. simpl. rewrite Hinst. simpl.
    rewrite length_app. simpl. rewrite length_take, length_drop. lia.
Qed.

Lemma add_then_remove_restores_witness :
  fresh Sample.fNew Sample.ABC ∧
  ∃ r s1 s2,
    add (Some Sample.fNew) Sample.mGpu Sample.ABC = Some (r, s1) ∧
    remove r s1 = Some s2 ∧
    chain s2 = chain Sample.ABC ∧
    m_mltIndexMap s2 = m_mltIndexMap Sample.ABC.
Proof.
  assert (fresh Sample.fNew Sample.ABC) as Hfresh
    by (repeat constructor; discriminate).
  split; [exact Hfresh|].
  destruct (add_then_remove_restores Sample.fNew Sample.mGpu Sample.ABC Hfresh)
    as [Hrestores Hreturns].
  destruct Hreturns as (r & s1 & s2 & Hadd & Hrem & _).
  - eexists. reflexivity.
  - reflexivity.
  - repeat constructor; simpl; lia.
  - exists r, s1, s2.
    destruct (Hrestores r s1 s2 Hadd Hrem) as (Hchain & _ & _ & _ & Hmap).
    split_and!; [exact Hadd|exact Hrem|exact Hchain|exact Hmap].
Defined.

(** C8 (what the code does).  Neither [add] nor [remove] tests
    [m_producer->is_valid()].  On a model whose producer is not valid, as
    [reset] leaves it when there is no producer to show, [add] with a filter
    that constructs attaches nothing (the chain stays empty and [rowCount]
    stays 0) but inserts the descriptor and an engine index into the two
    lists and returns the row; [remove] of that row then asks the producer
    for the filter at that engine index, gets [NULL], and dereferences it. *)
Theorem add_then_remove_invalid_producer
    (filter : Mlt.Filter) (meta : QmlMetadata) (s : State) (p : Mlt.Producer) :
  m_producer s = Some p → Mlt.is_valid p = false → lengths_agree s →
  ∃ r s',
    add (Some filter) meta s = Some (r, s') ∧
    0 ≤ r < QList.count (m_metaList s') ∧
    m_metaList s' = QList.insert r (Some meta) (m_metaList s) ∧
    length (m_mltIndexMap s') = S (length (m_mltIndexMap s)) ∧
    m_producer s' = Some p ∧ chain s' = [] ∧ rowCount s' = 0 ∧
    remove r s' = None.
Proof.
  intros Hp Hvalid Hlen.
  destruct (add_completes filter meta s p Hp Hlen)
    as (r & k & s' & Hadd & _ & Hr & _ & _).
  destruct (add_Some _ _ _ _ _ Hadd)
    as (k' & p' & _ & _ & Hp' & Hp1 & Hmap & Hmeta & _).
  rewrite Hp in Hp'. injection Hp' as <-.
  assert (Mlt.instance p = None) as Hinst.
  { unfold Mlt.is_valid in Hvalid. by destruct (Mlt.instance p). }
  assert (m_producer s' = Some p) as Hp2.
  { rewrite Hp1. unfold Mlt.attach. rewrite Hinst.
    unfold Mlt.move_filter. by rewrite Hinst. }
  unfold lengths_agree, QList.count in *.
  assert (length (m_metaList s') = S (length (m_metaList s))) as Hl
    by (by rewrite Hmeta, length_qinsert).
  exists r, s'. split; [done|]. split; [unfold QList.count; lia|].
  split; [done|]. split; [by rewrite Hmap, length_qinsert, length_fmap|].
  split; [done|]. split; [unfold chain; by rewrite Hp2, Hinst|].
  split; [unfold rowCount, valid_producer; by rewrite Hp2, Hvalid|].
  unfold remove.
  assert ((QList.count (m_metaList s') <=? r) = false) as ->
    by (apply Z.leb_gt; unfold QList.count; lia).
  simpl.
  assert (QList.at_ (m_mltIndexMap s') r = Some k') as ->.
  { apply at_Some. split; [lia|]. rewrite Hmap. apply lookup_qinsert.
    unfold QList.count. rewrite length_fmap. lia. }
  simpl. rewrite Hp2. simpl. unfold Mlt.filter. by rewrite Hinst.
Qed.

Lemma add_then_remove_invalid_producer_witness :
  ∃ s r s',
    reset None None false (λ _, None) AttachedFiltersModel = Some s ∧
    isReady s = true ∧
    add (Some Sample.fNew) Sample.mGpu s = Some (r, s') ∧
    remove r s' = None.
Proof.
  exists (mkState (Some (Mlt.mkProducer None)) [] [] (-1)
            [BeginResetModel; EndResetModel; ReadyChanged]).
  destruct (add_then_remove_invalid_producer Sample.fNew Sample.mGpu
              (mkState (Some (Mlt.mkProducer None)) [] [] (-1)
                 [BeginResetModel; EndResetModel; ReadyChanged])
              (Mlt.mkProducer None))
    as (r & s' & Hadd & _ & _ & _ & _ & _ & _ & Hrem).
  - reflexivity.
  - reflexivity.
  - reflexivity.
  - exists r, s'. split; [reflexivity|]. split; [reflexivity|].
    split; [exact Hadd|exact Hrem].
Defined.

(** ** Reset *)

Lemma reset_scan_returns metaList newMeta (n fuel : nat) newIndex :
  (n ≤ length metaList)%nat → (n ≤ fuel)%nat →
  is_Some (reset_scan metaList newMeta fuel (Z.of_nat n - 1) newIndex).
Proof.
  revert fuel newIndex. induction n as [|n IH]; intros fuel newIndex Hn Hf.
  - by destruct fuel.
  - destruct fuel as [|fuel]; [lia|]. simpl.
    replace (Z.of_nat (S n) - 1) with (Z.of_nat n) by lia.
    assert ((0 <=? Z.of_nat n) = true) as -> by (apply Z.leb_le; lia).
    destruct (lookup_lt_is_Some_2 metaList n) as [prev Hprev]; [lia|].
    rewrite (at_lookup _ _ _ Hprev). simpl.
    destruct (sortIsLess prev newMeta); [|done].
    apply IH; lia.
Qed.

(** The loop of [reset] runs to its end; it emits nothing and keeps the two
    lists at one length. *)
Lemma reset_loop_returns metadataForService p (k : nat) :
  ∀ fuel i count s,
    count - i ≤ Z.of_nat k → (k ≤ fuel)%nat → lengths_agree s →
    ∃ s', reset_loop metadataForService p fuel i count s = Some s' ∧
          trace s' = trace s ∧ m_producer s' = m_producer s ∧
          m_dropRow s' = m_dropRow s ∧ lengths_agree s'.
Proof.
  induction k as [|k IH]; intros fuel i count s Hk Hf Hlen.
  - exists s. split; [|done]. destruct fuel; simpl; by zcmp.
  - destruct fuel as [|fuel]; [lia|]. simpl.
    destruct (Z.ltb_spec i count); [|by exists s].
    assert (∃ s1,
      match Mlt.filter p i with
      | Some filter =>
          if Mlt.loader filter =? 0 then
            newIndex ← reset_scan (m_metaList s) (metadataForService filter)
                         (length (m_metaList s)) (QList.count (m_metaList s) - 1)
                         (QList.count (m_metaList s));
            Some (set_mltIndexMap (QList.insert newIndex i (m_mltIndexMap s))
                    (set_metaList
                       (QList.insert newIndex (metadataForService filter)
                          (m_metaList s)) s))
          else Some s
      | None => Some s
      end = Some s1 ∧ trace s1 = trace s ∧ m_producer s1 = m_producer s ∧
      m_dropRow s1 = m_dropRow s ∧ lengths_agree s1) as (s1 & -> & Ht & Hp & Hd & Hl).
    { destruct (Mlt.filter p i) as [filter|]; [|by exists s].
      destruct (Mlt.loader filter =? 0); [|by exists s].
      unfold QList.count.
      destruct (reset_scan_returns (m_metaList s) (metadataForService filter)
                  (length (m_metaList s)) (length (m_metaList s))
                  (Z.of_nat (length (m_metaList s)))) as [newIndex ->]; [lia..|].
      simpl. eexists. split; [done|]. simpl. split_and!; try done.
      unfold lengths_agree in *. simpl. by rewrite !length_qinsert, Hlen. }
    simpl. destruct (IH fuel (i + 1) count s1) as (s' & Hs' & Ht' & Hp' & Hd' & Hl');
      [lia..|done|].
    exists s'. split_and!; [done|congruence..|done].
Qed.

(** A reset of anything but a playlist is bracketed and leaves the lists at
    one length. *)
Lemma reset_brackets producer MLT_producer metadataForService s :
  ∃ s', reset producer MLT_producer false metadataForService s = Some s' ∧
        trace s' = trace s ++ [BeginResetModel; EndResetModel; ReadyChanged] ∧
        lengths_agree s'.
Proof.
  unfold reset.
  set (p := match match producer with Some _ => producer | None => MLT_producer end
            with Some p => p | None => Mlt.mkProducer None end).
  set (s0 := set_mltIndexMap [] (set_metaList [] (set_producer (Some p)
                                                    (emit BeginResetModel s)))).
  destruct (Mlt.is_valid p).
  - destruct (reset_loop_returns metadataForService p
                (Z.to_nat (Mlt.filter_count p)) (Z.to_nat (Mlt.filter_count p))
                0 (Mlt.filter_count p) s0) as (s' & -> & Ht & _ & _ & Hl);
      [lia|lia|done|].
    simpl. eexists. split; [done|]. simpl. rewrite Ht. simpl.
    split; [by rewrite <- !app_assoc|done].
  - simpl. eexists. split; [done|]. simpl.
    split; [by rewrite <- !app_assoc|done].
Qed.

(** C5 (what the code does).  When [MLT.isPlaylist()] holds, [reset] returns
    right after it cleared the lists: the trace gains [BeginResetModel] and
    nothing else, so no [EndResetModel] follows the begin. *)
Theorem reset_playlist_not_bracketed
    (producer MLT_producer : option Mlt.Producer)
    (metadataForService : Mlt.Filter → option QmlMetadata) (s : State) :
  ∃ s', reset producer MLT_producer true metadataForService s = Some s' ∧
        trace s' = trace s ++ [BeginResetModel] ∧
        (EndResetModel ∉ drop (length (trace s)) (trace s')) ∧
        m_metaList s' = [] ∧ m_mltIndexMap s' = [].
Proof.
  eexists. split; [reflexivity|]. simpl. split_and!; try done.
  rewrite drop_app_length. by intros [=]%list_elem_of_singleton.
Qed.

(** ** Rows out of range *)

(** A row at or past the end of the list: [remove] logs the row and changes
    nothing else. *)
Lemma remove_row_past_end row s :
  QList.count (m_metaList s) ≤ row →
  remove row s = Some (emit (Warning (InvalidIndex row)) s).
Proof.
  intros H. unfold remove. by zcmp.
Qed.

(** A row of the list whose engine index is a position of the chain:
    [remove] returns. *)
Lemma remove_completes row s p mltIndex :
  0 ≤ row < QList.count (m_metaList s) → lengths_agree s →
  m_producer s = Some p →
  m_mltIndexMap s !! Z.to_nat row = Some mltIndex →
  0 ≤ mltIndex < Mlt.filter_count p →
  ∃ s' filter,
    remove row s = Some s' ∧ Mlt.filter p mltIndex = Some filter ∧
    m_producer s' = Some (Mlt.detach p filter) ∧
    m_mltIndexMap s' = remove_shift mltIndex <$> delete (Z.to_nat row) (m_mltIndexMap s) ∧
    m_metaList s' = delete (Z.to_nat row) (m_metaList s).
Proof.
  intros Hrow Hlen Hp Hmap Hidx.
  assert (∃ filter, Mlt.filter p mltIndex = Some filter) as [filter Hf].
  { unfold Mlt.filter, Mlt.filter_count in *.
    destruct (Mlt.instance p) as [fs|]; [|lia].
    assert ((0 <=? mltIndex) && (mltIndex <? Z.of_nat (length fs)) = true) as ->
      by (apply andb_true_iff; split; zcmp).
    apply lookup_lt_is_Some_2. lia. }
  unfold remove. zcmp. simpl.
  assert (QList.at_ (m_mltIndexMap s) row = Some mltIndex) as ->
    by (apply at_Some; split; [lia|done]).
  simpl. rewrite Hp. simpl. rewrite Hf. simpl.
  rewrite remove_adjust_loop. simpl.
  eexists _, filter. split_and!; try done; simpl.
  - rewrite removeAt_in_range; [done|].
    unfold QList.count, lengths_agree in *. lia.
  - by rewrite removeAt_in_range.
Qed.

(** C6 (what the code does).  The guard of [remove] tests
    [row >= m_metaList.count()] only.  A negative row passes it, nothing is
    logged, and the next statement subscripts the index map out of range. *)
Theorem remove_negative_row_unguarded (row : Z) (s : State) :
  row < 0 → remove row s = None.
Proof.
  intros H. unfold remove.
  assert ((QList.count (m_metaList s) <=? row) = false) as ->
    by (apply Z.leb_gt; unfold QList.count; lia).
  simpl. by rewrite at_negative.
Qed.

Lemma remove_negative_row_unguarded_witness :
  -1 < 0 ∧ remove (-1) Sample.ABC = None.
Proof.
  split; [reflexivity|].
  apply (remove_negative_row_unguarded (-1) Sample.ABC). reflexivity.
Defined.

(** ** The drag and drop hooks *)


(** A remove signal that finds no valid producer, no pending row, or its
    own row pending, returns false and leaves the state as it was. *)
Lemma removeRows_unresolved row count parent s :
  ¬ (is_Some (valid_producer s) ∧ 0 ≤ m_dropRow s ∧ row ≠ m_dropRow s) →
  removeRows row count parent s = Some (false, s).
Proof.
  intros H. unfold removeRows.
  destruct (valid_producer s) as [p|]; [|done].
  destruct (Z.leb_spec 0 (m_dropRow s)); [|done].
  destruct (Z.eqb_spec row (m_dropRow s)); [done|].
  exfalso. apply H. eauto.
Qed.



(** ** The check box *)

(** In a chain whose objects are distinct, the write reaches the filter at
    the engine index and no other. *)
Lemma with_disable_unique (fs : list Mlt.Filter) (i : nat) f v :
  NoDup (Mlt.handle <$> fs) → fs !! i = Some f →
  Mlt.with_disable (Mlt.handle f) v <$> fs
  = <[i := Mlt.mkFilter (Mlt.handle f) (Mlt.mlt_service f) v (Mlt.loader f)
             (Mlt.shotcut_filter f)]> fs.
Proof.
  intros Hnodup Hf. apply list_eq. intros j. rewrite list_lookup_fmap.
  destruct (decide (j = i)) as [->|Hne].
  - rewrite Hf, list_lookup_insert_eq by (by eapply lookup_lt_Some).
    simpl. unfold Mlt.with_disable. by rewrite Nat.eqb_refl.
  - rewrite list_lookup_insert_ne by done.
    destruct (fs !! j) as [g|] eqn:Hg; [simpl|done].
    unfold Mlt.with_disable. destruct (Nat.eqb_spec (Mlt.handle g) (Mlt.handle f)) as [Heq|]; [|done].
    exfalso. apply Hne. eapply NoDup_lookup; [exact Hnodup|..].
    + rewrite list_lookup_fmap, Hg. simpl. by rewrite Heq.
    + by rewrite list_lookup_fmap, Hf.
Qed.

(** ** The index map stays true to the engine *)

Lemma fmap_qinsert {A B} (f : A → B) i x (l : list A) :
  f <$> QList.insert i x l = QList.insert i (f x) (f <$> l).
Proof.
  unfold QList.insert, QList.count. rewrite length_fmap.
  destruct (i <=? 0); [done|]. destruct (_ <=? _).
  - by rewrite fmap_app.
  - by rewrite fmap_app, fmap_cons, fmap_take, fmap_drop.
Qed.

Lemma qinsert_perm {A} i x (l : list A) : QList.insert i x l ≡ₚ x :: l.
Proof.
  unfold QList.insert. destruct (i <=? 0); [done|]. destruct (_ <=? _).
  - symmetry. apply Permutation_cons_append.
  - rewrite <- Permutation_middle. by rewrite take_drop.
Qed.

Lemma filter_at_inserted fs f (k : Z) :
  0 ≤ k ≤ Z.of_nat (length fs) →
  filter_at (take (Z.to_nat k) fs ++ f :: drop (Z.to_nat k) fs) k = Some f.
Proof.
  intros H. unfold filter_at. zcmp.
  rewrite lookup_app_r; rewrite length_take; [|lia].
  by replace (Z.to_nat k - Z.to_nat k `min` length fs)%nat with 0%nat by lia.
Qed.

Lemma filter_at_add_shift fs f (k e : Z) :
  0 ≤ k ≤ Z.of_nat (length fs) →
  filter_at (take (Z.to_nat k) fs ++ f :: drop (Z.to_nat k) fs) (add_shift k e)
  = filter_at fs e.
Proof.
  intros H. unfold filter_at, add_shift.
  assert (length (take (Z.to_nat k) fs) = Z.to_nat k) as Hlen
    by (rewrite length_take; lia).
  destruct (Z.leb_spec k e).
  - destruct (Z.leb_spec 0 (e + 1)); [|lia]. destruct (Z.leb_spec 0 e); [|lia].
    rewrite lookup_app_r; rewrite Hlen; [|lia].
    replace (Z.to_nat (e + 1) - Z.to_nat k)%nat
      with (S (Z.to_nat e - Z.to_nat k)) by lia.
    simpl. rewrite lookup_drop. f_equal. lia.
  - destruct (Z.leb_spec 0 e); [|done].
    rewrite lookup_app_l by lia. apply lookup_take_lt. lia.
Qed.

Lemma filter_at_remove_shift fs (k e : Z) :
  0 ≤ k → e ≠ k →
  filter_at (delete (Z.to_nat k) fs) (remove_shift k e) = filter_at fs e.
Proof.
  intros Hk He. unfold filter_at, remove_shift.
  destruct (Z.ltb_spec k e).
  - destruct (Z.leb_spec 0 (e - 1)); [|lia]. destruct (Z.leb_spec 0 e); [|lia].
    rewrite list_lookup_delete_ge by lia. f_equal. lia.
  - destruct (Z.leb_spec 0 e); [|done].
    apply list_lookup_delete_lt. lia.
Qed.

Lemma remove_handle_at fs (k : nat) f :
  NoDup (Mlt.handle <$> fs) → fs !! k = Some f →
  Mlt.remove_handle (Mlt.handle f) fs = delete k fs.
Proof.
  revert k. induction fs as [|g fs IH]; intros k Hnodup Hk; [done|].
  rewrite fmap_cons in Hnodup. apply NoDup_cons in Hnodup as [Hg Hnodup].
  destruct k as [|k]; simpl in *.
  - injection Hk as ->. by rewrite Nat.eqb_refl.
  - destruct (Nat.eqb_spec (Mlt.handle g) (Mlt.handle f)) as [Heq|_].
    + exfalso. apply Hg. rewrite Heq. apply list_elem_of_fmap_2.
      by eapply list_elem_of_lookup_2.
    + by rewrite (IH k).
Qed.

Lemma move_filter_in_range fs (a b : Z) f :
  0 ≤ a < Z.of_nat (length fs) → 0 ≤ b < Z.of_nat (length fs) → a ≠ b →
  fs !! Z.to_nat a = Some f →
  Mlt.move_filter (Mlt.mkProducer (Some fs)) a b
  = Mlt.mkProducer
      (Some (take (Z.to_nat b) (delete (Z.to_nat a) fs) ++
             f :: drop (Z.to_nat b) (delete (Z.to_nat a) fs))).
Proof.
  intros Ha Hb Hab Hf. unfold Mlt.move_filter, Mlt.clamp. simpl.
  zcmp. simpl. by rewrite Hf.
Qed.

Lemma NoDup_delete_notin {A} (l : list A) (i : nat) x :
  NoDup l → l !! i = Some x → x ∉ delete i l.
Proof.
  intros Hnodup Hi. rewrite delete_take_drop.
  rewrite <- (take_drop_middle l i x Hi) in Hnodup.
  apply NoDup_app in Hnodup as (_ & Htake & Hdrop).
  apply NoDup_cons in Hdrop as [Hdrop _].
  intros [Hin|Hin]%elem_of_app; [|done].
  apply (Htake x Hin). by left.
Qed.

(** Taking the filter at position [k] out of the chain, and the row that
    pointed at it out of the map. *)
Lemma tracks_delete fs (map : list Z) (row : nat) (k : Z) :
  tracks fs map → map !! row = Some k →
  tracks (delete (Z.to_nat k) fs) (remove_shift k <$> delete row map) ∧
  filter_at (delete (Z.to_nat k) fs) <$> (remove_shift k <$> delete row map)
  = delete row (filter_at fs <$> map).
Proof.
  intros (Hrange & Hnodup & Hhandles) Hrow.
  assert (0 ≤ k < Z.of_nat (length fs)) as Hk
    by (by eapply (Forall_lookup_1 _ _ _ _ Hrange)).
  assert (k ∉ delete row map) as Hnotin by (by apply NoDup_delete_notin).
  assert (length (delete (Z.to_nat k) fs) = pred (length fs)) as Hlen.
  { rewrite length_delete; [lia|]. apply lookup_lt_is_Some_2. lia. }
  split; [split_and!|].
  - apply Forall_fmap, Forall_forall. intros e He. simpl.
    assert (e ≠ k) by (by intros ->).
    apply list_elem_of_delete_inv in He.
    pose proof (proj1 (Forall_forall _ _) Hrange e He) as Hr. simpl in Hr.
    rewrite Hlen. unfold remove_shift. zcmp.
  - apply NoDup_fmap_2_strong.
    + intros x y Hx Hy. assert (x ≠ k) by (by intros ->).
      assert (y ≠ k) by (by intros ->). unfold remove_shift. zcmp.
    + eapply sublist_NoDup; [done|apply sublist_delete].
  - rewrite list_fmap_delete.
    eapply sublist_NoDup; [done|apply sublist_delete].
  - rewrite <- list_fmap_compose, <- list_fmap_delete.
    apply list_fmap_ext. intros i e He. simpl.
    apply filter_at_remove_shift; [lia|].
    intros ->. apply Hnotin. by eapply list_elem_of_lookup_2.
Qed.

(** Putting a new object at position [k] of the chain, and a row that
    points at it into the map. *)
Lemma tracks_insert fs (map : list Z) (r k : Z) f :
  tracks fs map → 0 ≤ k ≤ Z.of_nat (length fs) →
  Forall (λ g, Mlt.handle g ≠ Mlt.handle f) fs →
  tracks (take (Z.to_nat k) fs ++ f :: drop (Z.to_nat k) fs)
         (QList.insert r k (add_shift k <$> map)) ∧
  filter_at (take (Z.to_nat k) fs ++ f :: drop (Z.to_nat k) fs)
    <$> QList.insert r k (add_shift k <$> map)
  = QList.insert r (Some f) (filter_at fs <$> map).
Proof.
  intros (Hrange & Hnodup & Hhandles) Hk Hfresh.
  assert (length (take (Z.to_nat k) fs ++ f :: drop (Z.to_nat k) fs)
          = S (length fs)) as Hlen.
  { rewrite length_app. simpl. rewrite length_take, length_drop. lia. }
  split; [split_and!|].
  - rewrite qinsert_perm, Hlen. apply Forall_cons. split; [lia|].
    apply Forall_fmap. eapply Forall_impl; [exact Hrange|].
    intros e He. simpl in *. unfold add_shift. zcmp.
  - rewrite qinsert_perm. apply NoDup_cons. split.
    + intros (e & He & _)%list_elem_of_fmap. revert He. unfold add_shift. zcmp.
    + apply NoDup_fmap_2_strong; [|done].
      intros x y _ _. unfold add_shift. zcmp.
  - rewrite fmap_app, fmap_cons, <- Permutation_middle, <- fmap_app, take_drop.
    apply NoDup_cons. split; [|done].
    intros (g & Hg & Hin)%list_elem_of_fmap.
    by apply (proj1 (Forall_forall _ _) Hfresh g Hin).
  - rewrite fmap_qinsert, filter_at_inserted, <- list_fmap_compose by done.
    f_equal. apply list_fmap_ext. intros i e _. simpl.
    by apply filter_at_add_shift.
Qed.

Lemma filter_eq_filter_at fs e :
  Mlt.filter (Mlt.mkProducer (Some fs)) e = filter_at fs e.
Proof.
  unfold Mlt.filter, filter_at. simpl.
  destruct (Z.leb_spec 0 e); simpl; [|done].
  destruct (Z.ltb_spec e (Z.of_nat (length fs))); [done|].
  symmetry. apply lookup_ge_None. lia.
Qed.

(** [designated] lists what [getFilter] returns, row by row. *)
Lemma getFilter_designated s (row : Z) :
  is_Some (valid_producer s) → 0 ≤ row →
  getFilter s row = Some (from_option id None (designated s !! Z.to_nat row)).
Proof.
  intros [p Hp] Hrow. unfold getFilter, designated. rewrite Hp.
  unfold valid_producer, chain in *.
  destruct (m_producer s) as [[[fs|]]|]; try done. simpl in *.
  injection Hp as <-. rewrite list_lookup_fmap.
  destruct (Z.ltb_spec row (QList.count (m_mltIndexMap s))) as [Hlt|Hge].
  - destruct (at_in_range (m_mltIndexMap s) row) as [e He]; [lia|].
    rewrite He. simpl. apply at_Some in He as [_ ->]. simpl.
    by rewrite filter_eq_filter_at.
  - unfold QList.count in Hge.
    rewrite (proj2 (lookup_ge_None _ _)) by lia. done.
Qed.

Lemma consistent_producer s :
  consistent s →
  m_producer s = Some (Mlt.mkProducer (Some (chain s))) ∧
  valid_producer s = Some (Mlt.mkProducer (Some (chain s))).
Proof.
  intros ([p Hp] & _). unfold valid_producer, chain in *.
  destruct (m_producer s) as [[[fs|]]|]; try done.
Qed.

Lemma chain_of_producer s fs :
  m_producer s = Some (Mlt.mkProducer (Some fs)) → chain s = fs.
Proof. unfold chain. by intros ->. Qed.

Lemma consistent_intro s fs :
  m_producer s = Some (Mlt.mkProducer (Some fs)) → lengths_agree s →
  tracks fs (m_mltIndexMap s) → consistent s.
Proof.
  intros Hp Hlen Htracks. unfold consistent.
  rewrite (chain_of_producer _ _ Hp). split_and!; [|done..].
  unfold valid_producer. rewrite Hp. by eexists.
Qed.

(** [add] on a consistent state, with the engine index [k] it gives the new
    filter: what becomes of the chain, of the map and of the rows. *)
Lemma add_on_consistent (filter : Mlt.Filter) (meta : QmlMetadata) (s : State) :
  consistent s → fresh filter s →
  ∃ r k s',
    add (Some filter) meta s = Some (r, s') ∧ consistent s' ∧
    insert_position (m_metaList s) (Some meta) r ∧
    0 ≤ r ≤ QList.count (m_metaList s) ∧
    0 ≤ k ≤ Z.of_nat (length (chain s)) ∧
    chain s' = take (Z.to_nat k) (chain s) ++
               tag_filter meta filter :: drop (Z.to_nat k) (chain s) ∧
    m_mltIndexMap s' = QList.insert r k (add_shift k <$> m_mltIndexMap s) ∧
    designated s' = QList.insert r (Some (tag_filter meta filter)) (designated s) ∧
    m_metaList s' = QList.insert r (Some meta) (m_metaList s) ∧
    m_dropRow s' = m_dropRow s.
Proof.
  intros Hs Hfresh.
  destruct (consistent_producer s Hs) as [Hp _].
  destruct Hs as (_ & Hlen & Htracks).
  destruct (add_completes filter meta s _ Hp Hlen)
    as (r & k & s' & Hadd & Hins & Hr & Hk0 & Htarget).
  destruct (add_Some _ _ _ _ _ Hadd)
    as (k' & p' & _ & Hk' & Hp' & Hp1 & Hmap & Hmeta & Hdrop & _).
  assert (k' = k) as -> by congruence.
  rewrite Hp in Hp'. injection Hp' as <-.
  assert (0 ≤ k ≤ Z.of_nat (length (chain s))) as Hk.
  { eapply target_engine_index_in_chain; [apply Htracks|lia|done]. }
  assert (Forall (λ g, Mlt.handle g ≠ Mlt.handle (tag_filter meta filter)) (chain s))
    as Hfresh' by (by rewrite handle_tag_filter).
  destruct (attach_move_detach (chain s) (tag_filter meta filter) k Hfresh' Hk)
    as (_ & _ & Hinst).
  simpl in Hinst.
  assert (m_producer s' = Some (Mlt.mkProducer (Some
            (take (Z.to_nat k) (chain s) ++
             tag_filter meta filter :: drop (Z.to_nat k) (chain s))))) as Hp1'.
  { rewrite Hp1. f_equal.
    destruct (Mlt.move_filter _ _ _) as [inst]. simpl in Hinst. by rewrite Hinst. }
  destruct (tracks_insert (chain s) (m_mltIndexMap s) r k (tag_filter meta filter)
              Htracks Hk Hfresh') as [Htracks' Hdes].
  exists r, k, s'.
  split; [done|]. split; [|split; [done|]; split; [done|]; split; [done|]].
  - eapply consistent_intro; [exact Hp1'| |by rewrite Hmap].
    by eapply add_lengths_agree.
  - split; [by apply chain_of_producer|]. split; [done|].
    split; [|done]. unfold designated.
    by rewrite (chain_of_producer _ _ Hp1'), Hmap.
Qed.

(** X1.  [add] on a consistent state: the result is consistent, every row
    keeps the engine filter it pointed at, and the new row points at the new
    filter. *)
Theorem add_keeps_consistent (filter : Mlt.Filter) (meta : QmlMetadata) (s : State) :
  consistent s → fresh filter s →
  ∃ r s',
    add (Some filter) meta s = Some (r, s') ∧ consistent s' ∧
    designated s' = QList.insert r (Some (tag_filter meta filter)) (designated s) ∧
    m_metaList s' = QList.insert r (Some meta) (m_metaList s).
Proof.
  intros Hs Hfresh.
  destruct (add_on_consistent filter meta s Hs Hfresh)
    as (r & k & s' & Hadd & Hs' & _ & _ & _ & _ & _ & Hdes & Hmeta & _).
  by exists r, s'.
Qed.

(** [remove] of a row of a consistent state, with the engine index [k] of
    the row and the filter [f] it detaches. *)
Lemma remove_on_consistent (row : Z) (s : State) :
  consistent s → 0 ≤ row < QList.count (m_metaList s) →
  ∃ s' k f,
    remove row s = Some s' ∧ consistent s' ∧
    m_mltIndexMap s !! Z.to_nat row = Some k ∧
    chain s !! Z.to_nat k = Some f ∧ 0 ≤ k ∧
    chain s' = delete (Z.to_nat k) (chain s) ∧
    m_mltIndexMap s' =
      remove_shift k <$> delete (Z.to_nat row) (m_mltIndexMap s) ∧
    designated s' = delete (Z.to_nat row) (designated s) ∧
    m_metaList s' = delete (Z.to_nat row) (m_metaList s).
Proof.
  intros Hs Hrow.
  destruct (consistent_producer s Hs) as [Hp _].
  destruct Hs as (_ & Hlen & Htracks).
  destruct (lookup_lt_is_Some_2 (m_mltIndexMap s) (Z.to_nat row)) as [k Hk].
  { unfold lengths_agree, QList.count in *. lia. }
  assert (0 ≤ k < Z.of_nat (length (chain s))) as Hkrange
    by (by eapply (Forall_lookup_1 _ _ _ _ (proj1 Htracks))).
  destruct (remove_completes row s _ k Hrow Hlen Hp Hk)
    as (s' & filter & Hrem & Hf & Hp' & Hmap & Hmeta); [done|].
  assert (chain s !! Z.to_nat k = Some filter) as Hfk.
  { unfold Mlt.filter in Hf. simpl in Hf.
    by destruct ((0 <=? k) && (k <? Z.of_nat (length (chain s)))). }
  assert (m_producer s' = Some (Mlt.mkProducer (Some (delete (Z.to_nat k) (chain s)))))
    as Hp1.
  { rewrite Hp'. unfold Mlt.detach. simpl.
    by rewrite (remove_handle_at _ _ _ (proj2 (proj2 Htracks)) Hfk). }
  destruct (tracks_delete _ _ _ _ Htracks Hk) as [Htracks' Hdes].
  exists s', k, filter.
  split; [done|]. split; [|split; [done|]; split; [done|]; split; [lia|]].
  - eapply consistent_intro; [exact Hp1| |by rewrite Hmap].
    by eapply remove_lengths_agree.
  - split; [by apply chain_of_producer|]. split; [done|].
    split; [|done]. unfold designated.
    by rewrite (chain_of_producer _ _ Hp1), Hmap.
Qed.

(** X2.  [remove] of a row of a consistent state: the result is consistent,
    and every other row keeps the engine filter it pointed at. *)
Theorem remove_keeps_consistent (row : Z) (s : State) :
  consistent s → 0 ≤ row < QList.count (m_metaList s) →
  ∃ s',
    remove row s = Some s' ∧ consistent s' ∧
    designated s' = delete (Z.to_nat row) (designated s) ∧
    m_metaList s' = delete (Z.to_nat row) (m_metaList s).
Proof.
  intros Hs Hrow.
  destruct (remove_on_consistent row s Hs Hrow)
    as (s' & k & f & Hrem & Hs' & _ & _ & _ & _ & _ & Hdes & Hmeta).
  by exists s'.
Qed.

Lemma moveRows_shift_split a b v :
  moveRows_shift a b v = add_shift b (remove_shift a v).
Proof. done. Qed.

(** A move of a row of a consistent state that Qt accepts, with the engine
    indices [a] and [b] of the two rows and the filter [f] that moves. *)
Lemma moveRows_on_consistent
    (parent : QModelIndex) (sourceRow destinationRow : Z) (s : State) :
  consistent s →
  beginMoveRows sourceRow sourceRow destinationRow = true →
  0 ≤ sourceRow < QList.count (m_metaList s) →
  0 ≤ destinationRow →
  post_move_row sourceRow destinationRow < QList.count (m_metaList s) →
  ∃ s' meta a b f,
    moveRows parent sourceRow 1 parent destinationRow s = Some (true, s') ∧
    consistent s' ∧
    m_metaList s !! Z.to_nat sourceRow = Some meta ∧
    m_mltIndexMap s !! Z.to_nat sourceRow = Some a ∧
    chain s !! Z.to_nat a = Some f ∧ 0 ≤ a ∧ 0 ≤ b ∧
    chain s' = take (Z.to_nat b) (delete (Z.to_nat a) (chain s)) ++
               f :: drop (Z.to_nat b) (delete (Z.to_nat a) (chain s)) ∧
    m_metaList s' =
      moved_row (m_metaList s) (Z.to_nat sourceRow)
        (Z.to_nat (post_move_row sourceRow destinationRow)) meta ∧
    designated s' =
      moved_row (designated s) (Z.to_nat sourceRow)
        (Z.to_nat (post_move_row sourceRow destinationRow)) (Some f) ∧
    m_dropRow s' = m_dropRow s.
Proof.
  intros Hs Hbegin Hsrc Hdst Hpost.
  destruct (consistent_producer s Hs) as [Hp Hvalid].
  destruct Hs as (_ & Hlen & Htracks).
  set (d := post_move_row sourceRow destinationRow) in *.
  assert (0 ≤ d ∧ d ≠ sourceRow) as [Hd0 Hdsrc].
  { unfold d, post_move_row, beginMoveRows in *.
    apply negb_true_iff, andb_false_iff in Hbegin.
    destruct (Z.ltb_spec sourceRow destinationRow); [lia|].
    destruct Hbegin as [H1%Z.leb_gt|H1%Z.leb_gt]; lia. }
  destruct (moveRows_completes parent sourceRow destinationRow s _ Hvalid Hlen
              Hbegin Hsrc Hdst Hpost)
    as (a & b & meta & s' & Ha & Hb & Hmeta & Hmove & Hp' & _ & Hlist & Hdrop).
  fold d in Hb, Hlist.
  destruct (moveRows_Some _ _ _ _ _ _ _ _ Hmove)
    as [[[=] _]|(_ & p1 & a' & b' & ml & _ & _ & _ & _ & _ & Ha' & Hb' & _ & _
                 & Hmap & _)].
  fold d in Hb', Hmap.
  apply at_Some in Ha' as [_ Ha']. apply at_Some in Hb' as [_ Hb'].
  assert (a' = a) as -> by congruence. assert (b' = b) as -> by congruence.
  unfold lengths_agree, QList.count in *.
  pose proof Htracks as (Hrange & Hnodup & Hhandles).
  assert (0 ≤ a < Z.of_nat (length (chain s))) as Harange
    by (by eapply (Forall_lookup_1 _ _ _ _ Hrange)).
  assert (0 ≤ b < Z.of_nat (length (chain s))) as Hbrange
    by (by eapply (Forall_lookup_1 _ _ _ _ Hrange)).
  assert (a ≠ b) as Hab.
  { intros Heq. rewrite <- Heq in Hb.
    pose proof (NoDup_lookup _ _ _ _ Hnodup Ha Hb). lia. }
  destruct (lookup_lt_is_Some_2 (chain s) (Z.to_nat a)) as [f Hf]; [lia|].
  rewrite (move_filter_in_range _ _ _ f) in Hp' by done.
  assert (length (delete (Z.to_nat a) (chain s)) = pred (length (chain s))) as Hdel.
  { rewrite length_delete; [lia|]. by eexists. }
  destruct (tracks_delete _ _ _ _ Htracks Ha) as [Htracks1 Hdes1].
  destruct (tracks_insert (delete (Z.to_nat a) (chain s))
              (remove_shift a <$> delete (Z.to_nat sourceRow) (m_mltIndexMap s))
              d b f Htracks1) as [Htracks2 Hdes2]; [lia| |].
  { apply Forall_forall. intros g Hg Heq.
    apply (NoDup_delete_notin _ (Z.to_nat a) (Mlt.handle f) Hhandles).
    - by rewrite list_lookup_fmap, Hf.
    - rewrite <- list_fmap_delete, <- Heq. by apply list_elem_of_fmap_2. }
  assert (m_mltIndexMap s' =
          QList.insert d b
            (add_shift b <$> (remove_shift a <$>
               delete (Z.to_nat sourceRow) (m_mltIndexMap s)))) as Hmap'.
  { rewrite Hmap, removeAt_in_range by (unfold QList.count; lia).
    f_equal. rewrite <- list_fmap_compose. apply list_fmap_ext.
    intros i v _. apply moveRows_shift_split. }
  exists s', meta, a, b, f.
  split; [done|]. split; [|split; [done|]; split; [done|]; split; [done|]].
  - eapply consistent_intro; [exact Hp'| |by rewrite Hmap'].
    by eapply (moveRows_lengths_agree _ _ _ _ _ s true s').
  - split; [lia|]. split; [lia|]. split; [by apply chain_of_producer|].
    split; [done|]. split; [|done].
    unfold designated. rewrite (chain_of_producer _ _ Hp'), Hmap', Hdes2, Hdes1.
    unfold moved_row. rewrite qinsert_in_range; [done|].
    unfold QList.count. rewrite length_delete, length_fmap; [lia|].
    rewrite list_lookup_fmap, Ha. by eexists.
Qed.

(** X3.  A move of a row of a consistent state that Qt accepts: the result
    is consistent, and the engine filters of the rows move with the rows. *)
Theorem moveRows_keeps_consistent
    (parent : QModelIndex) (sourceRow destinationRow : Z) (s : State) :
  consistent s →
  beginMoveRows sourceRow sourceRow destinationRow = true →
  0 ≤ sourceRow < QList.count (m_metaList s) →
  0 ≤ destinationRow →
  post_move_row sourceRow destinationRow < QList.count (m_metaList s) →
  ∃ s' meta filter,
    moveRows parent sourceRow 1 parent destinationRow s = Some (true, s') ∧
    consistent s' ∧
    m_metaList s !! Z.to_nat sourceRow = Some meta ∧
    designated s !! Z.to_nat sourceRow = Some filter ∧
    m_metaList s' =
      moved_row (m_metaList s) (Z.to_nat sourceRow)
        (Z.to_nat (post_move_row sourceRow destinationRow)) meta ∧
    designated s' =
      moved_row (designated s) (Z.to_nat sourceRow)
        (Z.to_nat (post_move_row sourceRow destinationRow)) filter.
Proof.
  intros Hs Hbegin Hsrc Hdst Hpost.
  destruct (moveRows_on_consistent parent sourceRow destinationRow s
              Hs Hbegin Hsrc Hdst Hpost)
    as (s' & meta & a & b & f & Hmove & Hs' & Hmeta & Ha & Hf & Ha0 & _ & _
        & Hlist & Hdes & _).
  exists s', meta, (Some f). split_and!; try done.
  unfold designated, filter_at. rewrite list_lookup_fmap, Ha. simpl.
  destruct (Z.leb_spec 0 a); [|lia]. by rewrite Hf.
Qed.

Lemma consistent_ABC : consistent Sample.ABC.
Proof.
  split_and!.
  - by eexists.
  - done.
  - unfold tracks, chain. simpl. split_and!.
    + repeat (apply Forall_cons; split; [lia|]). by apply Forall_nil.
    + by apply (bool_decide_unpack _).
    + by apply (bool_decide_unpack _).
Qed.

Lemma add_keeps_consistent_witness :
  ∃ r s',
    add (Some Sample.fNew) Sample.mGpu Sample.ABC = Some (r, s') ∧
    consistent s' ∧
    designated s' = QList.insert r (Some Sample.fNew) (designated Sample.ABC).
Proof.
  destruct (add_keeps_consistent Sample.fNew Sample.mGpu Sample.ABC consistent_ABC)
    as (r & s' & Hadd & Hs' & Hdes & _).
  - repeat constructor; discriminate.
  - exists r, s'. split_and!; [exact Hadd|exact Hs'|exact Hdes].
Defined.

Lemma remove_keeps_consistent_witness :
  ∃ s', remove 1 Sample.ABC = Some s' ∧ consistent s' ∧
        designated s' = [Some Sample.fA; Some Sample.fC].
Proof.
  destruct (remove_keeps_consistent 1 Sample.ABC consistent_ABC)
    as (s' & Hrem & Hs' & Hdes & _).
  - unfold QList.count. simpl. lia.
  - exists s'. split_and!; [exact Hrem|exact Hs'|exact Hdes].
Defined.

Lemma moveRows_keeps_consistent_witness :
  ∃ s', moveRows noIndex 0 1 noIndex 3 Sample.ABC = Some (true, s') ∧
        consistent s' ∧
        designated s' = [Some Sample.fB; Some Sample.fC; Some Sample.fA].
Proof.
  destruct (moveRows_keeps_consistent noIndex 0 3 Sample.ABC consistent_ABC)
    as (s' & meta & filter & Hmove & Hs' & _ & Hf & _ & Hdes).
  - reflexivity.
  - unfold QList.count. simpl. lia.
  - lia.
  - reflexivity.
  - exists s'. injection Hf as <-.
    split_and!; [exact Hmove|exact Hs'|exact Hdes].
Defined.

(** ** What [reset] builds *)

Lemma shown_in_chain fs e : shown fs e → 0 ≤ e < Z.of_nat (length fs).
Proof.
  intros (f & Hf & _). unfold filter_at in Hf.
  destruct (Z.leb_spec 0 e); [|done]. apply lookup_lt_Some in Hf. lia.
Qed.

Lemma reset_loop_tracks metadataForService fs (k : nat) :
  ∀ fuel i s,
    0 ≤ i ≤ Z.of_nat (length fs) →
    Z.of_nat (length fs) - i ≤ Z.of_nat k → (k ≤ fuel)%nat →
    NoDup (m_mltIndexMap s) →
    (∀ e, e ∈ m_mltIndexMap s ↔ e < i ∧ shown fs e) →
    m_metaList s = descriptor_at metadataForService fs <$> m_mltIndexMap s →
    ∃ s',
      reset_loop metadataForService (Mlt.mkProducer (Some fs)) fuel i
        (Z.of_nat (length fs)) s = Some s' ∧
      NoDup (m_mltIndexMap s') ∧
      (∀ e, e ∈ m_mltIndexMap s' ↔ shown fs e) ∧
      m_metaList s' = descriptor_at metadataForService fs <$> m_mltIndexMap s' ∧
      trace s' = trace s ∧ m_producer s' = m_producer s ∧
      m_dropRow s' = m_dropRow s.
Proof.
  induction k as [|k IH]; intros fuel i s Hi Hk Hfuel Hnodup Helem Hmeta.
  - exists s. split_and!; try done.
    + destruct fuel; simpl; by zcmp.
    + intros e. rewrite Helem. split; [by intros [_ ?]|].
      intros He. split; [|done]. apply shown_in_chain in He. lia.
  - destruct fuel as [|fuel]; [lia|]. simpl.
    destruct (Z.ltb_spec i (Z.of_nat (length fs))).
    2:{ exists s. split_and!; try done.
        intros e. rewrite Helem. split; [by intros [_ ?]|].
        intros He. split; [|done]. apply shown_in_chain in He. lia. }
    destruct (lookup_lt_is_Some_2 fs (Z.to_nat i)) as [f Hf]; [lia|].
    unfold Mlt.filter. simpl.
    assert ((0 <=? i) && (i <? Z.of_nat (length fs)) = true) as ->
      by (apply andb_true_iff; split; zcmp).
    rewrite Hf.
    assert (filter_at fs i = Some f) as Hfi
      by (unfold filter_at; by destruct (Z.leb_spec 0 i); [|lia]).
    assert (i ∉ m_mltIndexMap s) as Hnotin
      by (intros [? _]%Helem; lia).
    destruct (Z.eqb_spec (Mlt.loader f) 0) as [Hloader|Hloader].
    + unfold QList.count.
      destruct (reset_scan_returns (m_metaList s) (metadataForService f)
                  (length (m_metaList s)) (length (m_metaList s))
                  (Z.of_nat (length (m_metaList s)))) as [newIndex ->]; [lia..|].
      simpl.
      destruct (IH fuel (i + 1)
                  (set_mltIndexMap (QList.insert newIndex i (m_mltIndexMap s))
                     (set_metaList
                        (QList.insert newIndex (metadataForService f) (m_metaList s))
                        s)))
        as (s' & Hs' & Hrest); [lia|lia|lia|..].
      * simpl. rewrite qinsert_perm. by apply NoDup_cons.
      * intros e. simpl. rewrite qinsert_perm, elem_of_cons, Helem.
        split.
        -- intros [->|[? ?]]; [|split; [lia|done]].
           split; [lia|]. by exists f.
        -- intros [Hlt He]. destruct (Z.eq_dec e i) as [->|]; [by left|].
           right. split; [lia|done].
      * simpl. rewrite Hmeta, fmap_qinsert. f_equal.
        unfold descriptor_at. by rewrite Hfi.
      * exists s'. by split.
    + simpl. destruct (IH fuel (i + 1) s) as (s' & Hs' & Hrest);
        [lia|lia|lia|done| |done|exists s'; by split].
      intros e. rewrite Helem. split.
      * intros [? ?]. split; [lia|done].
      * intros [Hlt He]. split; [|done].
        destruct (Z.eq_dec e i) as [->|]; [|lia].
        destruct He as (f' & Hf' & Hl'). congruence.
Qed.

(** The model [reset] builds on a chain of distinct objects. *)
Lemma reset_tracks_chain
    (fs : list Mlt.Filter) (MLT_producer : option Mlt.Producer)
    (metadataForService : Mlt.Filter → option QmlMetadata) (s : State) :
  NoDup (Mlt.handle <$> fs) →
  ∃ s',
    reset (Some (Mlt.mkProducer (Some fs))) MLT_producer false
      metadataForService s = Some s' ∧
    consistent s' ∧ chain s' = fs ∧
    (∀ e, e ∈ m_mltIndexMap s' ↔ shown fs e) ∧
    m_metaList s' = descriptor_at metadataForService fs <$> m_mltIndexMap s'.
Proof.
  intros Hhandles. unfold reset. simpl.
  destruct (reset_loop_tracks metadataForService fs (length fs) (length fs) 0
    (set_mltIndexMap [] (set_metaList []
       (set_producer (Some (Mlt.mkProducer (Some fs))) (emit BeginResetModel s)))))
    as (s' & Hloop & Hnodup & Helem & Hmeta & _ & Hp & _);
    [lia|lia|lia|simpl; constructor| |done|].
  { intros e. simpl. split; [by intros ?%elem_of_nil|].
    intros [? ?%shown_in_chain]. lia. }
  unfold Mlt.filter_count. simpl. rewrite Nat2Z.id, Hloop. simpl.
  eexists. split; [done|]. simpl in *.
  split_and!; [|unfold chain; simpl; by rewrite Hp|done|done].
  eapply consistent_intro; [simpl; exact Hp| |].
  - unfold lengths_agree. simpl. by rewrite Hmeta, length_fmap.
  - simpl. split_and!; [|done..].
    apply Forall_forall. intros e He. apply shown_in_chain. by apply Helem.
Qed.

(** X4.  [reset] on a producer with a chain, outside a playlist: the model
    it builds is consistent, its rows are the filters of the chain that are
    not loaders, each once, and each row holds the descriptor of its
    filter. *)
Theorem reset_builds_consistent
    (fs : list Mlt.Filter) (MLT_producer : option Mlt.Producer)
    (metadataForService : Mlt.Filter → option QmlMetadata) (s : State) :
  NoDup (Mlt.handle <$> fs) →
  ∃ s',
    reset (Some (Mlt.mkProducer (Some fs))) MLT_producer false
      metadataForService s = Some s' ∧
    consistent s' ∧ chain s' = fs ∧
    (∀ e, e ∈ m_mltIndexMap s' ↔ shown fs e) ∧
    m_metaList s' = descriptor_at metadataForService fs <$> m_mltIndexMap s'.
Proof.
  intros Hhandles.
  destruct (reset_tracks_chain fs MLT_producer metadataForService s Hhandles)
    as (s' & Hreset & Hs' & Hchain & Helem & Hmeta).
  exists s'. by split_and!.
Qed.

Lemma reset_builds_consistent_witness :
  ∃ s',
    reset (Some (Mlt.mkProducer (Some [Sample.fA; Sample.fLoader; Sample.fB])))
      None false (λ _, None) AttachedFiltersModel = Some s' ∧
    consistent s' ∧ (0 ∈ m_mltIndexMap s') ∧ (1 ∉ m_mltIndexMap s') ∧
    (2 ∈ m_mltIndexMap s').
Proof.
  destruct (reset_builds_consistent [Sample.fA; Sample.fLoader; Sample.fB] None
              (λ _, None) AttachedFiltersModel)
    as (s' & Hreset & Hs' & _ & Helem & _).
  - by apply (bool_decide_unpack _).
  - exists s'. split_and!; [exact Hreset|exact Hs'|..].
    + apply Helem. by exists Sample.fA.
    + intros (f & Hf & Hl)%Helem. by injection Hf as <-.
    + apply Helem. by exists Sample.fB.
Defined.

(** ** Scenarios of the design document *)

(** On an empty list, adding a GPU, a video, an audio and a second GPU
    descriptor returns rows 0, 1, 2 and 1: the second GPU filter goes right
    after the first, video and audio move to rows 2 and 3, and the engine
    indices are 0, 1, 2, 3. *)
Example four_adds_rows :
  Sample.four_adds
  = Some ([0; 1; 2; 1], [0; 1; 2; 3],
          [Some Sample.mGpu; Some Sample.mGpu2; Some Sample.mVideo;
           Some Sample.mAudio]).
Proof. reflexivity. Qed.

(** [remove(1)] on three rows with engine indices 0, 2, 3 (a loader
    sits at position 1 of the chain) leaves engine indices 0, 2, and the
    loader in the chain. *)
Example remove_beside_loader :
  (m_mltIndexMap <$> remove 1 Sample.with_loader) = Some [0; 2] ∧
  (chain <$> remove 1 Sample.with_loader)
  = Some [Sample.fA; Sample.fLoader; Sample.fC].
Proof. split; reflexivity. Qed.

(** The hook [moveRows] takes its destination as Qt does, as the row to
    move in front of: with destination 2, row 0 of [A, B, C] lands on row 1.
    [move(0, 2)] is [moveRows] with destination 3. *)
Example moveRows_before_row_2 :
  (m_metaList ∘ snd <$> moveRows noIndex 0 1 noIndex 2 Sample.ABC)
  = Some [Some Sample.mB; Some Sample.mA; Some Sample.mC] ∧
  move 0 2 Sample.ABC = moveRows noIndex 0 1 noIndex 3 Sample.ABC.
Proof. split; reflexivity. Qed.

(** * Further properties of the class *)

(** ** The sort policy and the category shown *)

Lemma sortIsLess_category a b :
  one_flag a → one_flag b →
  sortIsLess a b = (category b <? category a)%nat.
Proof.
  destruct a as [[na sa oa ga aa]|], b as [[nb sb ob gb ab]|]; simpl;
    intros Ha Hb;
    repeat match goal with x : bool |- _ => destruct x end; done.
Qed.

(** X5.  On descriptors that set one flag at most, [sortIsLess a b] holds
    exactly when the category of [a] comes after that of [b] in the order
    GPU, video, audio that [data] displays; so it is asymmetric and
    transitive there. *)
Theorem sortIsLess_by_category (a b c : option QmlMetadata) :
  one_flag a → one_flag b → one_flag c →
  (sortIsLess a b = true ↔ (category b < category a)%nat) ∧
  (sortIsLess a b = true → sortIsLess b a = false) ∧
  (sortIsLess a b = true → sortIsLess b c = true → sortIsLess a c = true) ∧
  (sortIsLess a b = false → sortIsLess b c = false → sortIsLess a c = false).
Proof.
  intros Ha Hb Hc.
  rewrite !sortIsLess_category by done.
  rewrite !Nat.ltb_lt, !Nat.ltb_ge. lia.
Qed.

Lemma sortIsLess_by_category_witness :
  sortIsLess (Some Sample.mAudio) (Some Sample.mGpu) = true ∧
  sortIsLess (Some Sample.mGpu) (Some Sample.mAudio) = false.
Proof.
  destruct (sortIsLess_by_category (Some Sample.mAudio) (Some Sample.mGpu) None)
    as (Hiff & Hasym & _); [reflexivity..|].
  assert (sortIsLess (Some Sample.mAudio) (Some Sample.mGpu) = true) as Hless
    by (apply Hiff; simpl; lia).
  split; [exact Hless|exact (Hasym Hless)].
Defined.

(** With both flags set the order breaks: such a descriptor and a plain
    video one are each less than the other. *)
Example sortIsLess_both_flags :
  let both := Some (mkMeta "x" "x" "x" true true) in
  sortIsLess both (Some Sample.mVideo) = true ∧
  sortIsLess (Some Sample.mVideo) both = true.
Proof. split; reflexivity. Qed.

(** The label [data] gives a row is its category. *)
Lemma data_type_category index s text :
  data index TypeDisplayRole s = Some (VString text) →
  ∃ meta, m_metaList s !! Z.to_nat (row index) = Some meta ∧
          text = match category meta with
                 | 0%nat => "GPU" | 1%nat => "Video" | _ => "Audio"
                 end.
Proof.
  unfold data. destruct (valid_producer s) as [p|]; [|done].
  destruct (Mlt.filter_count p <=? row index); [done|].
  destruct (QList.at_ _ _) as [meta|] eqn:Hat; [simpl|done].
  intros [= <-]. apply at_Some in Hat as [_ Hat]. exists meta. split; [done|].
  destruct meta as [[n sv o g a]|]; simpl; [|done]. by destruct a, g.
Qed.

(** ** [reset] and [add] place a descriptor by one rule *)

Lemma reset_scan_prefix metaList meta (n fuel : nat) :
  (n ≤ length metaList)%nat → (n ≤ fuel)%nat →
  reset_scan metaList meta fuel (Z.of_nat n - 1) (Z.of_nat n)
  = add_scan metaList meta fuel (Z.of_nat n - 1).
Proof.
  revert fuel. induction n as [|n IH]; intros fuel Hn Hf.
  - by destruct fuel.
  - destruct fuel as [|fuel]; [lia|]. simpl.
    replace (Z.of_nat (S n) - 1) with (Z.of_nat n) by lia.
    assert ((0 <=? Z.of_nat n) = true) as -> by (apply Z.leb_le; lia).
    destruct (lookup_lt_is_Some_2 metaList n) as [prev Hprev]; [lia|].
    rewrite (at_lookup _ _ _ Hprev). simpl.
    destruct (sortIsLess prev meta); simpl.
    + apply IH; lia.
    + f_equal. lia.
Qed.

(** X6.  The scan of [reset] and the scan of [add] give one position, for
    every descriptor list and every descriptor: one past the last entry that
    is not less than the new one, row 0 when there is none. *)
Theorem reset_scan_is_add_scan
    (metaList : list (option QmlMetadata)) (meta : option QmlMetadata) :
  reset_scan metaList meta (length metaList) (QList.count metaList - 1)
    (QList.count metaList)
  = add_scan metaList meta (length metaList) (QList.count metaList - 1) ∧
  ∃ pos,
    add_scan metaList meta (length metaList) (QList.count metaList - 1)
    = Some pos ∧
    insert_position metaList meta pos ∧ 0 ≤ pos ≤ QList.count metaList.
Proof.
  split; [by apply reset_scan_prefix|apply add_scan_spec].
Qed.

(** ** The sort order is kept *)

Lemma lookup_qinsert_cases {A} (l : list A) (pos : Z) x (j : nat) a :
  0 ≤ pos ≤ QList.count l →
  QList.insert pos x l !! j = Some a ↔
  ((j < Z.to_nat pos)%nat ∧ l !! j = Some a) ∨
  (j = Z.to_nat pos ∧ a = x) ∨
  ((Z.to_nat pos < j)%nat ∧ l !! (j - 1)%nat = Some a).
Proof.
  intros Hpos. rewrite qinsert_in_range by done. unfold QList.count in Hpos.
  assert (length (take (Z.to_nat pos) l) = Z.to_nat pos) as Hlen
    by (rewrite length_take; lia).
  destruct (lt_eq_lt_dec j (Z.to_nat pos)) as [[Hlt| ->]|Hgt].
  - rewrite lookup_app_l, lookup_take_lt by lia.
    split; [by left; split|]. intros [[_ ?]|[[? _]|[? _]]]; [done|lia..].
  - rewrite lookup_app_r, Hlen, Nat.sub_diag by lia. simpl.
    split; [intros [= <-]; by right; left|].
    intros [[? _]|[[_ ->]|[? _]]]; [lia|done|lia].
  - rewrite lookup_app_r, Hlen by lia.
    replace (j - Z.to_nat pos)%nat with (S (j - 1 - Z.to_nat pos)) by lia.
    simpl. rewrite lookup_drop.
    replace (Z.to_nat pos + (j - 1 - Z.to_nat pos))%nat with (j - 1)%nat by lia.
    split; [by right; right; split|]. intros [[? _]|[[? _]|[_ ?]]]; [lia..|done].
Qed.

(** Where the scan puts a descriptor in a sorted list: after every entry of
    its category or of an earlier one, before every entry of a later one. *)
Lemma insert_position_sorted l meta pos :
  Forall one_flag l → one_flag meta → sorted_by_category l →
  insert_position l meta pos →
  0 ≤ pos ≤ QList.count l ∧
  (∀ (j : nat) a, (j < Z.to_nat pos)%nat → l !! j = Some a →
                  (category a ≤ category meta)%nat) ∧
  (∀ (j : nat) a, (Z.to_nat pos ≤ j)%nat → l !! j = Some a →
                  (category meta < category a)%nat).
Proof.
  intros Hflags Hmeta Hsorted Hpos.
  assert (∀ (j : nat) a, l !! j = Some a →
            sortIsLess a meta = (category meta <? category a)%nat) as Hcat.
  { intros j a Hj. apply sortIsLess_category; [|done].
    by eapply (Forall_lookup_1 _ _ _ _ Hflags). }
  destruct Hpos as [[-> Hall]|(i & m & -> & Hi & Hm & Hafter)].
  - split; [unfold QList.count; lia|]. split; [intros; lia|].
    intros j a _ Hj. apply Nat.ltb_lt. rewrite <- (Hcat j a Hj). by eapply Hall.
  - pose proof (lookup_lt_Some _ _ _ Hi) as Hlt.
    rewrite (Hcat _ _ Hi) in Hm. apply Nat.ltb_ge in Hm.
    split; [unfold QList.count; lia|]. split.
    + intros j a Hj Ha. destruct (decide (j = i)) as [->|Hne].
      * by simplify_eq.
      * etrans; [|exact Hm]. eapply (Hsorted j i); [lia|done..].
    + intros j a Hj Ha. apply Nat.ltb_lt. rewrite <- (Hcat j a Ha).
      eapply Hafter; [|done]. lia.
Qed.

Lemma insert_keeps_sorted l meta pos :
  Forall one_flag l → one_flag meta → sorted_by_category l →
  insert_position l meta pos →
  sorted_by_category (QList.insert pos meta l).
Proof.
  intros Hflags Hmeta Hsorted Hpos.
  destruct (insert_position_sorted l meta pos) as (Hrange & Hbefore & Hafter);
    try done.
  intros i j a b Hij Hi Hj.
  apply lookup_qinsert_cases in Hi; [|done].
  apply lookup_qinsert_cases in Hj; [|done].
  destruct Hi as [[Hi1 Hi]|[[Hi1 Hi]|[Hi1 Hi]]],
           Hj as [[Hj1 Hj]|[[Hj1 Hj]|[Hj1 Hj]]]; subst; try lia.
  - by eapply (Hsorted i j).
  - by eapply Hbefore.
  - eapply (Hsorted i (j - 1)%nat); [lia|done..].
  - apply Nat.lt_le_incl. eapply (Hafter (j - 1)%nat); [lia|done].
  - eapply (Hsorted (i - 1)%nat (j - 1)%nat); [lia|done..].
Qed.

Lemma insert_keeps_engine_order l (map : list Z) meta pos k (shift : Z → Z) :
  length l = length map → 0 ≤ pos ≤ QList.count l →
  engine_order_within_category l map →
  (∀ x y, x < y → shift x < shift y) →
  (∀ (j : nat) a e, (j < Z.to_nat pos)%nat → l !! j = Some a →
     map !! j = Some e → category a = category meta → shift e < k) →
  (∀ (j : nat) a, (Z.to_nat pos ≤ j)%nat → l !! j = Some a →
     category a ≠ category meta) →
  engine_order_within_category (QList.insert pos meta l)
    (QList.insert pos k (shift <$> map)).
Proof.
  intros Hlen Hpos Horder Hmono Hbefore Hafter i j a b ea eb Hij Hi Hj Hei Hej Hcat.
  assert (0 ≤ pos ≤ QList.count (shift <$> map)) as Hpos'
    by (unfold QList.count in *; rewrite length_fmap; lia).
  apply lookup_qinsert_cases in Hi; [|done].
  apply lookup_qinsert_cases in Hj; [|done].
  apply lookup_qinsert_cases in Hei; [|done].
  apply lookup_qinsert_cases in Hej; [|done].
  rewrite !list_lookup_fmap in Hei, Hej.
  destruct Hi as [[Hi1 Hi]|[[Hi1 Hi]|[Hi1 Hi]]],
           Hj as [[Hj1 Hj]|[[Hj1 Hj]|[Hj1 Hj]]]; subst; try lia;
    destruct Hei as [[Hei1 Hei]|[[Hei1 Hei]|[Hei1 Hei]]]; subst; try lia;
    destruct Hej as [[Hej1 Hej]|[[Hej1 Hej]|[Hej1 Hej]]]; subst; try lia;
    repeat match goal with
    | H : _ <$> _ = Some _ |- _ =>
        apply fmap_Some in H as (? & ? & ->)
    end.
  - apply Hmono. by eapply (Horder i j).
  - by eapply Hbefore.
  - apply Hmono. eapply (Horder i (j - 1)%nat); [lia|done..].
  - exfalso. eapply (Hafter (j - 1)%nat); [lia|done..].
  - apply Hmono. eapply (Horder (i - 1)%nat (j - 1)%nat); [lia|done..].
Qed.

Lemma Forall_one_flag_qinsert l meta pos :
  Forall one_flag l → one_flag meta → Forall one_flag (QList.insert pos meta l).
Proof.
  intros Hl Hmeta. rewrite qinsert_perm. by apply Forall_cons.
Qed.

(** The loop of [reset] keeps whatever each of its two steps keeps. *)
Lemma reset_loop_invariant metadataForService fs (P : Z → State → Prop) (k : nat) :
  (∀ i s f newIndex,
     0 ≤ i → P i s → fs !! Z.to_nat i = Some f → Mlt.loader f = 0 →
     reset_scan (m_metaList s) (metadataForService f) (length (m_metaList s))
       (QList.count (m_metaList s) - 1) (QList.count (m_metaList s))
     = Some newIndex →
     P (i + 1)
       (set_mltIndexMap (QList.insert newIndex i (m_mltIndexMap s))
          (set_metaList
             (QList.insert newIndex (metadataForService f) (m_metaList s)) s))) →
  (∀ i s f, 0 ≤ i → P i s → fs !! Z.to_nat i = Some f → Mlt.loader f ≠ 0 →
            P (i + 1) s) →
  ∀ fuel i s,
    0 ≤ i ≤ Z.of_nat (length fs) →
    Z.of_nat (length fs) - i ≤ Z.of_nat k → (k ≤ fuel)%nat → P i s →
    ∃ s', reset_loop metadataForService (Mlt.mkProducer (Some fs)) fuel i
            (Z.of_nat (length fs)) s = Some s' ∧
          P (Z.of_nat (length fs)) s'.
Proof.
  intros Hshow Hskip. induction k as [|k IH]; intros fuel i s Hi Hk Hfuel HP.
  - exists s. assert (i = Z.of_nat (length fs)) as -> by lia.
    split; [|done]. destruct fuel; simpl; by zcmp.
  - destruct fuel as [|fuel]; [lia|]. simpl.
    destruct (Z.ltb_spec i (Z.of_nat (length fs))).
    2:{ exists s. by assert (i = Z.of_nat (length fs)) as -> by lia. }
    destruct (lookup_lt_is_Some_2 fs (Z.to_nat i)) as [f Hf]; [lia|].
    unfold Mlt.filter. simpl.
    assert ((0 <=? i) && (i <? Z.of_nat (length fs)) = true) as ->
      by (apply andb_true_iff; split; zcmp).
    rewrite Hf.
    destruct (Z.eqb_spec (Mlt.loader f) 0) as [Hloader|Hloader].
    + destruct (reset_scan (m_metaList s) (metadataForService f)
                  (length (m_metaList s)) (QList.count (m_metaList s) - 1)
                  (QList.count (m_metaList s))) as [newIndex|] eqn:Hscan.
      * simpl. apply IH; [lia..|]. apply (Hshow i s f newIndex); [lia|done..].
      * exfalso.
        destruct (reset_scan_returns (m_metaList s) (metadataForService f)
                    (length (m_metaList s)) (length (m_metaList s))
                    (QList.count (m_metaList s))) as [x Hx]; [lia..|].
        unfold QList.count in *. congruence.
    + simpl. apply IH; [lia..|]. apply (Hskip i s f); [lia|done..].
Qed.

(** The order of the rows [reset] builds. *)
Lemma reset_sorts_chain
    (fs : list Mlt.Filter) (MLT_producer : option Mlt.Producer)
    (metadataForService : Mlt.Filter → option QmlMetadata) (s : State) :
  (∀ f, one_flag (metadataForService f)) →
  ∃ s',
    reset (Some (Mlt.mkProducer (Some fs))) MLT_producer false
      metadataForService s = Some s' ∧
    in_sort_order s' ∧ lengths_agree s'.
Proof.
  intros Hflags. unfold reset. simpl.
  set (s0 := set_mltIndexMap [] (set_metaList []
       (set_producer (Some (Mlt.mkProducer (Some fs))) (emit BeginResetModel s)))).
  destruct (reset_loop_invariant metadataForService fs
    (λ i s, lengths_agree s ∧ Forall (λ e, e < i) (m_mltIndexMap s) ∧
            in_sort_order s)
    (length fs)) with (fuel := length fs) (i := 0) (s := s0)
    as (s' & Hloop & Hlen & _ & Hsorted).
  - intros i s1 f newIndex Hi (Hlen & Hbound & Hone & Hsorted & Horder) Hf Hl Hscan.
    unfold QList.count in Hscan. rewrite reset_scan_prefix in Hscan by lia.
    destruct (add_scan_spec (m_metaList s1) (metadataForService f))
      as (pos & Hpos & Hins & Hrange).
    unfold QList.count in Hpos.
    assert (pos = newIndex) as -> by congruence.
    destruct (insert_position_sorted _ _ _ Hone (Hflags f) Hsorted Hins)
      as (_ & Hbefore & Hafter).
    unfold lengths_agree, in_sort_order in *. simpl.
    split_and!.
    + by rewrite !length_qinsert, Hlen.
    + rewrite qinsert_perm. apply Forall_cons. split; [lia|].
      eapply Forall_impl; [exact Hbound|]. intros e He. simpl in *. lia.
    + by apply Forall_one_flag_qinsert.
    + by apply insert_keeps_sorted.
    + rewrite <- (list_fmap_id (m_mltIndexMap s1)) at 1.
      apply insert_keeps_engine_order; try done.
      * intros j a e _ _ He _.
        by apply (Forall_lookup_1 _ _ _ _ Hbound He).
      * intros j a Hj Ha Heq. specialize (Hafter j a Hj Ha). lia.
  - intros i s1 f Hi (Hlen & Hbound & Hsorted) _ _. split_and!; [done| |done].
    eapply Forall_impl; [exact Hbound|]. intros e He. simpl in *. lia.
  - lia.
  - lia.
  - lia.
  - split; [done|]. split; [by apply Forall_nil|].
    split; [by apply Forall_nil|]. split.
    + intros i j a b _ Hi. unfold s0 in Hi. simpl in Hi.
      by rewrite lookup_nil in Hi.
    + intros i j a b ea eb _ Hi. unfold s0 in Hi. simpl in Hi.
      by rewrite lookup_nil in Hi.
  - unfold Mlt.filter_count. simpl. rewrite Nat2Z.id. fold s0. rewrite Hloop.
    simpl. eexists. split; [done|]. split; [|done].
    unfold in_sort_order in *. by simpl.
Qed.

(** X7.  [reset] on a producer with a chain, outside a playlist, with
    descriptors of one flag at most, leaves the rows sorted GPU, video,
    audio, and within a category in the order of the chain. *)
Theorem reset_in_sort_order
    (fs : list Mlt.Filter) (MLT_producer : option Mlt.Producer)
    (metadataForService : Mlt.Filter → option QmlMetadata) (s : State) :
  (∀ f, one_flag (metadataForService f)) →
  ∃ s',
    reset (Some (Mlt.mkProducer (Some fs))) MLT_producer false
      metadataForService s = Some s' ∧
    in_sort_order s' ∧ lengths_agree s'.
Proof.
  intros Hflags.
  destruct (reset_sorts_chain fs MLT_producer metadataForService s Hflags)
    as (s' & Hreset & Hsorted & Hlen).
  exists s'. by split_and!.
Qed.

Lemma reset_in_sort_order_witness :
  ∃ s',
    reset (Some (Mlt.mkProducer (Some [Sample.fA; Sample.fLoader; Sample.fB])))
      None false (λ _, None) AttachedFiltersModel = Some s' ∧
    in_sort_order s'.
Proof.
  destruct (reset_in_sort_order [Sample.fA; Sample.fLoader; Sample.fB] None
              (λ _, None) AttachedFiltersModel) as (s' & Hreset & Hsorted & _).
  - intros f. exact I.
  - exists s'. split; [exact Hreset|exact Hsorted].
Defined.

(** [add] to rows in sort order. *)
Lemma add_sorted
    (filter : Mlt.Filter) (meta : QmlMetadata) (s : State) (p : Mlt.Producer) :
  m_producer s = Some p → lengths_agree s →
  in_sort_order s → one_flag (Some meta) →
  ∃ r s',
    add (Some filter) meta s = Some (r, s') ∧ in_sort_order s' ∧
    (∀ (j : nat) a, (j < Z.to_nat r)%nat → m_metaList s' !! j = Some a →
                    (category a ≤ category (Some meta))%nat) ∧
    (∀ (j : nat) a, (Z.to_nat r < j)%nat → m_metaList s' !! j = Some a →
                    (category (Some meta) < category a)%nat).
Proof.
  intros Hp Hlen (Hone & Hsorted & Horder) Hmeta.
  destruct (add_completes filter meta s p Hp Hlen)
    as (r & k & s' & Hadd & Hins & Hr & Hk & Htarget).
  destruct (add_Some _ _ _ _ _ Hadd)
    as (k' & p' & _ & Hk' & _ & _ & Hmap' & Hmeta' & _).
  assert (k' = k) as -> by congruence.
  destruct (insert_position_sorted _ _ _ Hone Hmeta Hsorted Hins)
    as (_ & Hbefore & Hafter).
  exists r, s'. split; [done|]. unfold in_sort_order. rewrite Hmeta', Hmap'.
  split; [split_and!|split].
  - by apply Forall_one_flag_qinsert.
  - by apply insert_keeps_sorted.
  - apply insert_keeps_engine_order; try done.
    + intros x y Hxy. unfold add_shift. zcmp.
    + intros j a e Hj Ha He Hcat.
      assert (e < k); [|unfold add_shift; zcmp].
      destruct Htarget as [[Hnil _]|[(_ & -> & _)|(_ & Hr0 & v & Hv & ->)]].
      * by rewrite Hnil in He.
      * simpl in Hj. lia.
      * destruct (decide (j = Z.to_nat (r - 1))) as [->|Hne]; [simplify_eq; lia|].
        destruct (lookup_lt_is_Some_2 (m_metaList s) (Z.to_nat (r - 1)))
          as [b Hb].
        { apply lookup_lt_Some in Hv. unfold lengths_agree in Hlen. lia. }
        assert (e < v); [|lia].
        eapply (Horder j (Z.to_nat (r - 1)) a b); [lia|done..|].
        assert (Z.to_nat (r - 1) < Z.to_nat r)%nat as Hlt1 by lia.
        assert (j < Z.to_nat (r - 1))%nat as Hlt2 by lia.
        pose proof (Hbefore (Z.to_nat (r - 1)) b Hlt1 Hb).
        pose proof (Hsorted j (Z.to_nat (r - 1)) a b Hlt2 Ha Hb). lia.
    + intros j a Hj Ha Heq. specialize (Hafter j a Hj Ha). lia.
  - intros j a Hj Ha. apply lookup_qinsert_cases in Ha; [|done].
    destruct Ha as [[_ Ha]|[[? _]|[? _]]]; [|lia..]. by eapply Hbefore.
  - intros j a Hj Ha. apply lookup_qinsert_cases in Ha; [|done].
    destruct Ha as [[? _]|[[? _]|[_ Ha]]]; [lia..|].
    eapply (Hafter (j - 1)%nat); [lia|done].
Qed.

(** X8.  [add] of a descriptor with one flag at most to rows in sort order
    leaves them in sort order: the new row comes after every row of its
    category or of an earlier one and before every row of a later one. *)
Theorem add_keeps_sort_order
    (filter : Mlt.Filter) (meta : QmlMetadata) (s : State) (p : Mlt.Producer) :
  m_producer s = Some p → lengths_agree s →
  in_sort_order s → one_flag (Some meta) →
  ∃ r s',
    add (Some filter) meta s = Some (r, s') ∧ in_sort_order s' ∧
    (∀ (j : nat) a, (j < Z.to_nat r)%nat → m_metaList s' !! j = Some a →
                    (category a ≤ category (Some meta))%nat) ∧
    (∀ (j : nat) a, (Z.to_nat r < j)%nat → m_metaList s' !! j = Some a →
                    (category (Some meta) < category a)%nat).
Proof.
  intros Hp Hlen Hsorted Hmeta.
  destruct (add_sorted filter meta s p Hp Hlen Hsorted Hmeta)
    as (r & s' & Hadd & Hsorted' & Hbefore & Hafter).
  exists r, s'. by split_and!.
Qed.

Lemma add_keeps_sort_order_witness :
  ∃ r s',
    add (Some Sample.fNew) Sample.mGpu Sample.ABC = Some (r, s') ∧
    in_sort_order s'.
Proof.
  destruct (add_keeps_sort_order Sample.fNew Sample.mGpu Sample.ABC
              (Mlt.mkProducer (Some [Sample.fA; Sample.fB; Sample.fC])))
    as (r & s' & Hadd & Hsorted & _).
  - reflexivity.
  - reflexivity.
  - split_and!.
    + repeat (apply Forall_cons; split; [reflexivity|]). by apply Forall_nil.
    + intros [|[|[|i]]] [|[|[|j]]] a b Hij Hi Hj; simplify_eq/=; lia.
    + intros [|[|[|i]]] [|[|[|j]]] a b ea eb Hij Hi Hj Hei Hej _;
        simplify_eq/=; lia.
  - reflexivity.
  - exists r, s'. split; [exact Hadd|exact Hsorted].
Defined.

Lemma lookup_delete_cases {A} (l : list A) (i j : nat) :
  delete i l !! j = l !! (if (j <? i)%nat then j else S j).
Proof.
  destruct (Nat.ltb_spec j i).
  - by apply list_lookup_delete_lt.
  - by apply list_lookup_delete_ge.
Qed.

(** [remove] of a row of a list in sort order. *)
Lemma remove_sorted (row : Z) (s : State) :
  consistent s → in_sort_order s →
  0 ≤ row < QList.count (m_metaList s) →
  ∃ s', remove row s = Some s' ∧ in_sort_order s' ∧ lengths_agree s'.
Proof.
  intros Hs (Hone & Hsorted & Horder) Hrow.
  pose proof Hs as (_ & _ & _ & Hnodup & _).
  destruct (remove_on_consistent row s Hs Hrow)
    as (s' & k & f & Hrem & Hs' & Hk & _ & _ & _ & Hmap & _ & Hmeta).
  exists s'. split; [done|]. split; [|apply Hs'].
  unfold in_sort_order. rewrite Hmeta, Hmap. split_and!.
  - by apply Forall_delete.
  - intros i j a b Hij Hi Hj. rewrite lookup_delete_cases in Hi, Hj.
    eapply Hsorted; [|exact Hi|exact Hj].
    destruct (Nat.ltb_spec i (Z.to_nat row)), (Nat.ltb_spec j (Z.to_nat row)); lia.
  - intros i j a b ea eb Hij Hi Hj Hei Hej Hcat.
    rewrite list_lookup_fmap in Hei, Hej.
    apply fmap_Some in Hei as (ea' & Hei & ->).
    apply fmap_Some in Hej as (eb' & Hej & ->).
    rewrite lookup_delete_cases in Hi, Hj.
    rewrite lookup_delete_cases in Hei, Hej.
    assert (ea' < eb') as Hlt.
    { eapply Horder; [|exact Hi|exact Hj|exact Hei|exact Hej|exact Hcat].
      destruct (Nat.ltb_spec i (Z.to_nat row)), (Nat.ltb_spec j (Z.to_nat row));
        lia. }
    assert (ea' ≠ k) as Hne.
    { intros ->. pose proof (NoDup_lookup _ _ _ _ Hnodup Hei Hk).
      destruct (Nat.ltb_spec i (Z.to_nat row)); lia. }
    unfold remove_shift. zcmp.
Qed.

(** X9.  [remove] of a row of a consistent state in sort order leaves the
    rows in sort order. *)
Theorem remove_keeps_sort_order (row : Z) (s : State) :
  consistent s → in_sort_order s →
  0 ≤ row < QList.count (m_metaList s) →
  ∃ s', remove row s = Some s' ∧ in_sort_order s' ∧ lengths_agree s'.
Proof.
  intros Hs Hsorted Hrow.
  destruct (remove_sorted row s Hs Hsorted Hrow) as (s' & Hrem & Hsorted' & Hlen).
  exists s'. by split_and!.
Qed.

Lemma remove_keeps_sort_order_witness :
  ∃ s', remove 1 Sample.ABC = Some s' ∧ in_sort_order s'.
Proof.
  destruct (remove_keeps_sort_order 1 Sample.ABC consistent_ABC)
    as (s' & Hrem & Hsorted & _).
  - split_and!.
    + repeat (apply Forall_cons; split; [reflexivity|]). by apply Forall_nil.
    + intros [|[|[|i]]] [|[|[|j]]] a b Hij Hi Hj; simplify_eq/=; lia.
    + intros [|[|[|i]]] [|[|[|j]]] a b ea eb Hij Hi Hj Hei Hej _;
        simplify_eq/=; lia.
  - unfold QList.count. simpl. lia.
  - exists s'. split; [exact Hrem|exact Hsorted].
Defined.

(** ** What [data] shows *)

Lemma at_out_of_range {A} (l : list A) i :
  ¬ (0 ≤ i < QList.count l) → QList.at_ l i = None.
Proof.
  intros H. destruct (QList.at_ l i) as [x|] eqn:Hat; [|done].
  apply at_Some in Hat as [H0 Hx]. apply lookup_lt_Some in Hx.
  unfold QList.count in H. lia.
Qed.

(** A map that tracks a chain has no more rows than the chain has
    filters. *)
Lemma tracks_length fs (map : list Z) :
  tracks fs map → (length map ≤ length fs)%nat.
Proof.
  intros (Hrange & Hnodup & _).
  assert (map ⊆+ seqZ 0 (Z.of_nat (length fs))) as Hsub.
  { apply NoDup_submseteq; [done|]. intros e He. apply elem_of_seqZ.
    pose proof (proj1 (Forall_forall _ _) Hrange e He) as Hr. simpl in Hr. lia. }
  apply submseteq_length in Hsub. rewrite length_seqZ in Hsub. lia.
Qed.

(** Every row of a consistent state points at a filter of the chain. *)
Lemma designated_row s (r : nat) :
  consistent s → (r < length (m_metaList s))%nat →
  ∃ meta e f,
    m_metaList s !! r = Some meta ∧ m_mltIndexMap s !! r = Some e ∧
    0 ≤ e ∧ chain s !! Z.to_nat e = Some f ∧
    designated s !! r = Some (Some f).
Proof.
  intros (_ & Hlen & Hrange & _) Hr.
  destruct (lookup_lt_is_Some_2 (m_metaList s) r) as [meta Hmeta]; [done|].
  destruct (lookup_lt_is_Some_2 (m_mltIndexMap s) r) as [e He].
  { unfold lengths_agree in Hlen. lia. }
  pose proof (Forall_lookup_1 _ _ _ _ Hrange He) as Hin. simpl in Hin.
  destruct (lookup_lt_is_Some_2 (chain s) (Z.to_nat e)) as [f Hf]; [lia|].
  exists meta, e, f. split_and!; [done|done|lia|done|].
  unfold designated, filter_at. rewrite list_lookup_fmap, He. simpl.
  destruct (Z.leb_spec 0 e); [|lia]. by rewrite Hf.
Qed.

(** X10.  On a consistent state [getMetadata], [getFilter] and [data]
    answer for every row of the list: the filter is the one the index map
    designates; the text is the name of the descriptor, or the service name of the
    row's engine filter when the row has no descriptor; the check box is
    checked exactly when that filter is not disabled; the type is the label
    of the descriptor's category. *)
Theorem data_shows_every_row (index : QModelIndex) (s : State) :
  consistent s → 0 ≤ row index < rowCount s →
  ∃ meta f,
    getMetadata s (row index) = Some meta ∧
    getFilter s (row index) = Some (Some f) ∧
    m_metaList s !! Z.to_nat (row index) = Some meta ∧
    designated s !! Z.to_nat (row index) = Some (Some f) ∧
    data index DisplayRole s = Some (VString (display_text meta f)) ∧
    data index CheckStateRole s = Some (VCheckState (check_state (Some f))) ∧
    data index TypeDisplayRole s = Some (VString (type_label meta)).
Proof.
  intros Hs Hrow.
  destruct (consistent_producer s Hs) as [_ Hvalid].
  pose proof Hs as (Hsome & Hlen & Htracks).
  unfold rowCount in Hrow. rewrite Hvalid in Hrow. unfold QList.count in Hrow.
  destruct (designated_row s (Z.to_nat (row index)) Hs)
    as (meta & e & f & Hmeta & He & He0 & Hf & Hdes); [lia|].
  pose proof (tracks_length _ _ Htracks) as Hcount.
  unfold lengths_agree in Hlen.
  assert (QList.at_ (m_metaList s) (row index) = Some meta) as Hat
    by (apply at_Some; split; [lia|done]).
  assert (getFilter s (row index) = Some (Some f)) as Hget
    by (rewrite getFilter_designated, Hdes; [done|done|lia]).
  assert ((Mlt.filter_count (Mlt.mkProducer (Some (chain s))) <=? row index)
          = false) as Hguard.
  { apply Z.leb_gt. unfold Mlt.filter_count. simpl. lia. }
  exists meta, f. split.
  { unfold getMetadata, QList.count.
    by assert ((row index <? Z.of_nat (length (m_metaList s))) = true) as ->
      by (apply Z.ltb_lt; lia). }
  split; [done|]. split; [done|]. split; [done|].
  unfold data. rewrite Hvalid, Hguard, Hat, Hget. simpl.
  split_and!; [by destruct meta|done|].
  unfold type_label. destruct meta as [[n sv o g a]|]; simpl; [|done].
  by destruct a, g.
Qed.

Lemma data_shows_every_row_witness :
  data (createIndex 1 0) DisplayRole Sample.ABC = Some (VString "B") ∧
  data (createIndex 1 0) CheckStateRole Sample.ABC = Some (VCheckState Checked) ∧
  data (createIndex 1 0) TypeDisplayRole Sample.ABC = Some (VString "Video").
Proof.
  destruct (data_shows_every_row (createIndex 1 0) Sample.ABC consistent_ABC)
    as (meta & f & _ & _ & Hmeta & Hf & Hdisplay & Hcheck & Htype).
  - unfold rowCount, QList.count. simpl. lia.
  - injection Hmeta as <-. injection Hf as <-.
    split; [exact Hdisplay|]. split; [exact Hcheck|exact Htype].
Defined.

(** X11.  The guard of [data] compares the row with the engine's filter
    count and does not look at the list: for a row outside the list and
    below the filter count (a negative row, or a row at or past the end when
    the chain holds filters the list does not show) the display and type
    roles subscript the descriptor list out of range; the check state role
    goes through the guard of [getFilter] and answers unchecked for a row
    at or past the end. *)
Theorem data_row_outside_list
    (index : QModelIndex) (s : State) (p : Mlt.Producer) :
  valid_producer s = Some p → lengths_agree s →
  row index < Mlt.filter_count p →
  ¬ (0 ≤ row index < QList.count (m_metaList s)) →
  data index DisplayRole s = None ∧
  data index TypeDisplayRole s = None ∧
  data index CheckStateRole s =
    (if row index <? 0 then None else Some (VCheckState Unchecked)).
Proof.
  intros Hvalid Hlen Hcount Hrow.
  assert ((Mlt.filter_count p <=? row index) = false) as Hguard
    by (apply Z.leb_gt; lia).
  unfold data. rewrite Hvalid, Hguard, at_out_of_range by done. simpl.
  split; [done|]. split; [done|].
  unfold getFilter. rewrite Hvalid.
  unfold lengths_agree, QList.count in *.
  destruct (Z.ltb_spec (row index) 0).
  - assert ((row index <? Z.of_nat (length (m_mltIndexMap s))) = true) as ->
      by (apply Z.ltb_lt; lia).
    by rewrite at_negative.
  - by assert ((row index <? Z.of_nat (length (m_mltIndexMap s))) = false) as ->
      by (apply Z.ltb_ge; lia).
Qed.

Lemma data_row_outside_list_witness :
  data (createIndex 3 0) DisplayRole Sample.with_loader = None ∧
  data noIndex TypeDisplayRole Sample.with_loader = None.
Proof.
  split.
  - apply (data_row_outside_list (createIndex 3 0) Sample.with_loader
             (Mlt.mkProducer
                (Some [Sample.fA; Sample.fLoader; Sample.fB; Sample.fC]))).
    + reflexivity.
    + reflexivity.
    + reflexivity.
    + unfold QList.count. simpl. lia.
  - apply (data_row_outside_list noIndex Sample.with_loader
             (Mlt.mkProducer
                (Some [Sample.fA; Sample.fLoader; Sample.fB; Sample.fC]))).
    + reflexivity.
    + reflexivity.
    + reflexivity.
    + unfold QList.count. simpl. lia.
Defined.

(** ** The check box and what [data] shows of it *)

Lemma data_row index s p meta f :
  valid_producer s = Some p → row index < Mlt.filter_count p →
  QList.at_ (m_metaList s) (row index) = Some meta →
  getFilter s (row index) = Some (Some f) →
  data index DisplayRole s = Some (VString (display_text meta f)) ∧
  data index CheckStateRole s = Some (VCheckState (check_state (Some f))) ∧
  data index TypeDisplayRole s = Some (VString (type_label meta)).
Proof.
  intros Hvalid Hcount Hat Hget.
  assert ((Mlt.filter_count p <=? row index) = false) as Hguard
    by (apply Z.leb_gt; lia).
  unfold data. rewrite Hvalid, Hguard, Hat, Hget. simpl.
  split_and!; [by destruct meta|done|].
  unfold type_label. destruct meta as [[n sv o g a]|]; simpl; [|done].
  by destruct a, g.
Qed.

(** The filter [f] after [setData] wrote its "disable" property. *)
Lemma setData_on_consistent index s :
  consistent s → 0 ≤ row index < rowCount s →
  ∃ s' e f,
    setData index CheckStateRole s = Some (true, s') ∧ consistent s' ∧
    m_mltIndexMap s !! Z.to_nat (row index) = Some e ∧ 0 ≤ e ∧
    chain s !! Z.to_nat e = Some f ∧
    chain s' =
      <[Z.to_nat e :=
          Mlt.mkFilter (Mlt.handle f) (Mlt.mlt_service f)
            (if Mlt.disable f =? 0 then 1 else 0) (Mlt.loader f)
            (Mlt.shotcut_filter f)]> (chain s) ∧
    m_metaList s' = m_metaList s ∧ m_mltIndexMap s' = m_mltIndexMap s ∧
    m_dropRow s' = m_dropRow s ∧
    trace s' = trace s ++ [Changed; DataChanged (row index) (row index)].
Proof.
  intros Hs Hrow.
  destruct (consistent_producer s Hs) as [Hp Hvalid].
  pose proof Hs as (_ & Hlen & Hrange & Hnodup & Hhandles).
  unfold rowCount in Hrow. rewrite Hvalid in Hrow. unfold QList.count in Hrow.
  destruct (designated_row s (Z.to_nat (row index)) Hs)
    as (meta & e & f & Hmeta & He & He0 & Hf & Hdes); [lia|].
  assert (getFilter s (row index) = Some (Some f)) as Hget
    by (rewrite getFilter_designated, Hdes; [done|done|lia]).
  unfold setData. rewrite Hget, Hp. simpl.
  unfold Mlt.set_disable. simpl.
  rewrite (with_disable_unique _ _ _ _ Hhandles Hf).
  eexists _, e, f. split; [done|]. simpl.
  split; [|split_and!; try done; by rewrite <- app_assoc].
  eapply consistent_intro; [done|done|]. simpl.
  split_and!; [by rewrite length_insert|done|].
  rewrite list_fmap_insert. simpl. rewrite list_insert_id; [done|].
  by rewrite list_lookup_fmap, Hf.
Qed.

Lemma getFilter_chain s (r e : Z) :
  consistent s → 0 ≤ r → m_mltIndexMap s !! Z.to_nat r = Some e →
  getFilter s r = Some (filter_at (chain s) e).
Proof.
  intros Hs Hr He. rewrite getFilter_designated; [|apply Hs|done].
  unfold designated. by rewrite list_lookup_fmap, He.
Qed.

(** X12.  [setData] with the check state role on a row of a consistent
    state flips the check box [data] shows for the row and nothing else
    [data] shows, for this row or any other; it announces the change of the
    row; a second call brings the check box back. *)
Theorem setData_toggles_check_state (index : QModelIndex) (s : State) :
  consistent s → 0 ≤ row index < rowCount s →
  ∃ s' s'' c,
    setData index CheckStateRole s = Some (true, s') ∧ consistent s' ∧
    data index CheckStateRole s = Some (VCheckState c) ∧
    data index CheckStateRole s' = Some (VCheckState (toggled c)) ∧
    (∀ role, role ≠ CheckStateRole → data index role s' = data index role s) ∧
    (∀ other role, row other ≠ row index →
                   data other role s' = data other role s) ∧
    trace s' = trace s ++ [Changed; DataChanged (row index) (row index)] ∧
    setData index CheckStateRole s' = Some (true, s'') ∧
    data index CheckStateRole s'' = Some (VCheckState c).
Proof.
  intros Hs Hrow.
  destruct (setData_on_consistent index s Hs Hrow)
    as (s' & e & f & Hset & Hs' & He & He0 & Hf & Hchain & Hmeta & Hmap & _ & Ht).
  assert (0 ≤ row index < rowCount s') as Hrow'.
  { destruct (consistent_producer s Hs) as [_ Hv].
    destruct (consistent_producer s' Hs') as [_ Hv'].
    unfold rowCount in *. rewrite Hv in Hrow. by rewrite Hv', Hmeta. }
  destruct (setData_on_consistent index s' Hs' Hrow')
    as (s'' & e' & f' & Hset' & Hs'' & He' & _ & Hf' & Hchain' & Hmeta' & Hmap'
        & _ & _).
  rewrite Hmap in He'. assert (e' = e) as -> by congruence.
  assert (Z.to_nat e < length (chain s))%nat as Helt
    by (by eapply lookup_lt_Some).
  rewrite Hchain, list_lookup_insert_eq in Hf' by done. injection Hf' as <-.
  simpl in Hchain'.
  destruct (consistent_producer s Hs) as [_ Hvalid].
  destruct (consistent_producer s' Hs') as [_ Hvalid'].
  destruct (consistent_producer s'' Hs'') as [_ Hvalid''].
  pose proof Hs as (_ & Hlen & Htracks).
  pose proof (tracks_length _ _ Htracks) as Hcount.
  unfold rowCount in Hrow. rewrite Hvalid in Hrow.
  unfold QList.count, lengths_agree in *.
  destruct (lookup_lt_is_Some_2 (m_metaList s) (Z.to_nat (row index)))
    as [meta Hm]; [lia|].
  assert (QList.at_ (m_metaList s) (row index) = Some meta) as Hat
    by (apply at_Some; split; [lia|done]).
  assert (∀ fs, filter_at fs e = fs !! Z.to_nat e) as Hfa
    by (intros fs; unfold filter_at; by destruct (Z.leb_spec 0 e); [|lia]).
  assert (length (chain s') = length (chain s)) as Hl'
    by (by rewrite Hchain, length_insert).
  assert (length (chain s'') = length (chain s)) as Hl''
    by (by rewrite Hchain', length_insert, Hl').
  destruct (data_row index s _ meta f Hvalid) as (Hd1 & Hd2 & Hd3);
    [unfold Mlt.filter_count; simpl; lia|done| |].
  { rewrite (getFilter_chain s _ e) by (done || lia). by rewrite Hfa, Hf. }
  destruct (data_row index s' _ meta
              (Mlt.mkFilter (Mlt.handle f) (Mlt.mlt_service f)
                 (if Mlt.disable f =? 0 then 1 else 0) (Mlt.loader f)
                 (Mlt.shotcut_filter f)) Hvalid') as (Hd1' & Hd2' & Hd3');
    [unfold Mlt.filter_count; simpl; lia|by rewrite Hmeta| |].
  { rewrite (getFilter_chain s' _ e) by (done || lia || by rewrite Hmap).
    by rewrite Hfa, Hchain, list_lookup_insert_eq. }
  destruct (data_row index s'' _ meta
              (Mlt.mkFilter (Mlt.handle f) (Mlt.mlt_service f)
                 (if (if Mlt.disable f =? 0 then 1 else 0) =? 0 then 1 else 0)
                 (Mlt.loader f) (Mlt.shotcut_filter f)) Hvalid'')
    as (_ & Hd2'' & _); [unfold Mlt.filter_count; simpl; lia|by rewrite Hmeta', Hmeta| |].
  { rewrite (getFilter_chain s'' _ e) by (done || lia || by rewrite Hmap', Hmap).
    rewrite Hfa, Hchain', list_lookup_insert_eq; [done|lia]. }
  exists s', s'', (check_state (Some f)).
  split; [done|]. split; [done|]. split; [done|]. split.
  { rewrite Hd2'. simpl. by destruct (Mlt.disable f =? 0). }
  split.
  { intros [| | |z] Hrole; [by rewrite Hd1, Hd1'|done|by rewrite Hd3, Hd3'|].
    unfold data. rewrite Hvalid, Hvalid'. unfold Mlt.filter_count. simpl.
    by rewrite Hl'. }
  split.
  { intros other role Hother.
    assert (getFilter s' (row other) = getFilter s (row other)) as Hget.
    { unfold getFilter. rewrite Hvalid, Hvalid', Hmap.
      destruct (row other <? _); [|done].
      destruct (QList.at_ (m_mltIndexMap s) (row other)) as [e1|] eqn:He1;
        [simpl|done].
      apply at_Some in He1 as [Ho He1]. rewrite !filter_eq_filter_at.
      assert (e1 ≠ e) as Hne.
      { intros ->. destruct Htracks as (_ & Hnodup & _).
        pose proof (NoDup_lookup _ _ _ _ Hnodup He He1). lia. }
      f_equal. unfold filter_at. destruct (Z.leb_spec 0 e1); [|done].
      rewrite Hchain. apply list_lookup_insert_ne. lia. }
    unfold data. rewrite Hvalid, Hvalid', Hmeta, Hget.
    unfold Mlt.filter_count. simpl. by rewrite Hl'. }
  split; [done|]. split; [done|].
  rewrite Hd2''. simpl. by destruct (Mlt.disable f =? 0).
Qed.

Lemma setData_toggles_check_state_witness :
  ∃ s', setData (createIndex 1 0) CheckStateRole Sample.ABC = Some (true, s') ∧
        data (createIndex 1 0) CheckStateRole Sample.ABC
        = Some (VCheckState Checked) ∧
        data (createIndex 1 0) CheckStateRole s' = Some (VCheckState Unchecked).
Proof.
  destruct (setData_toggles_check_state (createIndex 1 0) Sample.ABC
              consistent_ABC)
    as (s' & s'' & c & Hset & _ & Hc & Hc' & _).
  - unfold rowCount, QList.count. simpl. lia.
  - exists s'. split; [exact Hset|].
    assert (c = Checked) as -> by (by injection Hc as <-).
    split; [exact Hc|exact Hc'].
Defined.

(** ** [move]: where a row lands, and the way back *)

Lemma lookup_moved_row_cases {A} (l : list A) (a b j : nat) x :
  (a < length l)%nat → (b < length l)%nat → l !! a = Some x →
  moved_row l a b x !! j = l !! move_source a b j.
Proof.
  intros Ha Hb Hx. unfold moved_row, move_source.
  assert (length (delete a l) = pred (length l)) as Hlen.
  { rewrite length_delete; [lia|]. by eexists. }
  assert (length (take b (delete a l)) = b) as Htake
    by (rewrite length_take; lia).
  destruct (Nat.eqb_spec j b) as [->|Hne].
  - rewrite lookup_app_r, Htake, Nat.sub_diag by lia. by simpl.
  - destruct (Nat.ltb_spec j b) as [Hlt|Hge].
    + rewrite lookup_app_l, lookup_take_lt by lia. apply lookup_delete_cases.
    + rewrite lookup_app_r, Htake by lia.
      replace (j - b)%nat with (S (pred j - b)) by lia. simpl.
      rewrite lookup_drop.
      replace (b + (pred j - b))%nat with (pred j) by lia.
      apply lookup_delete_cases.
Qed.

Lemma move_source_inverse (a b j : nat) :
  move_source a b (move_source b a j) = j.
Proof.
  unfold move_source. cbv zeta.
  repeat match goal with
  | |- context [(?x =? ?y)%nat] =>
      destruct (Nat.eqb_spec x y); cbv beta iota in *; try lia
  | |- context [(?x <? ?y)%nat] =>
      destruct (Nat.ltb_spec x y); cbv beta iota in *; try lia
  | H : context [(?x =? ?y)%nat] |- _ =>
      destruct (Nat.eqb_spec x y); cbv beta iota in *; try lia
  | H : context [(?x <? ?y)%nat] |- _ =>
      destruct (Nat.ltb_spec x y); cbv beta iota in *; try lia
  end.
Qed.

(** [move] between two rows of a consistent state. *)
Lemma move_on_consistent (fromRow toRow : Z) (s : State) :
  consistent s →
  0 ≤ fromRow < QList.count (m_metaList s) →
  0 ≤ toRow < QList.count (m_metaList s) → fromRow ≠ toRow →
  ∃ s' meta f,
    move fromRow toRow s = Some (true, s') ∧ consistent s' ∧
    m_metaList s !! Z.to_nat fromRow = Some meta ∧
    designated s !! Z.to_nat fromRow = Some (Some f) ∧
    m_metaList s' =
      moved_row (m_metaList s) (Z.to_nat fromRow) (Z.to_nat toRow) meta ∧
    designated s' =
      moved_row (designated s) (Z.to_nat fromRow) (Z.to_nat toRow) (Some f) ∧
    m_dropRow s' = m_dropRow s ∧ chain s' ≡ₚ chain s.
Proof.
  intros Hs Hfrom Hto Hne.
  set (d := if fromRow <? toRow then toRow + 1 else toRow).
  assert (post_move_row fromRow d = toRow) as Hpost
    by (unfold post_move_row, d; zcmp).
  destruct (moveRows_on_consistent noIndex fromRow d s Hs)
    as (s' & meta & a & b & f & Hmove & Hs' & Hmeta & Ha & Hf & Ha0 & _ & Hchain
        & Hlist & Hdes & Hdrop).
  - unfold beginMoveRows, d. apply negb_true_iff, andb_false_iff.
    destruct (Z.ltb_spec fromRow toRow).
    + right. apply Z.leb_gt. lia.
    + left. apply Z.leb_gt. lia.
  - done.
  - unfold d. zcmp.
  - rewrite Hpost. lia.
  - rewrite Hpost in Hlist, Hdes. exists s', meta, f.
    split_and!; try done.
    + unfold move. fold d.
      assert ((fromRow <? 0) || (toRow <? 0) = false) as ->
        by (apply orb_false_iff; split; apply Z.ltb_ge; lia).
      done.
    + unfold designated, filter_at. rewrite list_lookup_fmap, Ha. simpl.
      destruct (Z.leb_spec 0 a); [|lia]. by rewrite Hf.
    + rewrite Hchain, <- Permutation_middle, take_drop.
      symmetry. by apply delete_Permutation.
Qed.

(** X13.  [move] between two different rows of a consistent state returns
    true and leaves a consistent state in which the descriptor and the
    engine filter of [fromRow] sit on [toRow], and every other row holds what
    a row of the list before held, in the same order. *)
Theorem move_lands_on_toRow (fromRow toRow : Z) (s : State) :
  consistent s →
  0 ≤ fromRow < QList.count (m_metaList s) →
  0 ≤ toRow < QList.count (m_metaList s) → fromRow ≠ toRow →
  ∃ s',
    move fromRow toRow s = Some (true, s') ∧ consistent s' ∧
    m_metaList s' !! Z.to_nat toRow = m_metaList s !! Z.to_nat fromRow ∧
    designated s' !! Z.to_nat toRow = designated s !! Z.to_nat fromRow ∧
    ∀ j : nat,
      m_metaList s' !! j
      = m_metaList s !! move_source (Z.to_nat fromRow) (Z.to_nat toRow) j ∧
      designated s' !! j
      = designated s !! move_source (Z.to_nat fromRow) (Z.to_nat toRow) j.
Proof.
  intros Hs Hfrom Hto Hne.
  destruct (move_on_consistent fromRow toRow s Hs Hfrom Hto Hne)
    as (s' & meta & f & Hmove & Hs' & Hmeta & Hf & Hlist & Hdes & _).
  pose proof Hs as (_ & Hlen & _).
  assert (length (designated s) = length (m_metaList s)) as Hldes
    by (unfold designated; by rewrite length_fmap).
  unfold QList.count in *.
  assert (∀ j : nat,
    m_metaList s' !! j
    = m_metaList s !! move_source (Z.to_nat fromRow) (Z.to_nat toRow) j ∧
    designated s' !! j
    = designated s !! move_source (Z.to_nat fromRow) (Z.to_nat toRow) j) as Hall.
  { intros j. rewrite Hlist, Hdes.
    split; apply lookup_moved_row_cases; (done || lia). }
  exists s'. split; [done|]. split; [done|].
  split; [|split; [|done]].
  - rewrite (proj1 (Hall _)). unfold move_source. by rewrite Nat.eqb_refl.
  - rewrite (proj2 (Hall _)). unfold move_source. by rewrite Nat.eqb_refl.
Qed.

Lemma move_lands_on_toRow_witness :
  ∃ s', move 0 2 Sample.ABC = Some (true, s') ∧
        m_metaList s' !! 2%nat = Some (Some Sample.mA) ∧
        designated s' !! 2%nat = Some (Some Sample.fA).
Proof.
  destruct (move_lands_on_toRow 0 2 Sample.ABC consistent_ABC)
    as (s' & Hmove & _ & Hmeta & Hdes & _).
  - unfold QList.count. simpl. lia.
  - unfold QList.count. simpl. lia.
  - lia.
  - exists s'. split; [exact Hmove|]. split; [exact Hmeta|exact Hdes].
Defined.

(** X14.  Moving a row and moving it back: the two calls return true and
    the list shows the descriptors and the engine filters it showed before,
    row by row. *)
Theorem move_back_restores (fromRow toRow : Z) (s : State) :
  consistent s →
  0 ≤ fromRow < QList.count (m_metaList s) →
  0 ≤ toRow < QList.count (m_metaList s) → fromRow ≠ toRow →
  ∃ s' s'',
    move fromRow toRow s = Some (true, s') ∧
    move toRow fromRow s' = Some (true, s'') ∧ consistent s'' ∧
    m_metaList s'' = m_metaList s ∧ designated s'' = designated s ∧
    chain s'' ≡ₚ chain s.
Proof.
  intros Hs Hfrom Hto Hne.
  destruct (move_on_consistent fromRow toRow s Hs Hfrom Hto Hne)
    as (s' & meta & f & Hmove & Hs' & Hmeta & Hf & Hlist & Hdes & _ & Hperm).
  pose proof Hs as (_ & Hlen & _). pose proof Hs' as (_ & Hlen' & _).
  assert (length (designated s) = length (m_metaList s)) as Hldes
    by (unfold designated; by rewrite length_fmap).
  assert (length (m_metaList s') = length (m_metaList s)) as Hl'.
  { rewrite Hlist. unfold moved_row, QList.count in *.
    rewrite length_app. simpl. rewrite length_take, length_drop, length_delete;
      [lia|]. apply lookup_lt_is_Some_2. lia. }
  unfold QList.count in *.
  destruct (move_on_consistent toRow fromRow s' Hs')
    as (s'' & meta' & f' & Hmove' & Hs'' & Hmeta' & Hf' & Hlist' & Hdes' & _
        & Hperm');
    [unfold QList.count; lia..|].
  assert (length (designated s') = length (m_metaList s)) as Hldes'
    by (unfold designated; rewrite length_fmap; unfold lengths_agree in *; lia).
  exists s', s''. split; [done|]. split; [done|]. split; [done|].
  split; [|split].
  - apply list_eq. intros j. rewrite Hlist'.
    rewrite lookup_moved_row_cases by (done || lia).
    rewrite Hlist, lookup_moved_row_cases by (done || lia).
    by rewrite move_source_inverse.
  - apply list_eq. intros j. rewrite Hdes'.
    rewrite lookup_moved_row_cases by (done || lia).
    rewrite Hdes, lookup_moved_row_cases by (done || lia).
    by rewrite move_source_inverse.
  - by rewrite Hperm'.
Qed.

Lemma move_back_restores_witness :
  ∃ s' s'',
    move 0 2 Sample.ABC = Some (true, s') ∧
    move 2 0 s' = Some (true, s'') ∧
    m_metaList s'' = m_metaList Sample.ABC.
Proof.
  destruct (move_back_restores 0 2 Sample.ABC consistent_ABC)
    as (s' & s'' & Hmove & Hback & _ & Hmeta & _).
  - unfold QList.count. simpl. lia.
  - unfold QList.count. simpl. lia.
  - lia.
  - exists s', s''. split; [exact Hmove|]. split; [exact Hback|exact Hmeta].
Defined.

(** The chain itself need not come back: a filter that moved past a loader
    and back stays on the other side of it. *)
Example move_back_past_loader :
  ('(_, s') ← move 0 1 Sample.with_loader;
   '(_, s'') ← move 1 0 s';
   Some (chain s'', m_mltIndexMap s''))
  = Some ([Sample.fLoader; Sample.fA; Sample.fB; Sample.fC], [1; 2; 3]).
Proof. reflexivity. Qed.

(** ** The drag and drop gesture *)

(** [moveRows] neither reads nor writes the pending drop row. *)
Lemma moveRows_set_dropRow sourceParent sourceRow count destinationParent
    destinationRow d s :
  moveRows sourceParent sourceRow count destinationParent destinationRow
    (set_dropRow d s)
  = (λ rs, (rs.1, set_dropRow d rs.2)) <$>
      moveRows sourceParent sourceRow count destinationParent destinationRow s.
Proof.
  unfold moveRows.
  replace (valid_producer (set_dropRow d s)) with (valid_producer s) by done.
  destruct (valid_producer s) as [p|]; [|done].
  destruct (negb _ || negb _); [done|].
  destruct (isValid _ && isValid _); [|done].
  destruct (beginMoveRows _ _ _); [|done]. simpl.
  destruct (QList.at_ _ sourceRow) as [a|]; [simpl|done].
  destruct (QList.at_ _ _) as [b|]; [simpl|done].
  destruct (for_each_index _ _ _ _) as [map|]; [simpl|done].
  by destruct (QList.move _ _ _) as [metaList|].
Qed.

(** X15.  A drop of a row on another place of the list reaches the model as
    an insert signal for the target row and a remove signal for the source
    row.  With no drop pending and a valid producer, the insert signal
    records the target row whatever its count, further insert signals leave
    that row recorded, and the remove signal does exactly what [moveRows]
    of one row from the source row to the recorded row does on the state
    before the gesture, whatever its count; no drop is pending after it. *)
Theorem drop_gesture_is_moveRows
    (sourceRow dropRow c1 c2 : Z) (parent parent' : QModelIndex) (s : State) :
  is_Some (valid_producer s) → m_dropRow s = -1 →
  0 ≤ dropRow → sourceRow ≠ dropRow →
  insertRows dropRow c1 parent' s = (true, set_dropRow dropRow s) ∧
  (∀ other c p, insertRows other c p (set_dropRow dropRow s)
                = (true, set_dropRow dropRow s)) ∧
  removeRows sourceRow c2 parent (set_dropRow dropRow s)
  = moveRows parent sourceRow 1 parent dropRow s ∧
  (∀ result s', removeRows sourceRow c2 parent (set_dropRow dropRow s)
                = Some (result, s') → m_dropRow s' = -1).
Proof.
  intros [p Hp] Hdrop Hd Hne.
  assert (removeRows sourceRow c2 parent (set_dropRow dropRow s)
          = moveRows parent sourceRow 1 parent dropRow s) as Hrem.
  { unfold removeRows.
    replace (valid_producer (set_dropRow dropRow s)) with (valid_producer s)
      by done.
    rewrite Hp. simpl.
    assert ((0 <=? dropRow) && negb (sourceRow =? dropRow) = true) as ->.
    { apply andb_true_iff. split; [by apply Z.leb_le|].
      apply negb_true_iff. by apply Z.eqb_neq. }
    rewrite moveRows_set_dropRow.
    destruct (moveRows parent sourceRow 1 parent dropRow s) as [[result s']|]
      eqn:Hmove; [simpl|done].
    assert (m_dropRow s' = -1) as Hd'.
    { destruct (moveRows_Some _ _ _ _ _ _ _ _ Hmove)
        as [[_ ->]|(_ & ? & ? & ? & ? & H)]; [done|].
      destruct H as (_ & _ & _ & _ & _ & _ & _ & _ & _ & _ & _ & -> & _).
      done. }
    destruct s' as [p' ml map dr tr]. simpl in Hd'. by subst dr. }
  split_and!.
  - unfold insertRows. rewrite Hp, Hdrop. done.
  - intros other c q. unfold insertRows.
    replace (valid_producer (set_dropRow dropRow s)) with (valid_producer s)
      by done.
    rewrite Hp. simpl. by destruct (Z.eqb_spec dropRow (-1)); [lia|].
  - done.
  - intros result s'. rewrite Hrem. intros Hmove.
    destruct (moveRows_Some _ _ _ _ _ _ _ _ Hmove)
      as [[_ ->]|(_ & ? & ? & ? & ? & H)]; [done|].
    destruct H as (_ & _ & _ & _ & _ & _ & _ & _ & _ & _ & _ & -> & _).
    done.
Qed.

Lemma drop_gesture_is_moveRows_witness :
  removeRows 0 1 noIndex (snd (insertRows 3 1 noIndex Sample.ABC))
  = Some (true, Sample.BCA).
Proof.
  destruct (drop_gesture_is_moveRows 0 3 1 1 noIndex noIndex Sample.ABC)
    as (Hins & _ & Hrem & _).
  - by eexists.
  - reflexivity.
  - lia.
  - lia.
  - rewrite Hins. simpl. rewrite Hrem. reflexivity.
Defined.

(** ** What every [reset] leaves *)

(** X16.  [reset] returns for every producer, chain and state.  After it
    the model is ready, also when neither the argument nor the controller
    had a producer or the producer is not valid, and also for a playlist;
    in these cases the list is empty.  The two lists have one length, and a
    pending drop row is still pending. *)
Theorem reset_returns_ready
    (producer MLT_producer : option Mlt.Producer) (MLT_isPlaylist : bool)
    (metadataForService : Mlt.Filter → option QmlMetadata) (s : State) :
  ∃ s',
    reset producer MLT_producer MLT_isPlaylist metadataForService s = Some s' ∧
    isReady s' = true ∧ lengths_agree s' ∧ m_dropRow s' = m_dropRow s ∧
    (producer = None → MLT_producer = None →
     valid_producer s' = None ∧ rowCount s' = 0) ∧
    (MLT_isPlaylist = true ∨ valid_producer s' = None →
     m_metaList s' = [] ∧ m_mltIndexMap s' = []) ∧
    (m_producer s' =
     Some match producer, MLT_producer with
          | Some p, _ | None, Some p => p
          | None, None => Mlt.mkProducer None
          end).
Proof.
  unfold reset.
  set (p := match match producer with Some _ => producer | None => MLT_producer end
            with Some p => p | None => Mlt.mkProducer None end).
  set (s0 := set_mltIndexMap [] (set_metaList [] (set_producer (Some p)
                                                    (emit BeginResetModel s)))).
  assert (Some p = Some match producer, MLT_producer with
                        | Some p, _ | None, Some p => p
                        | None, None => Mlt.mkProducer None
                        end) as Hp
    by (unfold p; by destruct producer, MLT_producer).
  assert (producer = None → MLT_producer = None → Mlt.is_valid p = false)
    as Hnone by (intros -> ->; done).
  destruct MLT_isPlaylist.
  { exists s0. split; [done|]. split_and!; try done.
    intros H1 H2. unfold valid_producer, rowCount, valid_producer. simpl.
    by rewrite (Hnone H1 H2). }
  destruct (Mlt.is_valid p) eqn:Hvalid.
  - destruct (reset_loop_returns metadataForService p
                (Z.to_nat (Mlt.filter_count p)) (Z.to_nat (Mlt.filter_count p))
                0 (Mlt.filter_count p) s0) as (s' & -> & _ & Hp' & Hd & Hl);
      [lia|lia|done|].
    simpl. eexists. split; [done|].
    unfold isReady, valid_producer, rowCount, valid_producer, lengths_agree in *.
    simpl in *. rewrite Hp'. simpl. rewrite Hvalid.
    split_and!; try done.
    + intros H1 H2. by pose proof (Hnone H1 H2).
    + by intros [|].
  - simpl. eexists. split; [done|].
    unfold isReady, valid_producer, rowCount, valid_producer. simpl.
    rewrite Hvalid. by split_and!.
Qed.

(** ** Loaders stay where they are *)

Lemma loaders_insert fs (k : nat) f :
  Mlt.loader f = 0 → loaders (take k fs ++ f :: drop k fs) = loaders fs.
Proof.
  intros Hf. unfold loaders.
  rewrite filter_app, filter_cons_False by (by intros ?).
  by rewrite <- filter_app, take_drop.
Qed.

Lemma loaders_delete fs (k : nat) f :
  fs !! k = Some f → Mlt.loader f = 0 → loaders (delete k fs) = loaders fs.
Proof.
  intros Hk Hf. rewrite <- (take_drop_middle fs k f Hk) at 2.
  rewrite delete_take_drop. unfold loaders.
  by rewrite !filter_app, filter_cons_False by (by intros ?).
Qed.

Lemma loader_tag_filter meta f : Mlt.loader (tag_filter meta f) = Mlt.loader f.
Proof. unfold tag_filter. by destruct (negb _). Qed.

(** The filter of a row of a list that hides the loaders is no loader. *)
Lemma hidden_loader_row s (r : nat) e f :
  rows_hide_loaders s → m_mltIndexMap s !! r = Some e → 0 ≤ e →
  chain s !! Z.to_nat e = Some f → Mlt.loader f = 0.
Proof.
  intros Hhide He He0 Hf.
  assert (designated s !! r = Some (Some f)) as Hdes.
  { unfold designated, filter_at. rewrite list_lookup_fmap, He. simpl.
    destruct (Z.leb_spec 0 e); [|lia]. by rewrite Hf. }
  destruct (Forall_lookup_1 _ _ _ _ Hhide Hdes) as (g & [= <-] & Hg). done.
Qed.

Lemma Forall_moved_row {A} (P : A → Prop) (l : list A) (a b : nat) x :
  Forall P l → P x → Forall P (moved_row l a b x).
Proof.
  intros Hl Hx. unfold moved_row. apply Forall_app. split.
  - by apply Forall_take, Forall_delete.
  - apply Forall_cons. split; [done|]. by apply Forall_drop, Forall_delete.
Qed.

(** Only the equality of the two parents matters to [moveRows]. *)
Lemma moveRows_parents sourceParent sourceRow count destinationParent
    destinationRow s s' :
  moveRows sourceParent sourceRow count destinationParent destinationRow s
  = Some (true, s') →
  moveRows noIndex sourceRow count noIndex destinationRow s = Some (true, s').
Proof.
  unfold moveRows. destruct (valid_producer s) as [p|]; [|done].
  rewrite (index_eqb_refl noIndex).
  by destruct (index_eqb sourceParent destinationParent).
Qed.

Lemma moveRows_keeps_loaders sourceParent sourceRow count destinationParent
    destinationRow s result s' :
  consistent s → rows_hide_loaders s →
  moveRows sourceParent sourceRow count destinationParent destinationRow s
  = Some (result, s') →
  consistent s' ∧ rows_hide_loaders s' ∧ loaders (chain s') = loaders (chain s).
Proof.
  intros Hs Hhide Hmove.
  destruct (moveRows_Some _ _ _ _ _ _ _ _ Hmove)
    as [[_ ->]|(-> & p & a' & b' & ml & _ & -> & Hsrc & Hdst & Hbegin & Ha' & Hb'
                & _)]; [done|].
  apply moveRows_parents in Hmove.
  apply at_Some in Ha' as [_ Ha']. apply at_Some in Hb' as [Hpost Hb'].
  apply lookup_lt_Some in Ha'. apply lookup_lt_Some in Hb'.
  pose proof Hs as (_ & Hlen & _). unfold lengths_agree in Hlen.
  destruct (moveRows_on_consistent noIndex sourceRow destinationRow s Hs Hbegin)
    as (s1 & meta & a & b & f & Hmove1 & Hs1 & Hmeta & Ha & Hf & Ha0 & Hb0
        & Hchain & _ & Hdes & _); [unfold QList.count; lia..|].
  assert (s1 = s') as -> by congruence.
  pose proof (hidden_loader_row s _ a f Hhide Ha Ha0 Hf) as Hloader.
  split; [done|]. split.
  - unfold rows_hide_loaders. rewrite Hdes.
    apply Forall_moved_row; [done|by exists f].
  - rewrite Hchain, loaders_insert by done. by eapply loaders_delete.
Qed.

(** X17.  The list shows no loader filter and the model never touches one:
    when every row of a consistent state points at a filter that is not a
    loader, then after [add] (of a new filter that is no loader), [remove],
    [move], [moveRows] or [removeRows] the state is consistent, every row
    still points at a filter that is not a loader, and the loaders of the
    chain are the same objects in the same order. *)
Theorem loaders_kept (op : Operation) (s s' : State) :
  consistent s → rows_hide_loaders s →
  (∀ f meta, op = Add (Some f) meta → fresh f s ∧ Mlt.loader f = 0) →
  run op s = Some s' →
  consistent s' ∧ rows_hide_loaders s' ∧ loaders (chain s') = loaders (chain s).
Proof.
  intros Hs Hhide Hnew Hrun.
  destruct op as [[f|] meta|row|fromRow toRow|sp src c dp dst|row c parent];
    unfold run in Hrun.
  - destruct (Hnew f meta eq_refl) as [Hfresh Hloader].
    destruct (add_on_consistent f meta s Hs Hfresh)
      as (r & k & s1 & Hadd & Hs1 & _ & _ & _ & Hchain & _ & Hdes & _).
    rewrite Hadd in Hrun. injection Hrun as <-.
    split; [done|]. split.
    + unfold rows_hide_loaders. rewrite Hdes, qinsert_perm.
      apply Forall_cons. split; [|done].
      eexists. split; [done|]. by rewrite loader_tag_filter.
    + rewrite Hchain. apply loaders_insert. by rewrite loader_tag_filter.
  - simpl in Hrun. by injection Hrun as <-.
  - destruct (remove_Some _ _ _ Hrun)
      as [[_ ->]|(Hlt & e & p & g & He & _)]; [done|].
    apply at_Some in He as [Hrow _].
    destruct (remove_on_consistent row s Hs)
      as (s1 & k & f & Hrem & Hs1 & Hk & Hf & Hk0 & Hchain & _ & Hdes & _);
      [lia|].
    assert (s1 = s') as -> by congruence.
    split; [done|]. split.
    + unfold rows_hide_loaders. rewrite Hdes. by apply Forall_delete.
    + rewrite Hchain. eapply loaders_delete; [done|].
      by eapply hidden_loader_row.
  - unfold move in Hrun.
    destruct ((fromRow <? 0) || (toRow <? 0)).
    + simpl in Hrun. by injection Hrun as <-.
    + destruct (moveRows _ _ _ _ _ _) as [[result s1]|] eqn:Hmove; [|done].
      simpl in Hrun. injection Hrun as <-.
      by eapply moveRows_keeps_loaders.
  - destruct (moveRows _ _ _ _ _ _) as [[result s1]|] eqn:Hmove; [|done].
    simpl in Hrun. injection Hrun as <-.
    by eapply moveRows_keeps_loaders.
  - unfold removeRows in Hrun.
    destruct (valid_producer s); [|simpl in Hrun; by injection Hrun as <-].
    destruct ((0 <=? m_dropRow s) && negb (row =? m_dropRow s));
      [|simpl in Hrun; by injection Hrun as <-].
    destruct (moveRows _ _ _ _ _ _) as [[result s1]|] eqn:Hmove; [|done].
    simpl in Hrun. injection Hrun as <-.
    by eapply (moveRows_keeps_loaders _ _ _ _ _ s result s1).
Qed.

Lemma consistent_with_loader :
  consistent Sample.with_loader ∧ rows_hide_loaders Sample.with_loader.
Proof.
  split; [split_and!|].
  - by eexists.
  - done.
  - unfold tracks, chain. simpl. split_and!.
    + repeat (apply Forall_cons; split; [lia|]). by apply Forall_nil.
    + by apply (bool_decide_unpack _).
    + by apply (bool_decide_unpack _).
  - repeat (apply Forall_cons; split; [by eexists|]). by apply Forall_nil.
Qed.

Lemma loaders_kept_witness :
  ∃ s', remove 1 Sample.with_loader = Some s' ∧
        loaders (chain s') = [Sample.fLoader].
Proof.
  destruct (remove 1 Sample.with_loader) as [s'|] eqn:Hrem; [|discriminate].
  exists s'. split; [reflexivity|].
  destruct (loaders_kept (Remove 1) Sample.with_loader s'
              (proj1 consistent_with_loader) (proj2 consistent_with_loader))
    as (_ & _ & Hloaders).
  - intros f meta Hop. discriminate Hop.
  - exact Hrem.
  - exact Hloaders.
Defined.

(** ** The list the model keeps is the list [reset] would build *)

Lemma sort_order_StronglySorted metadataForService fs (map : list Z) :
  sorted_by_category (descriptor_at metadataForService fs <$> map) →
  engine_order_within_category (descriptor_at metadataForService fs <$> map) map →
  StronglySorted (row_before metadataForService fs) map.
Proof.
  induction map as [|x m IH]; intros Hsorted Horder; [constructor|].
  constructor.
  - apply IH.
    + intros i j a b Hij Hi Hj. apply (Hsorted (S i) (S j)); [lia|done..].
    + intros i j a b ea eb Hij Hi Hj Hei Hej.
      apply (Horder (S i) (S j) a b); [lia|done..].
  - apply Forall_lookup_2. intros j y Hy.
    assert ((descriptor_at metadataForService fs <$> x :: m) !! S j
            = Some (descriptor_at metadataForService fs y)) as Hdy
      by (simpl; by rewrite list_lookup_fmap, Hy).
    pose proof (Hsorted 0%nat (S j) _ _ ltac:(lia) eq_refl Hdy) as Hle.
    unfold row_before.
    destruct (decide (category (descriptor_at metadataForService fs x)
                      = category (descriptor_at metadataForService fs y)))
      as [Heq|Hne]; [right|left; lia].
    split; [done|].
    apply (Horder 0%nat (S j) _ _ x y ltac:(lia) eq_refl Hdy eq_refl Hy Heq).
Qed.

(** Two faithful states on one chain show the same list. *)
Lemma faithful_unique metadataForService s1 s2 :
  faithful metadataForService s1 → faithful metadataForService s2 →
  chain s1 = chain s2 →
  m_mltIndexMap s1 = m_mltIndexMap s2 ∧ m_metaList s1 = m_metaList s2.
Proof.
  intros (Hs1 & (_ & Hsorted1 & Horder1) & Hcov1 & Hmeta1)
         (Hs2 & (_ & Hsorted2 & Horder2) & Hcov2 & Hmeta2) Hchain.
  assert (m_mltIndexMap s1 = m_mltIndexMap s2) as Hmap.
  { apply (StronglySorted_unique_strong
             (row_before metadataForService (chain s1))).
    - intros x y _ _ [H1|[H1 H1']] [H2|[H2 H2']]; lia.
    - apply sort_order_StronglySorted; by rewrite <- Hmeta1.
    - rewrite Hchain. apply sort_order_StronglySorted; by rewrite <- Hmeta2.
    - apply NoDup_Permutation; [apply Hs1|apply Hs2|].
      intros e. by rewrite Hcov1, Hcov2, Hchain. }
  split; [done|]. by rewrite Hmeta1, Hmeta2, Hmap, Hchain.
Qed.

Lemma reset_faithful fs MLT_producer metadataForService s :
  NoDup (Mlt.handle <$> fs) → (∀ f, one_flag (metadataForService f)) →
  ∃ s',
    reset (Some (Mlt.mkProducer (Some fs))) MLT_producer false
      metadataForService s = Some s' ∧
    faithful metadataForService s' ∧ chain s' = fs.
Proof.
  intros Hhandles Hflags.
  destruct (reset_tracks_chain fs MLT_producer metadataForService s Hhandles)
    as (s' & Hreset & Hs' & Hchain & Helem & Hmeta).
  destruct (reset_sorts_chain fs MLT_producer metadataForService s Hflags)
    as (s1 & Hreset1 & Hsorted & _).
  assert (s1 = s') as -> by congruence.
  exists s'. split; [done|]. split; [|done].
  unfold faithful. rewrite Hchain. by split_and!.
Qed.

(** [reset] of a faithful state on its own producer, for a controller all
    of whose descriptors set one flag at most. *)
Lemma reset_same_list_flags metadataForService MLT_producer s :
  faithful metadataForService s → (∀ f, one_flag (metadataForService f)) →
  ∃ s',
    reset (m_producer s) MLT_producer false metadataForService s = Some s' ∧
    faithful metadataForService s' ∧ chain s' = chain s ∧
    m_metaList s' = m_metaList s ∧ m_mltIndexMap s' = m_mltIndexMap s.
Proof.
  intros Hs Hflags. pose proof Hs as (Hcons & _).
  destruct (consistent_producer s Hcons) as [-> _].
  destruct (reset_faithful (chain s) MLT_producer metadataForService s)
    as (s' & Hreset & Hs' & Hchain); [apply Hcons|done|].
  destruct (faithful_unique metadataForService s' s Hs' Hs Hchain) as [Hmap Hmeta].
  exists s'. by split_and!.
Qed.

(** [reset] asks the controller about the filters of the chain that are
    not loaders, and about no other. *)
Lemma reset_loop_ext metadataForService metadataForService' p :
  (∀ i f, Mlt.filter p i = Some f → Mlt.loader f = 0 →
          metadataForService f = metadataForService' f) →
  ∀ fuel i count s,
    reset_loop metadataForService p fuel i count s
    = reset_loop metadataForService' p fuel i count s.
Proof.
  intros Hext. induction fuel as [|fuel IH]; intros i count s; [done|].
  simpl. destruct (i <? count); [|done].
  destruct (Mlt.filter p i) as [f|] eqn:Hf; [|simpl; apply IH].
  destruct (Z.eqb_spec (Mlt.loader f) 0) as [Hl|Hl]; [|simpl; apply IH].
  rewrite (Hext i f Hf Hl).
  destruct (reset_scan _ _ _ _ _); [simpl; apply IH|done].
Qed.

Lemma reset_ext metadataForService metadataForService' fs MLT_producer s :
  (∀ f, f ∈ fs → Mlt.loader f = 0 →
        metadataForService f = metadataForService' f) →
  reset (Some (Mlt.mkProducer (Some fs))) MLT_producer false
    metadataForService s
  = reset (Some (Mlt.mkProducer (Some fs))) MLT_producer false
      metadataForService' s.
Proof.
  intros Hext. unfold reset. simpl.
  rewrite (reset_loop_ext metadataForService metadataForService'); [done|].
  intros i f Hf Hl. apply Hext; [|done].
  rewrite filter_eq_filter_at in Hf. unfold filter_at in Hf.
  destruct (0 <=? i); [|done]. by eapply list_elem_of_lookup_2.
Qed.

(** The descriptor of every filter a faithful state shows sets one flag at
    most. *)
Lemma faithful_one_flag metadataForService s f :
  faithful metadataForService s → f ∈ chain s → Mlt.loader f = 0 →
  one_flag (metadataForService f).
Proof.
  intros (_ & (Hone & _) & Hcov & Hmeta) [i Hi]%list_elem_of_lookup_1 Hl.
  assert (filter_at (chain s) (Z.of_nat i) = Some f) as Hfi.
  { unfold filter_at. destruct (Z.leb_spec 0 (Z.of_nat i)); [|lia].
    by rewrite Nat2Z.id. }
  assert (Z.of_nat i ∈ m_mltIndexMap s) as [r Hr]%list_elem_of_lookup_1
    by (apply Hcov; by exists f).
  assert (m_metaList s !! r = Some (metadataForService f)) as Hm.
  { rewrite Hmeta, list_lookup_fmap, Hr. simpl. unfold descriptor_at.
    by rewrite Hfi. }
  by apply (Forall_lookup_1 _ _ _ _ Hone Hm).
Qed.

(** [reset] of a faithful state on its own producer. *)
Lemma reset_same_list metadataForService MLT_producer s :
  faithful metadataForService s →
  ∃ s',
    reset (m_producer s) MLT_producer false metadataForService s = Some s' ∧
    faithful metadataForService s' ∧ chain s' = chain s ∧
    m_metaList s' = m_metaList s ∧ m_mltIndexMap s' = m_mltIndexMap s.
Proof.
  intros Hs. pose proof Hs as (Hcons & Hsorted & Hcov & Hmeta).
  set (known := λ f : Mlt.Filter,
         match metadataForService f with
         | Some m => if needsGPU m && isAudio m then None else Some m
         | None => None
         end).
  assert (∀ f, one_flag (known f)) as Hflags.
  { intros f. unfold known. destruct (metadataForService f) as [m|]; [|done].
    by destruct (needsGPU m && isAudio m) eqn:Hm. }
  assert (∀ f, f ∈ chain s → Mlt.loader f = 0 →
               metadataForService f = known f) as Hext.
  { intros f Hf Hl.
    pose proof (faithful_one_flag metadataForService s f Hs Hf Hl) as Hone.
    unfold known. destruct (metadataForService f) as [m|]; [|done].
    simpl in Hone. by rewrite Hone. }
  assert (∀ (i : nat) e, m_mltIndexMap s !! i = Some e →
            descriptor_at metadataForService (chain s) e
            = descriptor_at known (chain s) e) as Hdesc.
  { intros i e He.
    assert (shown (chain s) e) as (f & Hf & Hl)
      by (apply Hcov; by eapply list_elem_of_lookup_2).
    unfold descriptor_at. rewrite Hf. simpl. apply Hext; [|done].
    unfold filter_at in Hf. destruct (0 <=? e); [|done].
    by eapply list_elem_of_lookup_2. }
  assert (faithful known s) as Hs'.
  { split; [done|]. split; [done|]. split; [done|].
    rewrite Hmeta. by apply list_fmap_ext. }
  destruct (reset_same_list_flags known MLT_producer s Hs' Hflags)
    as (s' & Hreset & (Hcons' & Hsorted' & Hcov' & _) & Hchain & Hlist & Hmap).
  destruct (consistent_producer s Hcons) as [Hp _].
  exists s'. split.
  { rewrite <- Hreset, Hp. by apply reset_ext. }
  split; [|done].
  split; [done|]. split; [done|]. split; [done|].
  by rewrite Hlist, Hmap, Hchain.
Qed.

(** X18.  [reset] of a faithful state on its own producer, outside a
    playlist, returns and leaves a faithful state with the chain, the
    descriptor list, the index map and the row count it had: the list is
    rebuilt as it was, descriptor by descriptor and engine index by engine
    index. *)
Theorem reset_rebuilds_same_list
    (metadataForService : Mlt.Filter → option QmlMetadata)
    (MLT_producer : option Mlt.Producer) (s : State) :
  faithful metadataForService s →
  ∃ s',
    reset (m_producer s) MLT_producer false metadataForService s = Some s' ∧
    faithful metadataForService s' ∧ chain s' = chain s ∧
    m_metaList s' = m_metaList s ∧ m_mltIndexMap s' = m_mltIndexMap s ∧
    rowCount s' = rowCount s.
Proof.
  intros Hs.
  destruct (reset_same_list metadataForService MLT_producer s Hs)
    as (s' & Hreset & Hs' & Hchain & Hmeta & Hmap).
  exists s'. split_and!; try done.
  unfold rowCount.
  destruct (consistent_producer s (proj1 Hs)) as [_ ->].
  destruct (consistent_producer s' (proj1 Hs')) as [_ ->].
  by rewrite Hmeta.
Qed.

Lemma elem_of_delete_other {A} (l : list A) (i : nat) x y :
  l !! i = Some y → x ∈ l → x ≠ y → x ∈ delete i l.
Proof.
  intros Hi Hx Hne. rewrite (delete_Permutation l i y Hi) in Hx.
  by apply elem_of_cons in Hx as [->|Hx].
Qed.

(** [add] of a filter that is no loader, with the descriptor the controller
    knows for it, to a faithful state. *)
Lemma add_faithful metadataForService filter meta s :
  faithful metadataForService s → fresh filter s → Mlt.loader filter = 0 →
  one_flag (Some meta) →
  metadataForService (tag_filter meta filter) = Some meta →
  ∃ r s',
    add (Some filter) meta s = Some (r, s') ∧ faithful metadataForService s'.
Proof.
  intros (Hs & Hsorted & Hcov & Hmeta) Hfresh Hloader Hflag Hknown.
  destruct (consistent_producer s Hs) as [Hp _].
  destruct (add_on_consistent filter meta s Hs Hfresh)
    as (r & k & s' & Hadd & Hs' & _ & Hr & Hk & Hchain & Hmap & _ & Hlist & _).
  destruct (add_sorted filter meta s _ Hp (proj1 (proj2 Hs)) Hsorted Hflag)
    as (r1 & s1 & Hadd1 & Hsorted' & _).
  assert (s1 = s') as -> by congruence.
  exists r, s'. split; [done|]. split; [done|]. split; [done|].
  rewrite Hchain, Hmap. split.
  - intros e'. rewrite qinsert_perm, elem_of_cons, list_elem_of_fmap. split.
    + intros [->|(e & -> & He)].
      * exists (tag_filter meta filter).
        split; [by apply filter_at_inserted|by rewrite loader_tag_filter].
      * apply Hcov in He as (g & Hg & Hl). exists g.
        split; [|done]. by rewrite filter_at_add_shift.
    + intros (g & Hg & Hl).
      destruct (decide (e' = k)) as [->|Hne]; [by left|]. right.
      exists (if e' <? k then e' else e' - 1).
      assert (add_shift k (if e' <? k then e' else e' - 1) = e') as Hshift
        by (unfold add_shift; zcmp).
      split; [done|]. apply Hcov. exists g. split; [|done].
      by rewrite <- (filter_at_add_shift _ (tag_filter meta filter) k), Hshift.
  - rewrite Hlist, Hmeta, fmap_qinsert, <- list_fmap_compose. f_equal.
    + unfold descriptor_at. rewrite filter_at_inserted by done. by simpl.
    + apply list_fmap_ext. intros i e _. simpl. unfold descriptor_at.
      by rewrite filter_at_add_shift.
Qed.

(** [remove] of a row of a faithful state. *)
Lemma remove_faithful metadataForService row s :
  faithful metadataForService s → 0 ≤ row < QList.count (m_metaList s) →
  ∃ s', remove row s = Some s' ∧ faithful metadataForService s'.
Proof.
  intros (Hs & Hsorted & Hcov & Hmeta) Hrow.
  pose proof Hs as (_ & _ & _ & Hnodup & _).
  destruct (remove_on_consistent row s Hs Hrow)
    as (s' & k & f & Hrem & Hs' & Hk & Hf & Hk0 & Hchain & Hmap & _ & Hlist).
  destruct (remove_sorted row s Hs Hsorted Hrow) as (s1 & Hrem1 & Hsorted' & _).
  assert (s1 = s') as -> by congruence.
  pose proof (NoDup_delete_notin _ _ _ Hnodup Hk) as Hnotin.
  exists s'. split; [done|]. split; [done|]. split; [done|].
  rewrite Hchain, Hmap. split.
  - intros e'. rewrite list_elem_of_fmap. split.
    + intros (e & -> & He).
      assert (e ≠ k) as Hne by (by intros ->).
      apply list_elem_of_delete_inv, Hcov in He as (g & Hg & Hl).
      exists g. split; [|done]. by rewrite filter_at_remove_shift.
    + intros (g & Hg & Hl).
      assert (0 ≤ e') as He0.
      { unfold filter_at in Hg. by destruct (Z.leb_spec 0 e'). }
      exists (if e' <? k then e' else e' + 1).
      assert ((if e' <? k then e' else e' + 1) ≠ k) as Hne by zcmp.
      assert (remove_shift k (if e' <? k then e' else e' + 1) = e') as Hshift
        by (unfold remove_shift; zcmp).
      split; [done|].
      apply (elem_of_delete_other _ _ _ k Hk); [|done].
      apply Hcov. exists g. split; [|done].
      by rewrite <- (filter_at_remove_shift _ k), Hshift.
  - rewrite Hlist, Hmeta, <- list_fmap_delete, <- list_fmap_compose.
    apply list_fmap_ext. intros i e He. simpl. unfold descriptor_at.
    rewrite filter_at_remove_shift; [done|done|].
    intros ->. apply Hnotin. by eapply list_elem_of_lookup_2.
Qed.

(** X19.  Adding to a faithful state a new filter that is no loader, with
    a descriptor that sets one flag at most and is the one the controller
    knows for the filter, leaves a faithful state: the row [add] chose and
    the engine indices it recomputed are the ones a [reset] on the producer
    finds, so a [reset] after the [add] leaves the list as it is. *)
Theorem add_agrees_with_reset
    (metadataForService : Mlt.Filter → option QmlMetadata)
    (MLT_producer : option Mlt.Producer)
    (filter : Mlt.Filter) (meta : QmlMetadata) (s : State) :
  faithful metadataForService s → one_flag (Some meta) →
  fresh filter s → Mlt.loader filter = 0 →
  metadataForService (tag_filter meta filter) = Some meta →
  ∃ r s' s'',
    add (Some filter) meta s = Some (r, s') ∧ faithful metadataForService s' ∧
    reset (m_producer s') MLT_producer false metadataForService s' = Some s'' ∧
    m_metaList s'' = m_metaList s' ∧ m_mltIndexMap s'' = m_mltIndexMap s' ∧
    chain s'' = chain s'.
Proof.
  intros Hs Hflag Hfresh Hloader Hknown.
  destruct (add_faithful metadataForService filter meta s Hs Hfresh Hloader
              Hflag Hknown) as (r & s' & Hadd & Hs').
  destruct (reset_same_list metadataForService MLT_producer s' Hs')
    as (s'' & Hreset & _ & Hchain & Hmeta & Hmap).
  by exists r, s', s''.
Qed.

(** X20.  Removing a row of a faithful state leaves a faithful state: the
    engine indices [remove] recomputed are the ones a [reset] on the
    producer finds, so a [reset] after the [remove] leaves the list as it
    is. *)
Theorem remove_agrees_with_reset
    (metadataForService : Mlt.Filter → option QmlMetadata)
    (MLT_producer : option Mlt.Producer) (row : Z) (s : State) :
  faithful metadataForService s →
  0 ≤ row < QList.count (m_metaList s) →
  ∃ s' s'',
    remove row s = Some s' ∧ faithful metadataForService s' ∧
    reset (m_producer s') MLT_producer false metadataForService s' = Some s'' ∧
    m_metaList s'' = m_metaList s' ∧ m_mltIndexMap s'' = m_mltIndexMap s' ∧
    chain s'' = chain s'.
Proof.
  intros Hs Hrow.
  destruct (remove_faithful metadataForService row s Hs Hrow)
    as (s' & Hrem & Hs').
  destruct (reset_same_list metadataForService MLT_producer s' Hs')
    as (s'' & Hreset & _ & Hchain & Hmeta & Hmap).
  by exists s', s''.
Qed.

Lemma in_sort_order_ABC : in_sort_order Sample.ABC.
Proof.
  split_and!.
  - repeat (apply Forall_cons; split; [reflexivity|]). by apply Forall_nil.
  - intros [|[|[|i]]] [|[|[|j]]] a b Hij Hi Hj; simplify_eq/=; lia.
  - intros [|[|[|i]]] [|[|[|j]]] a b ea eb Hij Hi Hj Hei Hej _;
      simplify_eq/=; lia.
Qed.

Lemma faithful_ABC : faithful Sample.metadataForService Sample.ABC.
Proof.
  split; [apply consistent_ABC|]. split; [apply in_sort_order_ABC|].
  split; [|reflexivity].
  intros e. split.
  - intros He. unfold shown, filter_at.
    repeat (apply elem_of_cons in He as [->|He]; [by eexists|]).
    by apply elem_of_nil in He.
  - intros He%shown_in_chain. simpl in He.
    assert (e = 0 ∨ e = 1 ∨ e = 2) as [-> | [-> | ->]] by lia;
      simpl; rewrite !elem_of_cons; auto.
Qed.

Lemma one_flag_metadataForService f :
  one_flag (Sample.metadataForService f).
Proof. simpl. apply andb_false_r. Qed.

Lemma reset_rebuilds_same_list_witness :
  ∃ s',
    reset (m_producer Sample.ABC) None false Sample.metadataForService Sample.ABC
    = Some s' ∧
    m_metaList s' = m_metaList Sample.ABC ∧
    m_mltIndexMap s' = m_mltIndexMap Sample.ABC.
Proof.
  destruct (reset_rebuilds_same_list Sample.metadataForService None Sample.ABC
              faithful_ABC)
    as (s' & Hreset & _ & _ & Hmeta & Hmap & _).
  exists s'. split; [exact Hreset|]. split; [exact Hmeta|exact Hmap].
Defined.

Lemma add_agrees_with_reset_witness :
  ∃ r s' s'',
    add (Some Sample.fNew) Sample.mGpu Sample.ABC = Some (r, s') ∧
    reset (m_producer s') None false Sample.metadataForService s' = Some s'' ∧
    m_metaList s'' = m_metaList s' ∧ m_mltIndexMap s'' = m_mltIndexMap s'.
Proof.
  destruct (add_agrees_with_reset Sample.metadataForService None Sample.fNew
              Sample.mGpu Sample.ABC faithful_ABC)
    as (r & s' & s'' & Hadd & _ & Hreset & Hmeta & Hmap & _).
  - reflexivity.
  - repeat constructor; discriminate.
  - reflexivity.
  - reflexivity.
  - exists r, s', s''.
    split; [exact Hadd|]. split; [exact Hreset|]. split; [exact Hmeta|exact Hmap].
Defined.

Lemma remove_agrees_with_reset_witness :
  ∃ s' s'',
    remove 1 Sample.ABC = Some s' ∧
    reset (m_producer s') None false Sample.metadataForService s' = Some s'' ∧
    m_metaList s'' = m_metaList s' ∧ m_mltIndexMap s'' = m_mltIndexMap s'.
Proof.
  destruct (remove_agrees_with_reset Sample.metadataForService None 1 Sample.ABC
              faithful_ABC)
    as (s' & s'' & Hrem & _ & Hreset & Hmeta & Hmap & _).
  - unfold QList.count. simpl. lia.
  - exists s', s''.
    split; [exact Hrem|]. split; [exact Hreset|]. split; [exact Hmeta|exact Hmap].
Defined.

(** ** Calls the guards do not cover *)

(** X21.  A model without a producer (as the constructor leaves it, before
    the first [reset]) is not ready and shows no rows; the drag and drop
    hooks, [moveRows], [move] and [setData] leave it as it is and [data]
    gives nothing.  [add] and [remove] have no guard on the producer: [add]
    with a filter that constructs, and [remove] of a row below the length of
    the list, dereference the null producer. *)
Theorem without_producer (s : State) :
  m_producer s = None →
  isReady s = false ∧ rowCount s = 0 ∧
  (∀ index role, data index role s = Some Invalid) ∧
  (∀ index role, ∃ result, setData index role s = Some (result, s)) ∧
  (∀ r c p, insertRows r c p s = (false, s)) ∧
  (∀ r c p, removeRows r c p s = Some (false, s)) ∧
  (∀ sp r c dp d, moveRows sp r c dp d s = Some (false, s)) ∧
  (∀ fromRow toRow, move fromRow toRow s = Some (false, s)) ∧
  (∀ filter meta, add (Some filter) meta s = None) ∧
  (∀ r, r < QList.count (m_metaList s) → remove r s = None).
Proof.
  intros Hp.
  assert (valid_producer s = None) as Hvalid
    by (unfold valid_producer; by rewrite Hp).
  split_and!.
  - unfold isReady. by rewrite Hp.
  - unfold rowCount. by rewrite Hvalid.
  - intros index role. unfold data. by rewrite Hvalid.
  - intros index role. unfold setData, getFilter. rewrite Hvalid, Hp.
    destruct role; by eexists.
  - intros r c p. unfold insertRows. by rewrite Hvalid.
  - intros r c p. unfold removeRows. by rewrite Hvalid.
  - intros sp r c dp d. unfold moveRows. by rewrite Hvalid.
  - intros fromRow toRow. unfold move, moveRows. rewrite Hvalid.
    by destruct (_ || _).
  - intros filter meta. unfold add.
    destruct (add_scan _ _ _ _); [simpl|done].
    destruct (add_mltIndex _ _); [simpl|done]. by rewrite Hp.
  - intros r Hr. unfold remove.
    assert ((QList.count (m_metaList s) <=? r) = false) as ->
      by (apply Z.leb_gt; lia).
    simpl. destruct (QList.at_ _ _); [simpl|done]. by rewrite Hp.
Qed.

Lemma without_producer_witness :
  isReady AttachedFiltersModel = false ∧
  add (Some Sample.fNew) Sample.mGpu AttachedFiltersModel = None.
Proof.
  destruct (without_producer AttachedFiltersModel eq_refl)
    as (Hready & _ & _ & _ & _ & _ & _ & _ & Hadd & _).
  split; [exact Hready|exact (Hadd Sample.fNew Sample.mGpu)].
Defined.



(** ** A view that follows the notifications *)

Lemma view_run_moveRows sourceParent sourceRow count destinationParent
    destinationRow s result s' :
  moveRows sourceParent sourceRow count destinationParent destinationRow s
  = Some (result, s') →
  ∃ es, trace s' = trace s ++ es ∧
        view_run es (m_metaList s, None) (m_metaList s', None).
Proof.
  intros Hmove.
  destruct (moveRows_Some _ _ _ _ _ _ _ _ Hmove)
    as [[_ ->]|(_ & p & a & b & ml & _ & _ & Hsrc & Hdst & Hbegin & _ & _
                & Hlist & _ & _ & Hmeta & _ & Htrace)].
  { exists []. by rewrite app_nil_r. }
  eexists. split; [exact Htrace|].
  unfold QList.move in Hlist.
  destruct (QList.in_range sourceRow (m_metaList s)
            && QList.in_range _ (m_metaList s)) eqn:Hrange; [|done].
  apply andb_true_iff in Hrange as [Hr1 Hr2].
  apply in_range_spec in Hr1 as [_ Hr1]. apply in_range_spec in Hr2 as [Hp0 Hr2].
  destruct (m_metaList s !! Z.to_nat sourceRow) as [x|] eqn:Hx; [|done].
  simpl in Hlist. injection Hlist as <-.
  assert (¬ (sourceRow ≤ destinationRow ≤ sourceRow + 1)) as Hnot.
  { unfold beginMoveRows in Hbegin.
    apply negb_true_iff, andb_false_iff in Hbegin as [H%Z.leb_gt|H%Z.leb_gt];
      lia. }
  assert (destinationRow ≤ QList.count (m_metaList s)) as Hle.
  { unfold post_move_row, QList.count in *.
    destruct (Z.ltb_spec sourceRow destinationRow); lia. }
  simpl. eexists. split.
  { split; [unfold QList.count; lia|]. split; [lia|]. split; [done|].
    reflexivity. }
  eexists. split; [|reflexivity]. simpl. exists x. split; [done|].
  rewrite Hmeta. unfold moved_row. f_equal. apply qinsert_in_range.
  unfold QList.count. rewrite length_delete; [lia|]. by eexists.
Qed.

(** X23.  A view that follows the notifications stays true to the list:
    for each of [add], [remove], [move], [moveRows] and [removeRows] that
    returns, the signals and log lines the call appends are begin and end
    signals in matching pairs, with rows that are rows of the list, and a
    view that applies them to the descriptor list before the call holds the
    descriptor list after it, with no change left in progress. *)
Theorem view_follows_notifications (op : Operation) (s s' : State) :
  run op s = Some s' →
  ∃ es, trace s' = trace s ++ es ∧
        view_run es (m_metaList s, None) (m_metaList s', None).
Proof.
  intros Hrun.
  destruct op as [[f|] meta|row|fromRow toRow|sp src c dp dst|row c parent];
    unfold run in Hrun.
  - destruct (add _ _ _) as [[r s1]|] eqn:Hadd; [|done].
    simpl in Hrun. injection Hrun as <-.
    destruct (add_Some _ _ _ _ _ Hadd)
      as (k & p & Hscan & _ & _ & _ & _ & Hmeta & _ & Htrace).
    destruct (add_scan_spec (m_metaList s) (Some meta))
      as (pos & Hpos & _ & Hr).
    assert (pos = r) as -> by congruence.
    eexists. split; [exact Htrace|]. simpl.
    eexists. split; [split; [done|split; [lia|reflexivity]]|].
    eexists. split; [reflexivity|]. simpl.
    eexists. split; [exists (Some meta); reflexivity|].
    eexists. split; [reflexivity|].
    by rewrite Hmeta, qinsert_in_range.
  - simpl in Hrun. injection Hrun as <-. eexists. split; [reflexivity|].
    simpl. by eexists.
  - destruct (remove_Some _ _ _ Hrun)
      as [[_ ->]|(Hlt & e & p & g & He & _ & _ & _ & _ & Hmeta & _ & Htrace)].
    { eexists. split; [reflexivity|]. simpl. by eexists. }
    apply at_Some in He as [Hrow _].
    eexists. split; [exact Htrace|]. simpl.
    eexists. split; [split; [done|split; [lia|reflexivity]]|]. simpl.
    eexists. split; [reflexivity|].
    eexists. split; [reflexivity|].
    by rewrite Hmeta, removeAt_in_range.
  - unfold move in Hrun.
    destruct ((fromRow <? 0) || (toRow <? 0)).
    + simpl in Hrun. injection Hrun as <-. exists []. by rewrite app_nil_r.
    + destruct (moveRows _ _ _ _ _ _) as [[result s1]|] eqn:Hmove; [|done].
      simpl in Hrun. injection Hrun as <-.
      by eapply view_run_moveRows.
  - destruct (moveRows _ _ _ _ _ _) as [[result s1]|] eqn:Hmove; [|done].
    simpl in Hrun. injection Hrun as <-.
    by eapply view_run_moveRows.
  - unfold removeRows in Hrun.
    destruct (valid_producer s);
      [|simpl in Hrun; injection Hrun as <-; exists []; by rewrite app_nil_r].
    destruct ((0 <=? m_dropRow s) && negb (row =? m_dropRow s));
      [|simpl in Hrun; injection Hrun as <-; exists []; by rewrite app_nil_r].
    destruct (moveRows _ _ _ _ _ _) as [[result s1]|] eqn:Hmove; [|done].
    simpl in Hrun. injection Hrun as <-.
    by eapply (view_run_moveRows _ _ _ _ _ s result s1).
Qed.

Lemma view_follows_notifications_witness :
  ∃ s' es,
    move 0 2 Sample.ABC = Some (true, s') ∧ trace s' = trace Sample.ABC ++ es ∧
    view_run es (m_metaList Sample.ABC, None) (m_metaList s', None).
Proof.
  destruct (move 0 2 Sample.ABC) as [[result s']|] eqn:Hmove; [|discriminate].
  assert (result = true) as -> by (by injection Hmove as <- _).
  destruct (view_follows_notifications (Move 0 2) Sample.ABC s')
    as (es & Htrace & Hview).
  - unfold run. rewrite Hmove. reflexivity.
  - exists s', es. split; [reflexivity|]. split; [exact Htrace|exact Hview].
Defined.

(** ** [setData] on any state *)

(** C9 (what the code does).  [setData] reaches the index map through
    [getFilter], whose guard is [row < m_mltIndexMap.count()] only.  With a
    valid producer a negative row passes it, as the row -1 of [QModelIndex()]
    does, and the index map is subscripted out of range before any flag is
    read. *)
Theorem setData_negative_row_unguarded (index : QModelIndex) (s : State) :
  is_Some (valid_producer s) → row index < 0 →
  getFilter s (row index) = None ∧ setData index CheckStateRole s = None.
Proof.
  intros [p Hp] Hrow.
  assert (getFilter s (row index) = None) as Hget.
  { unfold getFilter. rewrite Hp.
    assert ((row index <? QList.count (m_mltIndexMap s)) = true) as ->
      by (apply Z.ltb_lt; unfold QList.count; lia).
    by rewrite at_negative. }
  split; [done|]. unfold setData. by rewrite Hget.
Qed.

Lemma setData_negative_row_unguarded_witness :
  setData noIndex CheckStateRole Sample.ABC = None.
Proof.
  apply (setData_negative_row_unguarded noIndex Sample.ABC).
  - by eexists.
  - reflexivity.
Defined.

(** X24.  [setData] on a row that is not negative returns, for every state
    and role, true exactly for the check state role.  It never writes the
    descriptor list, the index map or the pending row, and the chain keeps
    its length.  With the check state role, a valid producer and a row whose
    engine index is a position of the chain, it writes the "disable"
    property of the filter at that position: 1 when it was 0, else 0, and
    announces the change of the row.  In every other case the state is the
    state before. *)
Theorem setData_flips_disable
    (index : QModelIndex) (role : ItemDataRole) (s : State) :
  0 ≤ row index →
  ∃ result s',
    setData index role s = Some (result, s') ∧
    (result = true ↔ role = CheckStateRole) ∧
    m_metaList s' = m_metaList s ∧ m_mltIndexMap s' = m_mltIndexMap s ∧
    m_dropRow s' = m_dropRow s ∧ length (chain s') = length (chain s) ∧
    ((∃ e f,
        role = CheckStateRole ∧ is_Some (valid_producer s) ∧
        m_mltIndexMap s !! Z.to_nat (row index) = Some e ∧ 0 ≤ e ∧
        chain s !! Z.to_nat e = Some f ∧
        chain s' =
          Mlt.with_disable (Mlt.handle f) (if Mlt.disable f =? 0 then 1 else 0)
            <$> chain s ∧
        Mlt.disable <$> chain s' !! Z.to_nat e
        = Some (if Mlt.disable f =? 0 then 1 else 0) ∧
        trace s' = trace s ++ [Changed; DataChanged (row index) (row index)]) ∨
     (s' = s ∧
      ¬ (role = CheckStateRole ∧ is_Some (valid_producer s) ∧
         ∃ e f, m_mltIndexMap s !! Z.to_nat (row index) = Some e ∧ 0 ≤ e ∧
                chain s !! Z.to_nat e = Some f))).
Proof.
  intros Hrow.
  destruct role;
    try (exists false, s; split; [done|]; split; [done|];
         split_and!; try done; right; split; [done|]; by intros [? _]).
  unfold setData, getFilter.
  destruct (valid_producer s) as [p|] eqn:Hvalid.
  2:{ exists true, s. split; [done|]. split_and!; try done.
      right. split; [done|]. by intros (_ & [? ?] & _). }
  unfold valid_producer in Hvalid.
  destruct (m_producer s) as [[[fs|]]|] eqn:Hp; try done.
  simpl in Hvalid. injection Hvalid as <-.
  assert (chain s = fs) as Hchain by (unfold chain; by rewrite Hp).
  assert (is_Some (valid_producer s)) as Hsome
    by (unfold valid_producer; rewrite Hp; by eexists).
  destruct (Z.ltb_spec (row index) (QList.count (m_mltIndexMap s))) as [Hlt|Hge].
  2:{ exists true, s. split; [done|]. split_and!; try done.
      right. split; [done|]. intros (_ & _ & e & f & He & _).
      apply lookup_lt_Some in He. unfold QList.count in Hge. lia. }
  destruct (at_in_range (m_mltIndexMap s) (row index)) as [e He]; [lia|].
  rewrite He. simpl. apply at_Some in He as [_ He].
  rewrite filter_eq_filter_at.
  destruct (filter_at fs e) as [f|] eqn:Hf; simpl.
  - unfold filter_at in Hf. destruct (Z.leb_spec 0 e) as [He0|]; [|done].
    eexists true, _. split; [done|]. simpl.
    assert (chain (emit (DataChanged (row index) (row index))
                     (emit Changed
                        (set_producer
                           (Some (Mlt.set_disable (Mlt.mkProducer (Some fs))
                                    (Mlt.handle f)
                                    (if Mlt.disable f =? 0 then 1 else 0))) s)))
            = Mlt.with_disable (Mlt.handle f)
                (if Mlt.disable f =? 0 then 1 else 0) <$> fs) as Hchain'
      by done.
    split_and!; try done.
    + rewrite Hchain', Hchain. by rewrite length_fmap.
    + left. exists e, f. rewrite Hchain', Hchain.
      split_and!; try done.
      * rewrite list_lookup_fmap, Hf. simpl. unfold Mlt.with_disable.
        by rewrite Nat.eqb_refl.
      * simpl. by rewrite <- app_assoc.
  - exists true, s. split; [done|]. split_and!; try done.
    right. split; [done|]. intros (_ & _ & e' & f & He' & He0 & Hf').
    assert (e' = e) as -> by congruence.
    unfold filter_at in Hf. destruct (Z.leb_spec 0 e); [|lia].
    rewrite Hchain in Hf'. congruence.
Qed.

Lemma setData_flips_disable_witness :
  ∃ s', setData (createIndex 1 0) CheckStateRole Sample.ABC = Some (true, s') ∧
        Mlt.disable <$> chain s' = [0; 1; 0].
Proof.
  destruct (setData_flips_disable (createIndex 1 0) CheckStateRole Sample.ABC)
    as (result & s' & Hset & Hresult & _ & _ & _ & _ & Hcase).
  - simpl. lia.
  - assert (result = true) as -> by (by apply Hresult).
    exists s'. split; [exact Hset|].
    destruct Hcase as [(e & f & _ & _ & He & _ & Hf & Hchain & _)|[_ Hnot]].
    + injection He as <-. injection Hf as <-. rewrite Hchain. reflexivity.
    + exfalso. apply Hnot. split; [reflexivity|]. split; [by eexists|].
      exists 1, Sample.fB. split; [reflexivity|]. split; [lia|reflexivity].
Defined.
